(** * Virtualized image grid: window management, selection and dialog navigation

    A shallow embedding of [ImageGrid] (components/virtualized-grid.ts) and of
    the [asset-element] it materializes (components/asset.ts).

    Conventions of the embedding:
    - JavaScript numbers that the grid computes with are integers well inside
      the exactly representable range; they are modelled as [Z], with
      [Math.floor (a / b)] as [a / b] and [Math.ceil (a / b)] as [ceil_div]
      (both for a positive divisor).  The ids of the items are floats of
      integer value, of any magnitude; the grid only compares them, writes
      them into attributes and reads them back ([parseInt_id]).
    - The shadow DOM is modelled by the pieces the grid reads and writes: the
      children of [#items] in document order, the text of [#items-selected],
      the [top] of [#wrapper], the height of [#container], the sidebar image
      and the content of the file dialog.  The template is assumed to contain
      all the nodes that the code looks up with [querySelector] (every
      [if (node)] guard succeeds), and no [asset-element] outside [#items].
    - [calls] is a ghost log: every call of [removeElement] and every
      [createElement] followed by [appendChild] or [prepend] is recorded with
      its index, in program order. *)

From Stdlib Require Import QArith Qround.
From stdpp Require Import base decidable option list list_numbers gmap strings pretty.

Open Scope Z_scope.

(** ** Data model *)

Inductive FileType := image | video | audio.

#[global] Instance FileType_eq_dec : EqDecision FileType.
Proof. solve_decision. Defined.

Module MediaInfo.
Record t := mk { id : Z; file_name : string; file_type : FileType }.
End MediaInfo.

(** [interface Range { start; end }], both bounds inclusive. *)
Record Range := mkRange { start : Z; end_ : Z }.

Module Selected.
Record t := mk { selected : gset Z; primary : option Z }.

(** [new Selected ()] *)
Definition empty : t := mk ∅ None.

Definition clear (s : t) : t := mk ∅ None.
End Selected.

(** An [asset-element] with the attributes [AssetElement] and the grid set on
    it. *)
Module AssetElement.
Record t := mk { id : Z; file_name : string; video : bool; selected : bool }.

Definition setSelectedAttr (v : bool) (e : t) : t :=
  mk (id e) (file_name e) (video e) v.
End AssetElement.

Inductive ViewCall :=
| Removed (index : Z)
| Appended (index : Z)
| Prepended (index : Z).

Record ImageGrid := mkGrid {
  items : list MediaInfo.t;
  cols : Z;
  totalRows : Z;
  maxEnd : Z;
  selected : Selected.t;
  dialogFile : option MediaInfo.t;
  window : Z;
  range : Range;
  itemsNode : list AssetElement.t;
  containerHeight : option Z;
  wrapperTop : Z;
  selectedText : string;
  sidebarImage : option Z;
  fileView : option (FileType * Z);
  dialogOpen : bool;
  calls : list ViewCall
}.

(** Field updates ([this.f = v]). *)
Definition set_layout (c tr me w : Z) (r : Range) (h : option Z) (g : ImageGrid)
    : ImageGrid :=
  mkGrid (items g) c tr me (selected g) (dialogFile g) w r (itemsNode g) h
         (wrapperTop g) (selectedText g) (sidebarImage g) (fileView g)
         (dialogOpen g) (calls g).

Definition set_range (r : Range) (g : ImageGrid) : ImageGrid :=
  mkGrid (items g) (cols g) (totalRows g) (maxEnd g) (selected g) (dialogFile g)
         (window g) r (itemsNode g) (containerHeight g) (wrapperTop g)
         (selectedText g) (sidebarImage g) (fileView g) (dialogOpen g) (calls g).

Definition set_selected (s : Selected.t) (g : ImageGrid) : ImageGrid :=
  mkGrid (items g) (cols g) (totalRows g) (maxEnd g) s (dialogFile g)
         (window g) (range g) (itemsNode g) (containerHeight g) (wrapperTop g)
         (selectedText g) (sidebarImage g) (fileView g) (dialogOpen g) (calls g).

Definition set_dialogFile (f : option MediaInfo.t) (g : ImageGrid) : ImageGrid :=
  mkGrid (items g) (cols g) (totalRows g) (maxEnd g) (selected g) f
         (window g) (range g) (itemsNode g) (containerHeight g) (wrapperTop g)
         (selectedText g) (sidebarImage g) (fileView g) (dialogOpen g) (calls g).

Definition set_itemsNode (d : list AssetElement.t) (g : ImageGrid) : ImageGrid :=
  mkGrid (items g) (cols g) (totalRows g) (maxEnd g) (selected g) (dialogFile g)
         (window g) (range g) d (containerHeight g) (wrapperTop g)
         (selectedText g) (sidebarImage g) (fileView g) (dialogOpen g) (calls g).

Definition set_wrapperTop (t : Z) (g : ImageGrid) : ImageGrid :=
  mkGrid (items g) (cols g) (totalRows g) (maxEnd g) (selected g) (dialogFile g)
         (window g) (range g) (itemsNode g) (containerHeight g) t
         (selectedText g) (sidebarImage g) (fileView g) (dialogOpen g) (calls g).

Definition set_selectedText (t : string) (g : ImageGrid) : ImageGrid :=
  mkGrid (items g) (cols g) (totalRows g) (maxEnd g) (selected g) (dialogFile g)
         (window g) (range g) (itemsNode g) (containerHeight g) (wrapperTop g)
         t (sidebarImage g) (fileView g) (dialogOpen g) (calls g).

Definition set_sidebarImage (i : option Z) (g : ImageGrid) : ImageGrid :=
  mkGrid (items g) (cols g) (totalRows g) (maxEnd g) (selected g) (dialogFile g)
         (window g) (range g) (itemsNode g) (containerHeight g) (wrapperTop g)
         (selectedText g) i (fileView g) (dialogOpen g) (calls g).

Definition set_fileView (v : option (FileType * Z)) (g : ImageGrid) : ImageGrid :=
  mkGrid (items g) (cols g) (totalRows g) (maxEnd g) (selected g) (dialogFile g)
         (window g) (range g) (itemsNode g) (containerHeight g) (wrapperTop g)
         (selectedText g) (sidebarImage g) v (dialogOpen g) (calls g).

Definition set_dialogOpen (b : bool) (g : ImageGrid) : ImageGrid :=
  mkGrid (items g) (cols g) (totalRows g) (maxEnd g) (selected g) (dialogFile g)
         (window g) (range g) (itemsNode g) (containerHeight g) (wrapperTop g)
         (selectedText g) (sidebarImage g) (fileView g) b (calls g).

Definition record_call (c : ViewCall) (g : ImageGrid) : ImageGrid :=
  mkGrid (items g) (cols g) (totalRows g) (maxEnd g) (selected g) (dialogFile g)
         (window g) (range g) (itemsNode g) (containerHeight g) (wrapperTop g)
         (selectedText g) (sidebarImage g) (fileView g) (dialogOpen g)
         (calls g ++ [c]).

(** ** Loops and array access *)

(** [Math.ceil (a / b)] for [b > 0]. *)
Definition ceil_div (a b : Z) : Z := - ((- a) / b).

(** [this.items.length] *)
Definition length_items (g : ImageGrid) : Z := Z.of_nat (length (items g)).

(** [this.items[index]]: [None] is JavaScript's [undefined]. *)
Definition item_at (l : list MediaInfo.t) (index : Z) : option MediaInfo.t :=
  if decide (0 ≤ index) then l !! Z.to_nat index else None.

(** [for (let i = lo; i <= hi; i++) body(i)] *)
Definition for_up (lo hi : Z) (body : ImageGrid → Z → ImageGrid) (g : ImageGrid) : ImageGrid :=
  foldl body g (seqZ lo (hi + 1 - lo)).

(** [for (let i = hi; i >= lo; i--) body(i)] *)
Definition for_down (hi lo : Z) (body : ImageGrid → Z → ImageGrid) (g : ImageGrid) : ImageGrid :=
  foldl body g (reverse (seqZ lo (hi + 1 - lo))).

(** [items.findIndex (x => x.id === id)], [-1] when there is none. *)
Fixpoint findIndex_from (i : Z) (id : Z) (l : list MediaInfo.t) : Z :=
  match l with
  | [] => -1
  | x :: l' => if decide (MediaInfo.id x = id) then i else findIndex_from (i + 1) id l'
  end.

Definition findIndex (id : Z) (l : list MediaInfo.t) : Z := findIndex_from 0 id l.

(** [items.find (x => x.id === id)] *)
Definition find_item (id : Z) (l : list MediaInfo.t) : option MediaInfo.t :=
  List.find (λ x, bool_decide (MediaInfo.id x = id)) l.

(** ** Layout *)

(** [ImageGrid.create] : only [items] is assigned; the numeric fields are
    assigned by [calculateLayout] before they are read, and hold [0] here.
    The container has no height set ([None]). *)
Definition create (its : list MediaInfo.t) : ImageGrid :=
  mkGrid its 0 0 0 Selected.empty None 0 (mkRange 0 0) [] None 0 "" None None false [].

(** [width] is [wrapper.clientWidth], [viewportHeight] is [window.innerHeight];
    both are non-negative integers.  [container.style.height = "...px"] takes
    effect for a non-negative length only: a negative one is not a valid
    [height], the assignment is dropped and the style keeps what it had. *)
Definition calculateLayout (width viewportHeight : N) (g : ImageGrid) : ImageGrid :=
  let cols := Z.max 1 ((Z.of_N width + 25) / (150 + 25)) in
  let totalRows := ceil_div (length_items g) cols in
  let maxEnd := ceil_div (length_items g) cols * cols - 1 in
  let totalHeight := totalRows * (200 + 25) - 25 in
  let height := if decide (0 ≤ totalHeight) then Some totalHeight
                else containerHeight g in
  let rows := ceil_div (Z.of_N viewportHeight) (200 + 25) in
  let window := (rows + 30) * cols in
  set_layout cols totalRows maxEnd window
             (mkRange 0 (Z.min (window - 1) maxEnd)) height g.

Definition calculateMargin (g : ImageGrid) : ImageGrid :=
  let start := Z.max (start (range g)) 0 / cols g in
  set_wrapperTop (25 + start * (200 + 25)) g.

(** ** View elements *)

(** [element.remove ()] on the first [asset-element] with the given id. *)
Fixpoint remove_first (id : Z) (l : list AssetElement.t) : list AssetElement.t :=
  match l with
  | [] => []
  | e :: l' => if decide (AssetElement.id e = id) then l' else e :: remove_first id l'
  end.

Definition in_bounds (g : ImageGrid) (index : Z) : bool :=
  negb (bool_decide (index < 0) || bool_decide (length_items g ≤ index)).

(** [createElement]: the element built for [items[index]], [None] for an index
    out of bounds.  The listeners it registers are [dblclick] and [mousedown]
    below, closed over [file]. *)
Definition createElement (g : ImageGrid) (index : Z) : option AssetElement.t :=
  if in_bounds g index then
    file ← item_at (items g) index;
    Some (AssetElement.mk (MediaInfo.id file) (MediaInfo.file_name file)
            (bool_decide (MediaInfo.file_type file = video))
            (bool_decide (MediaInfo.id file ∈ Selected.selected (selected g))))
  else None.

Definition removeElement (g : ImageGrid) (index : Z) : ImageGrid :=
  let g := record_call (Removed index) g in
  if in_bounds g index then
    match item_at (items g) index with
    | Some file => set_itemsNode (remove_first (MediaInfo.id file) (itemsNode g)) g
    | None => g
    end
  else g.

(** Loop body [const element = this.createElement (i);
    if (element) items.appendChild (element)]. *)
Definition appendElement (g : ImageGrid) (index : Z) : ImageGrid :=
  let g := record_call (Appended index) g in
  match createElement g index with
  | Some element => set_itemsNode (itemsNode g ++ [element]) g
  | None => g
  end.

(** Loop body [const element = this.createElement (i);
    if (element) items.prepend (element)]. *)
Definition prependElement (g : ImageGrid) (index : Z) : ImageGrid :=
  let g := record_call (Prepended index) g in
  match createElement g index with
  | Some element => set_itemsNode (element :: itemsNode g) g
  | None => g
  end.

(** ** Window management *)

Definition shiftForwards (g : ImageGrid) : ImageGrid :=
  let distance := Z.min (cols g * 5) (maxEnd g - end_ (range g)) in
  let oldStart := start (range g) in
  let oldEnd := end_ (range g) in
  let g := set_range (mkRange (oldStart + distance) (oldEnd + distance)) g in
  let g := calculateMargin g in
  let g := for_up oldStart (start (range g) - 1) removeElement g in
  for_up (oldEnd + 1) (end_ (range g)) appendElement g.

Definition shiftBackwards (g : ImageGrid) : ImageGrid :=
  let distance := Z.min (cols g * 5) (start (range g)) in
  let oldStart := start (range g) in
  let oldEnd := end_ (range g) in
  let g := set_range (mkRange (oldStart - distance) (oldEnd - distance)) g in
  let g := calculateMargin g in
  let g := for_down (oldStart - 1) (start (range g)) prependElement g in
  for_down oldEnd (end_ (range g) + 1) removeElement g.

Definition shiftRange (start0 : Z) (removeExisting : bool) (g : ImageGrid) : ImageGrid :=
  let g := if removeExisting
           then for_up (start (range g)) (end_ (range g)) removeElement g
           else g in
  let newStart := Z.max start0 0 in
  let g := set_range (mkRange newStart (Z.min (newStart + window g - 1) (maxEnd g))) g in
  let g := calculateMargin g in
  for_up (start (range g)) (end_ (range g)) appendElement g.

(** The part of [connectedCallback] that acts on the grid state: layout,
    initial materialization of the range, margin. *)
Definition connectedCallback (width viewportHeight : N) (g : ImageGrid) : ImageGrid :=
  let g := calculateLayout width viewportHeight g in
  let g := for_up (start (range g)) (end_ (range g)) appendElement g in
  calculateMargin g.

(** Calls of the three window operations, and their runs. *)
Inductive WindowOp :=
| ShiftForwards
| ShiftBackwards
| ShiftRange (targetStart : Z) (dropExisting : bool).

Definition window_step (g : ImageGrid) (o : WindowOp) : ImageGrid :=
  match o with
  | ShiftForwards => shiftForwards g
  | ShiftBackwards => shiftBackwards g
  | ShiftRange s b => shiftRange s b g
  end.

Definition run (ops : list WindowOp) (g : ImageGrid) : ImageGrid :=
  foldl window_step g ops.

(** ** Selection *)

(** [assetElement.setAttribute ("selected", "")] or [removeAttribute] on the
    first [asset-element] with the given id. *)
Fixpoint set_attr_first (id : Z) (v : bool) (l : list AssetElement.t) : list AssetElement.t :=
  match l with
  | [] => []
  | e :: l' =>
      if decide (AssetElement.id e = id)
      then AssetElement.setSelectedAttr v e :: l'
      else e :: set_attr_first id v l'
  end.

Definition setSelected (i : Z) (value : bool) (g : ImageGrid) : ImageGrid :=
  let s := selected g in
  let members := if value
                 then {[i]} ∪ Selected.selected s
                 else Selected.selected s ∖ {[i]} in
  set_itemsNode (set_attr_first i value (itemsNode g))
    (set_selected (Selected.mk members (Selected.primary s)) g).

(** [setPrimary] has no [await] in its body: it runs to completion when
    called. *)
Definition setPrimary (primary : option Z) (g : ImageGrid) : ImageGrid :=
  let oldPrimary := Selected.primary (selected g) in
  let g := set_selected (Selected.mk (Selected.selected (selected g)) primary) g in
  if decide (primary ≠ oldPrimary) then
    match primary with
    | None => g
    | Some p =>
        match find_item p (items g) with
        | Some file => set_sidebarImage (Some (MediaInfo.id file)) g
        | None => g
        end
    end
  else g.

Definition clearSelected (g : ImageGrid) : ImageGrid :=
  let g := foldl (λ g i, setSelected i false g) g
                 (elements (Selected.selected (selected g))) in
  setPrimary None g.

Definition updateSelected (g : ImageGrid) : ImageGrid :=
  let n := size (Selected.selected (selected g)) in
  if decide (n = 0%nat) then set_selectedText "No items selected" g
  else set_selectedText
         (pretty n +:+ " " +:+ (if decide (n = 1%nat) then "item" else "items")
            +:+ " selected") g.

(** ** File dialog *)

Definition changeFileDialog (file : MediaInfo.t) (g : ImageGrid) : ImageGrid :=
  let g := set_dialogFile (Some file) g in
  set_fileView (Some (MediaInfo.file_type file, MediaInfo.id file)) g.

Definition showFileDialog (file : MediaInfo.t) (g : ImageGrid) : ImageGrid :=
  changeFileDialog file (set_dialogOpen true g).

(** The [close] listener registered by [changeFileDialog]. *)
Definition closeFileDialog (g : ImageGrid) : ImageGrid :=
  set_fileView None (set_dialogFile None (set_dialogOpen false g)).

(** ** Reading an id back from its attribute

    [AssetElement] writes [id.toString ()] into the [id] attribute, and the
    listeners read it back with [parseInt (element.getAttribute ("id"))].
    The ids are floats of integer value.  Below [10^21] in magnitude the
    string is a decimal numeral that rounds to the id, and [parseInt] returns
    the id.  From [10^21] on the string is in exponent notation, ["de+n"] or
    ["d.ddde+n"], and [parseInt] stops at the ["."] or the ["e"]: it returns
    the first digit [d] of the shortest decimal that rounds to the float,
    with the sign of the id. *)

Fixpoint decimal_digits_from (fuel : nat) (x : Z) : Z :=
  match fuel with
  | O => 1
  | S fuel => if decide (x < 10) then 1 else 1 + decimal_digits_from fuel (x / 10)
  end.

(** The number of decimal digits of [x > 0]. *)
Definition decimal_digits (x : Z) : Z := decimal_digits_from (Z.to_nat (Z.log2 x)) x.

(** The first decimal digit of [x > 0]. *)
Definition first_digit (x : Z) : Z := x / 10 ^ (decimal_digits x - 1).

(** Whether the integer [v] rounds to the float [x >= 2^53] (to the nearest
    float, a tie to the one with the even significand).  [u] is the distance
    from [x] to the next float above; the float below is at the distance
    [u], or [u / 2] when [x] is a power of two. *)
Definition rounds_to (x v : Z) : bool :=
  let u := 2 ^ (Z.log2 x - 52) in
  let even := Z.even (x / u) in
  let below := if decide (x = 2 ^ Z.log2 x) then u / 2 else u in
  if decide (x ≤ v)
  then bool_decide (2 * (v - x) < u) || (bool_decide (2 * (v - x) = u) && even)
  else bool_decide (2 * (x - v) < below) || (bool_decide (2 * (x - v) = below) && even).

(** The first digit of the shortest decimal that rounds to [x]: with [k]
    significant digits the candidates are the two multiples of [10^(n - k)]
    around [x], where [n] is the number of digits of [x]; [k] grows until
    one of them rounds to [x] (17 digits are enough for a float). *)
Fixpoint shortest_first_digit (fuel : nat) (k : Z) (x : Z) : Z :=
  let p := 10 ^ (decimal_digits x - k) in
  let lo := x / p * p in
  let hi := lo + p in
  if rounds_to x lo then first_digit lo
  else if rounds_to x hi then first_digit hi
  else match fuel with
       | O => first_digit x
       | S fuel => shortest_first_digit fuel (k + 1) x
       end.

(** [parseInt (id.toString ())] *)
Definition parseInt_id (id : Z) : Z :=
  if decide (Z.abs id < 10 ^ 21) then id
  else Z.sgn id * shortest_first_digit 16 1 (Z.abs id).

(** ** Pointer input *)

Record MouseEvent := mkMouse { button : Z; shiftKey : bool; ctrlKey : bool }.

(** A loop whose body may throw ([None]): [items[i].id] on an [undefined]
    entry is a [TypeError]. *)
Definition for_up_throw (lo hi : Z) (body : ImageGrid → Z → option ImageGrid)
    (g : ImageGrid) : option ImageGrid :=
  foldl (λ r i, g ← r; body g i) (Some g) (seqZ lo (hi + 1 - lo)).

(** The three branches of the [mousedown] listener. *)

(** [if (event.shiftKey && this.selected.primary !== null)] *)
Definition shiftClickBranch (previousPrimary id : Z) (g : ImageGrid) : option ImageGrid :=
  let startPosition := findIndex previousPrimary (items g) in
  let endPosition := findIndex id (items g) in
  let '(startPosition, endPosition) :=
    if decide (startPosition > endPosition)
    then (endPosition, startPosition)
    else (startPosition, endPosition) in
  g ← for_up_throw startPosition endPosition
        (λ g i, it ← item_at (items g) i;
                Some (setSelected (MediaInfo.id it) true g)) g;
  Some (setPrimary (Some id) g).

(** [else if (event.ctrlKey)] *)
Definition ctrlClickBranch (id : Z) (g : ImageGrid) : ImageGrid :=
  if decide (id ∈ Selected.selected (selected g)) then
    let g := setSelected id false g in
    if decide (Selected.primary (selected g) = Some id)
    then setPrimary None g
    else g
  else
    setPrimary (Some id) (setSelected id true g).

(** [else if (event.button === 0 || !this.selected.selected.has (id))] *)
Definition plainClickBranch (event : MouseEvent) (id : Z) (g : ImageGrid) : ImageGrid :=
  if decide (button event = 0 ∨ id ∉ Selected.selected (selected g)) then
    setPrimary (Some id) (setSelected id true (clearSelected g))
  else g.

(** The [mousedown] listener of the element created for [file]; [id] is read
    back from the [id] attribute, which holds [file.id.toString ()]. *)
Definition mousedown (event : MouseEvent) (file : MediaInfo.t) (g : ImageGrid)
    : option ImageGrid :=
  if decide (button event = 3 ∨ button event = 4) then Some g else
  let id := parseInt_id (MediaInfo.id file) in
  g ← match (if shiftKey event then Selected.primary (selected g) else None) with
      | Some previousPrimary => shiftClickBranch previousPrimary id g
      | None =>
          if ctrlKey event then Some (ctrlClickBranch id g)
          else Some (plainClickBranch event id g)
      end;
  if decide (button event = 1) then Some (showFileDialog file g)
  else Some (updateSelected g).

(** ** Keyboard input while the dialog is open *)

Inductive Key := ArrowLeft | ArrowRight | ArrowUp | ArrowDown | Escape | Enter | OtherKey.

(** The branch of [keydownListener] taken when [dialogFile !== null]; [None] is
    returned when the dialog is closed (that branch is not modelled) or when
    the handler throws. *)
Definition keydownDialog (key : Key) (g : ImageGrid) : option ImageGrid :=
  match dialogFile g with
  | None => None
  | Some current =>
      match key with
      | ArrowLeft =>
          let index := findIndex (MediaInfo.id current) (items g) in
          if decide (index > 0) then
            file ← item_at (items g) (index - 1);
            Some (changeFileDialog file g)
          else Some g
      | ArrowRight =>
          let index := findIndex (MediaInfo.id current) (items g) in
          if decide (index < length_items g - 1) then
            file ← item_at (items g) (index + 1);
            Some (changeFileDialog file g)
          else Some g
      | _ => Some g
      end
  end.

(** ** Reconciliation *)

(** The loop run by the [IntersectionObserver] callback for an intersecting
    start sentinel.  [far g] is the reading
    [startSentinel.getBoundingClientRect ().bottom <= -1100] taken in state
    [g]; [None] means that the fuel ran out before the loop was left. *)
Fixpoint startSentinelLoop (fuel : nat) (far : ImageGrid → bool) (g : ImageGrid)
    : option ImageGrid :=
  match fuel with
  | O => None
  | S fuel =>
      if decide (start (range g) > 0) then
        let g := shiftBackwards g in
        if far g then Some g else startSentinelLoop fuel far g
      else Some g
  end.

(** The same for an intersecting end sentinel; [far g] is the reading
    [endSentinel.getBoundingClientRect ().top >= window.innerHeight + 1100]. *)
Fixpoint endSentinelLoop (fuel : nat) (far : ImageGrid → bool) (g : ImageGrid)
    : option ImageGrid :=
  match fuel with
  | O => None
  | S fuel =>
      if decide (end_ (range g) ≤ length_items g - 1) then
        let g := shiftForwards g in
        if far g then Some g else endSentinelLoop fuel far g
      else Some g
  end.

(** The readings [adjustRange] takes: the bottom of the start sentinel, the top
    of the end sentinel, minus the top of the container, and
    [window.innerHeight].  Pixel readings are rationals; the rounding of the
    floating-point subtraction and division is neglected. *)
Record Readings := mkReadings {
  startBottom : Q;
  endTop : Q;
  top : Q;
  innerHeight : Z
}.

Definition adjustRange_guard (r : Readings) (g : ImageGrid) : bool :=
  (bool_decide (start (range g) > 0) && negb (Qle_bool (startBottom r) (inject_Z (-1000))))
  || (bool_decide (end_ (range g) < maxEnd g)
      && negb (Qle_bool (inject_Z (innerHeight r + 1000)) (endTop r))).

(** One run of [adjustRange]; the boolean tells whether the follow-up
    [setTimeout (() => this.adjustRange (), 500)] was scheduled. *)
Definition adjustRange (r : Readings) (removeExisting : bool) (g : ImageGrid)
    : ImageGrid * bool :=
  if adjustRange_guard r g then
    let start := Qceiling ((top r - inject_Z 1500) / inject_Z (200 + 25))%Q * cols g in
    (shiftRange start removeExisting g, true)
  else (g, false).


(** ** Keyboard input in the grid

    The siblings of an [asset-element] are the children of [#items]: the
    template is taken to leave [#items] empty, with the sentinels outside
    it.  [event.preventDefault ()] and [element.scrollIntoView ()] act on the
    page, not on the state of the grid, and are left out. *)

(** The position among the children of [#items] of the element returned by
    [querySelector (`asset-element[id="..."]`)]: the first one with the id. *)
Fixpoint element_position (id : Z) (l : list AssetElement.t) : option nat :=
  match l with
  | [] => None
  | e :: l' =>
      if decide (AssetElement.id e = id) then Some O
      else S <$> element_position id l'
  end.

(** The walk of [findVerticalNeighbour] over the next siblings: [l] holds
    them in document order, the first one at position [pos]; [same j] tells
    whether the element at position [j] has the [left] of the start
    element. *)
Fixpoint scan_down (same : nat → bool) (pos : nat) (l : list AssetElement.t)
    : option (nat * AssetElement.t) :=
  match l with
  | [] => None
  | e :: l' => if same pos then Some (pos, e) else scan_down same (S pos) l'
  end.

(** The walk over the previous siblings: [l] holds them nearest first, the
    first one at position [pos - 1]. *)
Fixpoint scan_up (same : nat → bool) (pos : nat) (l : list AssetElement.t)
    : option (nat * AssetElement.t) :=
  match l, pos with
  | e :: l', S q => if same q then Some (q, e) else scan_up same q l'
  | _, _ => None
  end.

(** [findVerticalNeighbour (x, up)] for the element [x] at position [p] of the
    children [l]; [left j] is the reading [getBoundingClientRect ().left] of
    the child at position [j] (any type of readings with a decidable
    equality).  The result is the sibling found, with its position. *)
Definition findVerticalNeighbour {Px : Type} `{EqDecision Px} (left : nat → Px)
    (l : list AssetElement.t) (p : nat) (up : bool) : option (nat * AssetElement.t) :=
  let same := λ j, bool_decide (left j = left p) in
  if up then scan_up same p (reverse (take p l))
  else scan_down same (S p) (drop (S p) l).

(** The branch of [keydownListener] taken when [dialogFile === null].
    [!this.selected.primary] holds for [null] and for the id [0]. *)
Definition keydownGrid {Px : Type} `{EqDecision Px} (left : nat → Px)
    (key : Key) (g : ImageGrid) : ImageGrid :=
  match key with
  | ArrowDown | ArrowUp | ArrowLeft | ArrowRight =>
      match Selected.primary (selected g) with
      | None => g
      | Some primary =>
          if decide (primary = 0) then g else
          match element_position primary (itemsNode g) with
          | None => g
          | Some p =>
              let element :=
                match key with
                | ArrowDown => snd <$> findVerticalNeighbour left (itemsNode g) p false
                | ArrowUp => snd <$> findVerticalNeighbour left (itemsNode g) p true
                | ArrowLeft =>
                    match p with
                    | O => None
                    | S q => itemsNode g !! q
                    end
                | _ => itemsNode g !! S p
                end in
              match element with
              | None => g
              | Some element =>
                  let id := parseInt_id (AssetElement.id element) in
                  let g := clearSelected g in
                  let g := setSelected id true g in
                  let g := setPrimary (Some id) g in
                  updateSelected g
              end
          end
      end
  | Escape => updateSelected (clearSelected g)
  | Enter =>
      match Selected.primary (selected g) with
      | None => g
      | Some primary =>
          if decide (primary = 0) then g else
          match find_item primary (items g) with
          | Some file => showFileDialog file g
          | None => g
          end
      end
  | OtherKey => g
  end.

(** [keydownListener]: the dialog branch when a file is shown, the grid
    branch otherwise. *)
Definition keydownListener {Px : Type} `{EqDecision Px} (left : nat → Px)
    (key : Key) (g : ImageGrid) : option ImageGrid :=
  match dialogFile g with
  | Some _ => keydownDialog key g
  | None => Some (keydownGrid left key g)
  end.

(** [setupEditDisplay (packInfo)] when [#main-page] exists:
    [ImageGrid.create (packInfo?.files ?? [])], then [connectedCallback] as
    the element is appended to the page.  [packInfo] is given by its
    [files]; the [hidden] classes of the two pages are not modelled. *)
Definition setupEditDisplay (packInfo : option (list MediaInfo.t))
    (width viewportHeight : N) : ImageGrid :=
  connectedCallback width viewportHeight (create (default [] packInfo)).

(** ** Definitions used to state the properties *)

(** [g'] differs from [g] in the children of [#items] and in the log only. *)
Definition view_only (g g' : ImageGrid) : Prop :=
  g' = set_itemsNode (itemsNode g')
         (mkGrid (items g) (cols g) (totalRows g) (maxEnd g) (selected g)
            (dialogFile g) (window g) (range g) (itemsNode g) (containerHeight g)
            (wrapperTop g) (selectedText g) (sidebarImage g) (fileView g)
            (dialogOpen g) (calls g')).

(** [g'] has the items, the geometry and the selection of [g]. *)
Definition same_layout (g g' : ImageGrid) : Prop :=
  items g' = items g ∧ cols g' = cols g ∧ maxEnd g' = maxEnd g
  ∧ window g' = window g ∧ selected g' = selected g.

(** The Range invariant of the window. *)
Definition range_ok (g : ImageGrid) : Prop :=
  0 ≤ start (range g) ∧ start (range g) ≤ end_ (range g) ∧ end_ (range g) ≤ maxEnd g.

(** What [calculateLayout] guarantees about the geometry. *)
Definition layout_ok (g : ImageGrid) : Prop :=
  1 ≤ cols g ∧ cols g * 30 ≤ window g.

(** A collection of [n] images with ids [0 .. n-1], for concrete scenarios. *)
Definition sample_items (n : nat) : list MediaInfo.t :=
  (λ i, MediaInfo.mk (Z.of_nat i) "file" image) <$> seq 0 n.

Definition sample_file (i : Z) : MediaInfo.t := MediaInfo.mk i "file" image.

(** The grid attached with [n] sample items in a wrapper 700 px wide (4
    columns) and a viewport 900 px high (a window of 136 indices). *)
Definition sample_grid (n : nat) : ImageGrid :=
  connectedCallback 700 900 (create (sample_items n)).

(** The same in a wrapper 100 px wide (1 column) and a viewport 225 px high (a
    window of 31 indices). *)
Definition narrow_grid (n : nat) : ImageGrid :=
  connectedCallback 100 225 (create (sample_items n)).

(** The sample grid after a click on the element of id 7: 7 is selected and is
    the primary. *)
Definition anchored_grid : ImageGrid :=
  setPrimary (Some 7) (setSelected 7 true (sample_grid 10)).

(** The sample grid with the dialog open on the item at position 3. *)
Definition dialog_grid : ImageGrid := showFileDialog (sample_file 3) (sample_grid 10).

(** The state of the scenario [cols = 4], range [{0, 15}], [maxEnd = 39]. *)
Definition scenario_grid : ImageGrid :=
  set_layout 4 10 39 16 (mkRange 0 15) (Some 2225) (create (sample_items 40)).

(** The scenario with its range materialized: the elements of the indices
    [0 .. 15] are on the surface. *)
Definition filled_scenario_grid : ImageGrid :=
  for_up 0 15 appendElement scenario_grid.

(** The sample grid after ctrl-clicks on the elements of ids 0 and 9: both
    are selected and 9 is the primary. *)
Definition two_selected_grid : ImageGrid :=
  setPrimary (Some 9) (setSelected 9 true
    (setPrimary (Some 0) (setSelected 0 true (sample_grid 10)))).

(** Three items, the first and the last with the same id. *)
Definition dup_items : list MediaInfo.t :=
  [MediaInfo.mk 1 "a" image; MediaInfo.mk 2 "b" image; MediaInfo.mk 1 "c" image].

(** The grid of [dup_items] with the dialog open on the last item. *)
Definition dup_dialog_grid : ImageGrid :=
  showFileDialog (MediaInfo.mk 1 "c" image)
    (connectedCallback 700 900 (create dup_items)).

(** The ids of the materialized elements, in document order. *)
Definition surface_ids (g : ImageGrid) : list Z := AssetElement.id <$> itemsNode g.

(** The id of the item at an index, as a list: empty out of bounds. *)
Definition id_at (its : list MediaInfo.t) (i : Z) : list Z :=
  match item_at its i with
  | Some file => [MediaInfo.id file]
  | None => []
  end.

(** The ids of the items at the indices [lo .. hi] that are in bounds, in
    ascending order of index. *)
Definition ids_between (its : list MediaInfo.t) (lo hi : Z) : list Z :=
  seqZ lo (hi + 1 - lo) ≫= id_at its.

(** [remove_first] on the ids alone. *)
Fixpoint delete_first (x : Z) (l : list Z) : list Z :=
  match l with
  | [] => []
  | y :: l' => if decide (y = x) then l' else y :: delete_first x l'
  end.

(** The effect of one logged call on the ids on the surface, and the surface
    reached from the empty one by a log. *)
Definition replay_call (its : list MediaInfo.t) (d : list Z) (c : ViewCall) : list Z :=
  match c with
  | Removed i =>
      match item_at its i with
      | Some file => delete_first (MediaInfo.id file) d
      | None => d
      end
  | Appended i => d ++ id_at its i
  | Prepended i => id_at its i ++ d
  end.

Definition replay (its : list MediaInfo.t) (cs : list ViewCall) : list Z :=
  foldl (replay_call its) [] cs.

(** Every surface passed through while [cs] is played from [d] is free of
    duplicates. *)
Definition all_points (its : list MediaInfo.t) (d : list Z) (cs : list ViewCall) : Prop :=
  ∀ p, p `prefix_of` cs → NoDup (foldl (replay_call its) d p).

(** The calls that a window operation issues in state [g]. *)
Definition op_calls (g : ImageGrid) (o : WindowOp) : list ViewCall :=
  let s := start (range g) in
  let e := end_ (range g) in
  match o with
  | ShiftForwards =>
      let d := Z.min (cols g * 5) (maxEnd g - e) in
      (Removed <$> seqZ s d) ++ (Appended <$> seqZ (e + 1) d)
  | ShiftBackwards =>
      let d := Z.min (cols g * 5) s in
      (Prepended <$> reverse (seqZ (s - d) d))
      ++ (Removed <$> reverse (seqZ (e - d + 1) d))
  | ShiftRange t b =>
      let s' := Z.max t 0 in
      let e' := Z.min (s' + window g - 1) (maxEnd g) in
      (if b then Removed <$> seqZ s (e + 1 - s) else [])
      ++ (Appended <$> seqZ s' (e' + 1 - s'))
  end.

(** The calls under which the surface stays in step with the range:
    [shiftRange] drops the existing elements and does not start beyond
    [maxEnd + 1], and [shiftForwards] finds a range at least as long as its
    stride. *)
Definition op_admissible (g : ImageGrid) (o : WindowOp) : Prop :=
  match o with
  | ShiftForwards =>
      Z.min (cols g * 5) (maxEnd g - end_ (range g))
      ≤ end_ (range g) + 1 - start (range g)
  | ShiftBackwards => True
  | ShiftRange t b => b = true ∧ t ≤ maxEnd g + 1
  end.

Fixpoint admissible (ops : list WindowOp) (g : ImageGrid) : Prop :=
  match ops with
  | [] => True
  | o :: ops' => op_admissible g o ∧ admissible ops' (window_step g o)
  end.

(** The surface holds the items of the range, and the range is not inverted. *)
Definition in_step (g : ImageGrid) : Prop :=
  surface_ids g = ids_between (items g) (start (range g)) (end_ (range g))
  ∧ 0 ≤ start (range g) ∧ start (range g) ≤ end_ (range g) + 1
  ∧ end_ (range g) ≤ maxEnd g.

(** A static condition on the calls that makes a run admissible: the range
    keeps at least one stride of indices, or covers the whole collection. *)
Definition long_enough (g : ImageGrid) : Prop :=
  cols g * 5 ≤ end_ (range g) + 1 - start (range g)
  ∨ (start (range g) = 0 ∧ end_ (range g) = maxEnd g).

Definition op_static (g : ImageGrid) (o : WindowOp) : Prop :=
  match o with
  | ShiftRange t b => b = true ∧ (t ≤ 0 ∨ t + cols g * 5 ≤ maxEnd g + 1)
  | _ => True
  end.

(** ** Further definitions used to state properties *)

(** The [selected] attribute of every materialized element tells whether its
    id is in the selected set. *)
Definition attrs_in_sync (g : ImageGrid) : Prop :=
  ∀ e, e ∈ itemsNode g →
       AssetElement.selected e
       = bool_decide (AssetElement.id e ∈ Selected.selected (selected g)).

(** Every selected id is the id of an item, and the primary, when there is
    one, is selected. *)
Definition selection_ok (g : ImageGrid) : Prop :=
  (∀ x, x ∈ Selected.selected (selected g) → x ∈ MediaInfo.id <$> items g)
  ∧ (∀ p, Selected.primary (selected g) = Some p →
          p ∈ Selected.selected (selected g)).

(** The window consists of whole rows. *)
Definition row_aligned (g : ImageGrid) : Prop :=
  (cols g | start (range g)) ∧ (cols g | end_ (range g) + 1).

(** The summary text for [n] selected ids. *)
Definition summary (n : nat) : string :=
  match n with
  | 0%nat => "No items selected"
  | 1%nat => "1 item selected"
  | n => pretty n +:+ " items selected"
  end.

(** The wrapper is placed at the row of the range's start. *)
Definition margin_ok (g : ImageGrid) : Prop :=
  wrapperTop g = 25 + Z.max (start (range g)) 0 / cols g * 225.

(** [g'] has the items, the layout, the range, the elements (up to their
    [selected] attribute), the log and the dialog of [g]. *)
Definition selection_frame (g g' : ImageGrid) : Prop :=
  items g' = items g ∧ cols g' = cols g ∧ maxEnd g' = maxEnd g
  ∧ window g' = window g ∧ range g' = range g
  ∧ surface_ids g' = surface_ids g ∧ calls g' = calls g
  ∧ dialogFile g' = dialogFile g ∧ wrapperTop g' = wrapperTop g.

(** [g'] has the selection, the dialog and the summary of [g]. *)
Definition same_selection (g g' : ImageGrid) : Prop :=
  selected g' = selected g ∧ dialogFile g' = dialogFile g
  ∧ selectedText g' = selectedText g.

(** The branch of the [mousedown] listener chosen by the modifiers, before
    the dialog or the summary is handled. *)
Definition mousedownBranch (event : MouseEvent) (id : Z) (g : ImageGrid)
    : option ImageGrid :=
  match (if shiftKey event then Selected.primary (selected g) else None) with
  | Some previousPrimary => shiftClickBranch previousPrimary id g
  | None =>
      if ctrlKey event then Some (ctrlClickBranch id g)
      else Some (plainClickBranch event id g)
  end.

(** The end of the arrow-key branch of [keydownListener]: the element found,
    if there is one, becomes the whole selection and the primary. *)
Definition moveTo (element : option AssetElement.t) (g : ImageGrid) : ImageGrid :=
  match element with
  | None => g
  | Some element =>
      updateSelected
        (setPrimary (Some (parseInt_id (AssetElement.id element)))
           (setSelected (parseInt_id (AssetElement.id element)) true (clearSelected g)))
  end.

(** ** Frame properties of the view operations *)

Lemma view_only_refl g : view_only g g.
Proof. by destruct g. Qed.

Lemma view_only_trans g1 g2 g3 : view_only g1 g2 → view_only g2 g3 → view_only g1 g3.
Proof.
  unfold view_only. intros H12 H23. rewrite H23. rewrite H12. reflexivity.
Qed.

Lemma view_only_foldl (body : ImageGrid → Z → ImageGrid) (l : list Z) :
  (∀ g i, view_only g (body g i)) → ∀ g, view_only g (foldl body g l).
Proof.
  intros Hbody. induction l as [|i l IH]; intros g; simpl.
  - apply view_only_refl.
  - eapply view_only_trans; [apply Hbody | apply IH].
Qed.

Lemma removeElement_view_only g i : view_only g (removeElement g i).
Proof.
  unfold removeElement. destruct g. unfold in_bounds, length_items. simpl.
  repeat case_match; reflexivity.
Qed.

Lemma appendElement_view_only g i : view_only g (appendElement g i).
Proof.
  unfold appendElement. destruct g. simpl. case_match; reflexivity.
Qed.

Lemma prependElement_view_only g i : view_only g (prependElement g i).
Proof.
  unfold prependElement. destruct g. simpl. case_match; reflexivity.
Qed.

Lemma view_only_fields g g' :
  view_only g g' →
  items g' = items g ∧ cols g' = cols g ∧ maxEnd g' = maxEnd g
  ∧ window g' = window g ∧ range g' = range g ∧ selected g' = selected g
  ∧ wrapperTop g' = wrapperTop g.
Proof. intros ->. by destruct g. Qed.

Lemma removeAll_view_only l g : view_only g (foldl removeElement g l).
Proof. apply view_only_foldl, removeElement_view_only. Qed.

Lemma appendAll_view_only l g : view_only g (foldl appendElement g l).
Proof. apply view_only_foldl, appendElement_view_only. Qed.

Lemma prependAll_view_only l g : view_only g (foldl prependElement g l).
Proof. apply view_only_foldl, prependElement_view_only. Qed.

(** The log of a loop is the list of its indices. *)
Lemma removeElement_calls g i : calls (removeElement g i) = calls g ++ [Removed i].
Proof.
  unfold removeElement. destruct g. unfold in_bounds, length_items. simpl.
  repeat case_match; reflexivity.
Qed.

Lemma appendElement_calls g i : calls (appendElement g i) = calls g ++ [Appended i].
Proof. unfold appendElement. destruct g. simpl. case_match; reflexivity. Qed.

Lemma prependElement_calls g i : calls (prependElement g i) = calls g ++ [Prepended i].
Proof. unfold prependElement. destruct g. simpl. case_match; reflexivity. Qed.

Lemma foldl_calls (body : ImageGrid → Z → ImageGrid) (c : Z → ViewCall) (l : list Z) :
  (∀ g i, calls (body g i) = calls g ++ [c i]) →
  ∀ g, calls (foldl body g l) = calls g ++ (c <$> l).
Proof.
  intros Hbody. induction l as [|i l IH]; intros g; simpl.
  - by rewrite app_nil_r.
  - rewrite IH, Hbody, <- app_assoc. reflexivity.
Qed.

(** The range after each operation. *)
Lemma shiftForwards_range g :
  range (shiftForwards g)
  = mkRange (start (range g) + Z.min (cols g * 5) (maxEnd g - end_ (range g)))
            (end_ (range g) + Z.min (cols g * 5) (maxEnd g - end_ (range g))).
Proof.
  unfold shiftForwards, for_up.
  repeat match goal with
  | |- context [foldl ?b ?g0 ?l] =>
      let H := fresh in
      destruct (view_only_fields g0 (foldl b g0 l)) as (_ & _ & _ & _ & H & _);
      [first [apply removeAll_view_only | apply appendAll_view_only]|];
      rewrite H; clear H
  end.
  reflexivity.
Qed.

Lemma shiftBackwards_range g :
  range (shiftBackwards g)
  = mkRange (start (range g) - Z.min (cols g * 5) (start (range g)))
            (end_ (range g) - Z.min (cols g * 5) (start (range g))).
Proof.
  unfold shiftBackwards, for_down.
  repeat match goal with
  | |- context [foldl ?b ?g0 ?l] =>
      let H := fresh in
      destruct (view_only_fields g0 (foldl b g0 l)) as (_ & _ & _ & _ & H & _);
      [first [apply removeAll_view_only | apply prependAll_view_only]|];
      rewrite H; clear H
  end.
  reflexivity.
Qed.

Lemma shiftRange_range s b g :
  range (shiftRange s b g)
  = mkRange (Z.max s 0) (Z.min (Z.max s 0 + window g - 1) (maxEnd g)).
Proof.
  unfold shiftRange, for_up.
  match goal with
  | |- context [foldl appendElement ?g0 ?l] =>
      destruct (view_only_fields g0 (foldl appendElement g0 l)) as (_ & _ & _ & _ & H & _);
      [apply appendAll_view_only|]; rewrite H; clear H
  end.
  destruct b; simpl; [|reflexivity].
  destruct (view_only_fields g (foldl removeElement g
     (seqZ (start (range g)) (end_ (range g) + 1 - start (range g)))))
    as (_ & _ & Hm & Hw & _); [apply removeAll_view_only|].
  by rewrite Hm, Hw.
Qed.

(** The layout is left alone by the three operations. *)
Lemma same_layout_refl g : same_layout g g.
Proof. by repeat split. Qed.

Lemma same_layout_trans g1 g2 g3 :
  same_layout g1 g2 → same_layout g2 g3 → same_layout g1 g3.
Proof. unfold same_layout. intuition congruence. Qed.

Lemma view_only_same_layout g g' : view_only g g' → same_layout g g'.
Proof. intros ->. by destruct g. Qed.

Lemma shiftForwards_layout g : same_layout g (shiftForwards g).
Proof.
  unfold shiftForwards, for_up.
  eapply same_layout_trans; [|apply view_only_same_layout, appendAll_view_only].
  eapply same_layout_trans; [|apply view_only_same_layout, removeAll_view_only].
  by repeat split.
Qed.

Lemma shiftBackwards_layout g : same_layout g (shiftBackwards g).
Proof.
  unfold shiftBackwards, for_down.
  eapply same_layout_trans; [|apply view_only_same_layout, removeAll_view_only].
  eapply same_layout_trans; [|apply view_only_same_layout, prependAll_view_only].
  by repeat split.
Qed.

Lemma shiftRange_layout s b g : same_layout g (shiftRange s b g).
Proof.
  unfold shiftRange, for_up.
  eapply same_layout_trans; [|apply view_only_same_layout, appendAll_view_only].
  eapply same_layout_trans with
    (g2 := if b then foldl removeElement g
                  (seqZ (start (range g)) (end_ (range g) + 1 - start (range g)))
           else g).
  - destruct b; [apply view_only_same_layout, removeAll_view_only | apply same_layout_refl].
  - by repeat split.
Qed.

Lemma window_step_layout g o : same_layout g (window_step g o).
Proof.
  destruct o; simpl;
    [apply shiftForwards_layout | apply shiftBackwards_layout | apply shiftRange_layout].
Qed.

Lemma run_layout ops g : same_layout g (run ops g).
Proof.
  revert g. induction ops as [|o ops IH]; intros g; simpl.
  - apply same_layout_refl.
  - eapply same_layout_trans; [apply window_step_layout | apply IH].
Qed.

(** ** Layout facts *)

Lemma ceil_div_nonneg a b : 0 ≤ a → 0 < b → 0 ≤ ceil_div a b.
Proof. unfold ceil_div. intros Ha Hb. Z.div_mod_to_equations. nia. Qed.

Lemma ceil_div_covers a b : 0 < b → a ≤ ceil_div a b * b.
Proof. unfold ceil_div. intros Hb. Z.div_mod_to_equations. nia. Qed.

Lemma calculateLayout_spec width viewportHeight g :
  let g' := calculateLayout width viewportHeight g in
  items g' = items g ∧ layout_ok g' ∧ length_items g - 1 ≤ maxEnd g'
  ∧ range g' = mkRange 0 (Z.min (window g' - 1) (maxEnd g')).
Proof.
  unfold calculateLayout, layout_ok. simpl.
  set (c := Z.max 1 ((Z.of_N width + 25) / (150 + 25))).
  assert (1 ≤ c) by (unfold c; lia).
  pose proof (ceil_div_nonneg (Z.of_N viewportHeight) (200 + 25)).
  pose proof (ceil_div_covers (length_items g) c).
  repeat split; try done; nia.
Qed.

Lemma connectedCallback_spec width viewportHeight its :
  let g := connectedCallback width viewportHeight (create its) in
  items g = its ∧ layout_ok g ∧ Z.of_nat (length its) - 1 ≤ maxEnd g
  ∧ range g = mkRange 0 (Z.min (window g - 1) (maxEnd g)).
Proof.
  unfold connectedCallback, for_up.
  set (g1 := calculateLayout width viewportHeight (create its)).
  destruct (calculateLayout_spec width viewportHeight (create its))
    as (Hi & [Hc Hw] & Hm & Hr). fold g1 in Hi, Hc, Hw, Hm, Hr.
  set (l := seqZ _ _).
  destruct (view_only_fields g1 (foldl appendElement g1 l))
    as (Hi' & Hc' & Hm' & Hw' & Hr' & _); [apply appendAll_view_only|].
  unfold layout_ok, calculateMargin. simpl.
  rewrite Hi', Hc', Hm', Hw', Hr'. done.
Qed.

(** A wrapper 700 px wide has 4 columns; 10 items fill 3 rows, padded to
    [maxEnd = 11]; the initial range is [{0, min (window - 1, 11)}]. *)
Example layout_scenario :
  cols (sample_grid 10) = 4 ∧ totalRows (sample_grid 10) = 3
  ∧ maxEnd (sample_grid 10) = 11 ∧ window (sample_grid 10) = 136
  ∧ range (sample_grid 10) = mkRange 0 11
  ∧ surface_ids (sample_grid 10) = [0; 1; 2; 3; 4; 5; 6; 7; 8; 9].
Proof. vm_compute. repeat split. Qed.

(** ** The Range invariant *)

Lemma window_step_range_ok g o :
  layout_ok g → range_ok g →
  match o with ShiftRange s _ => s ≤ maxEnd g | _ => True end →
  range_ok (window_step g o).
Proof.
  intros [Hc Hw] (H0 & Hse & Hem) Ho. unfold range_ok.
  destruct (window_step_layout g o) as (_ & _ & -> & _).
  destruct o as [| |s b]; unfold window_step.
  - rewrite shiftForwards_range. cbn [start end_]. lia.
  - rewrite shiftBackwards_range. cbn [start end_]. lia.
  - rewrite shiftRange_range. cbn [start end_]. lia.
Qed.

Lemma run_range_ok ops g :
  layout_ok g → range_ok g →
  Forall (λ o, match o with ShiftRange s _ => s ≤ maxEnd g | _ => True end) ops →
  range_ok (run ops g).
Proof.
  revert g. induction ops as [|o ops IH]; intros g Hl Hr Hops; simpl; [done|].
  inversion Hops as [|? ? Ho Hrest]; subst.
  destruct (window_step_layout g o) as (_ & Hc & Hm & Hw & _).
  apply IH.
  - unfold layout_ok in *. by rewrite Hc, Hw.
  - by apply window_step_range_ok.
  - rewrite Hm. exact Hrest.
Qed.

(** C1, as amended: for every non-empty item collection, after
    [calculateLayout] and the initial materialization, every sequence of
    [shiftForwards], [shiftBackwards] and [shiftRange] calls whose
    [targetStart] is at most [maxEnd] leaves [0 <= start <= end <= maxEnd]
    ([maxEnd] itself is not changed by the calls). *)
Theorem C1_range_invariant (its : list MediaInfo.t) (width viewportHeight : N)
    (ops : list WindowOp) :
  its ≠ [] →
  let g0 := connectedCallback width viewportHeight (create its) in
  Forall (λ o, match o with ShiftRange s _ => s ≤ maxEnd g0 | _ => True end) ops →
  let g := run ops g0 in
  maxEnd g = maxEnd g0
  ∧ 0 ≤ start (range g) ∧ start (range g) ≤ end_ (range g) ∧ end_ (range g) ≤ maxEnd g.
Proof.
  intros Hne g0 Hops g.
  destruct (connectedCallback_spec width viewportHeight its) as (_ & Hl & Hm & Hr).
  fold g0 in Hl, Hm, Hr.
  split; [apply (run_layout ops g0)|].
  apply run_range_ok; [done| |done].
  unfold range_ok. rewrite Hr. cbn [start end_].
  destruct Hl as [Hc Hw]. destruct its as [|it its]; [done|].
  rewrite length_cons in Hm. lia.
Qed.

Lemma C1_range_invariant_witness :
  maxEnd (run [ShiftForwards; ShiftRange 2 true; ShiftBackwards]
              (connectedCallback 700 900 (create (sample_items 10))))
  = maxEnd (connectedCallback 700 900 (create (sample_items 10)))
  ∧ 0 ≤ start (range (run [ShiftForwards; ShiftRange 2 true; ShiftBackwards]
                        (connectedCallback 700 900 (create (sample_items 10)))))
  ∧ start (range (run [ShiftForwards; ShiftRange 2 true; ShiftBackwards]
                    (connectedCallback 700 900 (create (sample_items 10)))))
    ≤ end_ (range (run [ShiftForwards; ShiftRange 2 true; ShiftBackwards]
                     (connectedCallback 700 900 (create (sample_items 10)))))
  ∧ end_ (range (run [ShiftForwards; ShiftRange 2 true; ShiftBackwards]
                   (connectedCallback 700 900 (create (sample_items 10)))))
    ≤ maxEnd (run [ShiftForwards; ShiftRange 2 true; ShiftBackwards]
                (connectedCallback 700 900 (create (sample_items 10)))).
Proof.
  assert (Hne : sample_items 10 ≠ []) by discriminate.
  assert (Hops : Forall (λ o, match o with
                              | ShiftRange s _ =>
                                  s ≤ maxEnd (connectedCallback 700 900
                                                (create (sample_items 10)))
                              | _ => True
                              end)
                   [ShiftForwards; ShiftRange 2 true; ShiftBackwards]).
  { repeat constructor. vm_compute. discriminate. }
  exact (C1_range_invariant (sample_items 10) 700 900
           [ShiftForwards; ShiftRange 2 true; ShiftBackwards] Hne Hops).
Defined.

(** C1 as stated fails: an empty collection starts with the range [{0, -1}],
    and [shiftRange] with a [targetStart] above [maxEnd] leaves
    [start > end]. *)
Lemma C1_counterexample :
  (let g := run [] (connectedCallback 700 900 (create [])) in
   range g = mkRange 0 (-1) ∧ maxEnd g = -1
   ∧ ¬ (0 ≤ start (range g) ∧ start (range g) ≤ end_ (range g) ∧ end_ (range g) ≤ maxEnd g))
  ∧ (let g := run [ShiftRange 50 true]
                  (connectedCallback 700 900 (create (sample_items 10))) in
     range g = mkRange 50 11 ∧ maxEnd g = 11
     ∧ ¬ (0 ≤ start (range g) ∧ start (range g) ≤ end_ (range g) ∧ end_ (range g) ≤ maxEnd g)).
Proof.
  split; vm_compute; (split; [reflexivity|]); (split; [reflexivity|]);
    intros (_ & H & _); apply H; reflexivity.
Qed.

(** ** [shiftRange] *)

(** C3, as amended: for a non-empty collection ([0 <= maxEnd]) and every
    [targetStart <= maxEnd], [shiftRange] sets the new start to
    [max (targetStart, 0)], which lies in [[0, maxEnd]], and the new end to
    [min (newStart + window - 1, maxEnd)], which is
    [min (targetStart + window - 1, maxEnd)] when [0 <= targetStart]. *)
Theorem C3_shiftRange_bounds (g : ImageGrid) (targetStart : Z) (dropExisting : bool) :
  0 ≤ maxEnd g → targetStart ≤ maxEnd g →
  start (range (shiftRange targetStart dropExisting g)) = Z.max targetStart 0
  ∧ 0 ≤ start (range (shiftRange targetStart dropExisting g))
  ∧ start (range (shiftRange targetStart dropExisting g)) ≤ maxEnd g
  ∧ end_ (range (shiftRange targetStart dropExisting g))
    = Z.min (start (range (shiftRange targetStart dropExisting g)) + window g - 1)
            (maxEnd g)
  ∧ (0 ≤ targetStart →
     end_ (range (shiftRange targetStart dropExisting g))
     = Z.min (targetStart + window g - 1) (maxEnd g)).
Proof.
  intros Hm Ht. rewrite shiftRange_range. cbn [start end_].
  repeat split; lia.
Qed.

Lemma C3_shiftRange_bounds_witness :
  start (range (shiftRange 5 true (narrow_grid 40))) = 5
  ∧ end_ (range (shiftRange 5 true (narrow_grid 40)))
    = Z.min (5 + window (narrow_grid 40) - 1) (maxEnd (narrow_grid 40)).
Proof.
  assert (H1 : 0 ≤ maxEnd (narrow_grid 40)) by (vm_compute; discriminate).
  assert (H2 : 5 ≤ maxEnd (narrow_grid 40)) by (vm_compute; discriminate).
  assert (H3 : 0 ≤ 5) by lia.
  destruct (C3_shiftRange_bounds (narrow_grid 40) 5 true H1 H2)
    as (Hs & _ & _ & _ & He).
  exact (conj Hs (He H3)).
Defined.

(** C3 as stated fails: a [targetStart] above [maxEnd] is not clamped, and for
    a negative [targetStart] the end is computed from the clamped start. *)
Lemma C3_counterexample :
  (let g := connectedCallback 700 900 (create (sample_items 10)) in
   let g' := shiftRange 50 true g in
   maxEnd g = 11 ∧ start (range g') = 50 ∧ ¬ (0 ≤ start (range g') ≤ maxEnd g))
  ∧ (let g := connectedCallback 100 225 (create (sample_items 40)) in
     let g' := shiftRange (-5) true g in
     window g = 31 ∧ maxEnd g = 39 ∧ end_ (range g') = 30
     ∧ end_ (range g') ≠ Z.min (-5 + window g - 1) (maxEnd g)).
Proof.
  split; vm_compute.
  - do 2 (split; [reflexivity|]). intros [_ H]. apply H. reflexivity.
  - do 3 (split; [reflexivity|]). discriminate.
Qed.

(** ** [shiftForwards] and [shiftBackwards] *)

Lemma set_range_same g : set_range (range g) g = g.
Proof. by destruct g. Qed.

Lemma shiftForwards_at_end g :
  0 ≤ cols g → end_ (range g) = maxEnd g → shiftForwards g = calculateMargin g.
Proof.
  intros Hc He. unfold shiftForwards.
  replace (Z.min (cols g * 5) (maxEnd g - end_ (range g))) with 0 by lia.
  rewrite !Z.add_0_r.
  replace (mkRange (start (range g)) (end_ (range g))) with (range g)
    by (by destruct (range g)).
  rewrite set_range_same. unfold for_up.
  rewrite !seqZ_nil; [done| |].
  - destruct (view_only_fields (calculateMargin g) (foldl removeElement (calculateMargin g) []))
      as (_ & _ & _ & _ & -> & _); [apply removeAll_view_only|]. simpl. lia.
  - simpl. lia.
Qed.

(** C7: when [shiftForwards] is not clamped ([cols * 5 <= maxEnd - end]) and
    the [shiftBackwards] that follows it is not clamped either
    ([cols * 5 <=] the start it finds), the two calls restore the range. *)
Theorem C7_forwards_then_backwards (g : ImageGrid) :
  cols g * 5 ≤ maxEnd g - end_ (range g) →
  cols g * 5 ≤ start (range (shiftForwards g)) →
  range (shiftBackwards (shiftForwards g)) = range g.
Proof.
  intros Hf Hb. rewrite shiftBackwards_range.
  destruct (shiftForwards_layout g) as (_ & -> & _).
  rewrite shiftForwards_range in *. simpl in *.
  destruct (range g) as [s e]. simpl in *. f_equal; lia.
Qed.

Lemma C7_forwards_then_backwards_witness :
  range (shiftBackwards (shiftForwards (narrow_grid 40))) = range (narrow_grid 40).
Proof.
  assert (H1 : cols (narrow_grid 40) * 5
               ≤ maxEnd (narrow_grid 40) - end_ (range (narrow_grid 40)))
    by (vm_compute; discriminate).
  assert (H2 : cols (narrow_grid 40) * 5
               ≤ start (range (shiftForwards (narrow_grid 40))))
    by (vm_compute; discriminate).
  exact (C7_forwards_then_backwards (narrow_grid 40) H1 H2).
Defined.

(** ** Positions in the collection *)

Lemma findIndex_from_found (k : Z) (id : Z) (l : list MediaInfo.t) :
  id ∈ MediaInfo.id <$> l →
  ∃ n : nat, findIndex_from k id l = k + Z.of_nat n
             ∧ MediaInfo.id <$> l !! n = Some id.
Proof.
  revert k. induction l as [|x l IH]; intros k Hin; simpl in *.
  - by apply elem_of_nil in Hin.
  - destruct (decide (MediaInfo.id x = id)) as [Heq|Hne].
    + exists 0%nat. simpl. split; [lia | by rewrite Heq].
    + apply elem_of_cons in Hin as [Hin|Hin]; [congruence|].
      destruct (IH (k + 1) Hin) as (n & Hn & Hl).
      exists (S n). simpl. split; [lia | done].
Qed.

Lemma findIndex_found (id : Z) (l : list MediaInfo.t) :
  id ∈ MediaInfo.id <$> l →
  0 ≤ findIndex id l < Z.of_nat (length l)
  ∧ MediaInfo.id <$> item_at l (findIndex id l) = Some id.
Proof.
  intros Hin. destruct (findIndex_from_found 0 id l Hin) as (n & Hn & Hl).
  unfold findIndex, item_at. rewrite Hn, Z.add_0_l.
  assert (n < length l)%nat.
  { apply lookup_lt_is_Some. destruct (l !! n); [eauto | done]. }
  rewrite decide_True by lia. rewrite Nat2Z.id. split; [lia | done].
Qed.

Lemma findIndex_from_NoDup (k : Z) (l : list MediaInfo.t) (i : nat) (x : MediaInfo.t) :
  NoDup (MediaInfo.id <$> l) → l !! i = Some x →
  findIndex_from k (MediaInfo.id x) l = k + Z.of_nat i.
Proof.
  revert k i. induction l as [|y l IH]; intros k i Hnd Hi; [done|].
  simpl in *. apply NoDup_cons in Hnd as [Hy Hnd].
  destruct i as [|i]; simpl in Hi.
  - injection Hi as ->. rewrite decide_True by done. lia.
  - rewrite decide_False.
    + rewrite (IH (k + 1) i) by done. lia.
    + intros Heq. apply Hy. rewrite Heq.
      apply list_elem_of_fmap. exists x. split; [done|].
      by apply list_elem_of_lookup_2 with i.
Qed.

(** With pairwise distinct ids, [findIndex] returns the position of the item. *)
Lemma findIndex_NoDup (l : list MediaInfo.t) (i : nat) (x : MediaInfo.t) :
  NoDup (MediaInfo.id <$> l) → l !! i = Some x →
  findIndex (MediaInfo.id x) l = Z.of_nat i.
Proof. intros. unfold findIndex. by rewrite (findIndex_from_NoDup 0 l i x). Qed.

Lemma item_at_of_nat (l : list MediaInfo.t) (i : nat) : item_at l (Z.of_nat i) = l !! i.
Proof. unfold item_at. rewrite decide_True by lia. by rewrite Nat2Z.id. Qed.

Lemma item_at_is_Some (l : list MediaInfo.t) (i : Z) :
  0 ≤ i < Z.of_nat (length l) → is_Some (item_at l i).
Proof.
  intros Hi. unfold item_at. rewrite decide_True by lia.
  apply lookup_lt_is_Some. lia.
Qed.

(** ** Effect of the selection primitives on the selection *)

Lemma setSelected_selected i v g :
  selected (setSelected i v g)
  = Selected.mk (if v then {[i]} ∪ Selected.selected (selected g)
                 else Selected.selected (selected g) ∖ {[i]})
                (Selected.primary (selected g)).
Proof. reflexivity. Qed.

Lemma setSelected_items i v g : items (setSelected i v g) = items g.
Proof. reflexivity. Qed.

Lemma setPrimary_selected p g :
  selected (setPrimary p g) = Selected.mk (Selected.selected (selected g)) p.
Proof. unfold setPrimary. repeat case_match; reflexivity. Qed.

Lemma updateSelected_selected g : selected (updateSelected g) = selected g.
Proof. unfold updateSelected. case_match; reflexivity. Qed.

(** The last step of the [mousedown] listener does not touch the selection. *)
Lemma mousedown_finish_selected (ev : MouseEvent) (file : MediaInfo.t) (g : ImageGrid) :
  ∃ g', (if decide (button ev = 1) then Some (showFileDialog file g)
         else Some (updateSelected g)) = Some g'
        ∧ selected g' = selected g.
Proof.
  destruct (decide (button ev = 1)); eexists; split; try reflexivity.
  apply updateSelected_selected.
Qed.

(** ** Ctrl-click *)

Lemma members_after_delete (sel : gset Z) (id : Z) :
  id ∈ sel →
  (id ∈ sel ∖ {[id]} ↔ id ∉ sel)
  ∧ ∀ x, x ≠ id → x ∈ sel ∖ {[id]} ↔ x ∈ sel.
Proof.
  intros Hin. split; [|intros x Hx];
    rewrite elem_of_difference, elem_of_singleton; tauto.
Qed.

Lemma members_after_add (sel : gset Z) (id : Z) :
  id ∉ sel →
  (id ∈ {[id]} ∪ sel ↔ id ∉ sel)
  ∧ ∀ x, x ≠ id → x ∈ {[id]} ∪ sel ↔ x ∈ sel.
Proof.
  intros Hout. split; [|intros x Hx];
    rewrite elem_of_union, elem_of_singleton; tauto.
Qed.

(** C4, as amended: a ctrl-click on an element, [id] being the id the
    listener reads from it, flips the membership of [id] in the selected set
    and of no other id; when [id] was not selected it becomes the primary;
    when it was selected, the primary becomes null if it was [id] and is
    unchanged otherwise. *)
Theorem C4_ctrl_click_toggle (g : ImageGrid) (ev : MouseEvent) (file : MediaInfo.t) :
  ctrlKey ev = true →
  shiftKey ev = false ∨ Selected.primary (selected g) = None →
  button ev ≠ 3 → button ev ≠ 4 →
  let id := parseInt_id (MediaInfo.id file) in
  ∃ g', mousedown ev file g = Some g'
    ∧ (id ∈ Selected.selected (selected g') ↔ id ∉ Selected.selected (selected g))
    ∧ (∀ x, x ≠ id →
         x ∈ Selected.selected (selected g') ↔ x ∈ Selected.selected (selected g))
    ∧ (id ∉ Selected.selected (selected g) →
         Selected.primary (selected g') = Some id)
    ∧ (id ∈ Selected.selected (selected g) →
         Selected.primary (selected g')
         = if decide (Selected.primary (selected g) = Some id) then None
           else Selected.primary (selected g)).
Proof.
  intros Hctrl Hshift H3 H4 id. unfold mousedown.
  rewrite decide_False by (intros [?|?]; done).
  replace (if shiftKey ev then Selected.primary (selected g) else None)
    with (@None Z) by (destruct Hshift as [-> | ->]; [done | by destruct (shiftKey ev)]).
  rewrite Hctrl. cbn [mbind option_bind]. fold id. unfold ctrlClickBranch.
  destruct (decide (id ∈ Selected.selected (selected g))) as [Hin|Hout].
  - destruct (members_after_delete _ id Hin) as [Hflip Hothers].
    cbv zeta. rewrite setSelected_selected. cbn [Selected.primary].
    destruct (decide (Selected.primary (selected g) = Some id)) as [Hp|Hp].
    + destruct (mousedown_finish_selected ev file
                  (setPrimary None (setSelected id false g))) as (g' & -> & Hs).
      exists g'. split; [done|].
      rewrite Hs, setPrimary_selected, setSelected_selected.
      cbn [Selected.selected Selected.primary].
      split; [exact Hflip|]. split; [exact Hothers|]. split; [intros; done|].
      intros _. done.
    + destruct (mousedown_finish_selected ev file (setSelected id false g))
        as (g' & -> & Hs).
      exists g'. split; [done|].
      rewrite Hs, setSelected_selected. cbn [Selected.selected Selected.primary].
      split; [exact Hflip|]. split; [exact Hothers|]. split; [intros; done|].
      intros _. done.
  - destruct (members_after_add _ id Hout) as [Hflip Hothers].
    destruct (mousedown_finish_selected ev file
                (setPrimary (Some id) (setSelected id true g))) as (g' & -> & Hs).
    exists g'. split; [done|].
    rewrite Hs, setPrimary_selected, setSelected_selected.
    cbn [Selected.selected Selected.primary].
    split; [exact Hflip|]. split; [exact Hothers|]. split; [done|].
    intros; done.
Qed.

Lemma C4_ctrl_click_toggle_witness :
  ∃ g', mousedown (mkMouse 0 false true) (sample_file 7) (sample_grid 10) = Some g'
    ∧ (parseInt_id (MediaInfo.id (sample_file 7)) ∈ Selected.selected (selected g')
       ↔ parseInt_id (MediaInfo.id (sample_file 7)) ∉ Selected.selected (selected (sample_grid 10)))
    ∧ (∀ x, x ≠ parseInt_id (MediaInfo.id (sample_file 7)) →
         x ∈ Selected.selected (selected g')
         ↔ x ∈ Selected.selected (selected (sample_grid 10)))
    ∧ (parseInt_id (MediaInfo.id (sample_file 7)) ∉ Selected.selected (selected (sample_grid 10)) →
         Selected.primary (selected g') = Some (parseInt_id (MediaInfo.id (sample_file 7))))
    ∧ (parseInt_id (MediaInfo.id (sample_file 7)) ∈ Selected.selected (selected (sample_grid 10)) →
         Selected.primary (selected g')
         = if decide (Selected.primary (selected (sample_grid 10))
                      = Some (parseInt_id (MediaInfo.id (sample_file 7))))
           then None
           else Selected.primary (selected (sample_grid 10))).
Proof.
  assert (H1 : ctrlKey (mkMouse 0 false true) = true) by reflexivity.
  assert (H2 : shiftKey (mkMouse 0 false true) = false
               ∨ Selected.primary (selected (sample_grid 10)) = None)
    by (left; reflexivity).
  assert (H3 : button (mkMouse 0 false true) ≠ 3) by discriminate.
  assert (H4 : button (mkMouse 0 false true) ≠ 4) by discriminate.
  exact (C4_ctrl_click_toggle (sample_grid 10) (mkMouse 0 false true) (sample_file 7)
           H1 H2 H3 H4).
Defined.

(** C4 as stated fails: from the empty selection, a ctrl-click on the element
    of id 7 selects 7 and also makes it the primary. *)
Lemma C4_counterexample :
  Selected.selected (selected (sample_grid 10)) = ∅
  ∧ Selected.primary (selected (sample_grid 10)) = None
  ∧ ∃ g', mousedown (mkMouse 0 false true) (sample_file 7) (sample_grid 10) = Some g'
          ∧ Selected.selected (selected g') = {[7]}
          ∧ Selected.primary (selected g') = Some 7
          ∧ Selected.primary (selected g') ≠ Selected.primary (selected (sample_grid 10)).
Proof.
  split; [reflexivity|]. split; [reflexivity|].
  eexists. split; [vm_compute; reflexivity|].
  split; [|split]; vm_compute; (reflexivity || discriminate).
Qed.

(** A second ctrl-click on 7, now selected and primary, empties the selection
    and resets the primary. *)
Example ctrl_click_twice :
  ∃ g1 g2,
    mousedown (mkMouse 0 false true) (sample_file 7) (sample_grid 10) = Some g1
    ∧ mousedown (mkMouse 0 false true) (sample_file 7) g1 = Some g2
    ∧ Selected.selected (selected g2) = ∅
    ∧ Selected.primary (selected g2) = None
    ∧ selectedText g1 = "1 item selected"
    ∧ selectedText g2 = "No items selected".
Proof.
  eexists. eexists. split; [vm_compute; reflexivity|].
  split; [vm_compute; reflexivity|]. vm_compute. repeat split.
Qed.

(** ** Shift-click *)

(** The selection loop over in-bounds positions adds the ids at those
    positions, and nothing else. *)
Lemma select_positions (l : list Z) (g : ImageGrid) :
  (∀ i, i ∈ l → is_Some (item_at (items g) i)) →
  ∃ g', foldl (λ r i, g0 ← r; it ← item_at (items g0) i;
                      Some (setSelected (MediaInfo.id it) true g0)) (Some g) l
        = Some g'
    ∧ items g' = items g
    ∧ Selected.primary (selected g') = Selected.primary (selected g)
    ∧ ∀ x, x ∈ Selected.selected (selected g') ↔
           x ∈ Selected.selected (selected g)
           ∨ ∃ i it, i ∈ l ∧ item_at (items g) i = Some it ∧ MediaInfo.id it = x.
Proof.
  revert g. induction l as [|i l IH]; intros g Hb; simpl.
  - exists g. repeat split; [tauto|]. intros [?|(i & it & Hi & _)]; [done|].
    by apply elem_of_nil in Hi.
  - destruct (Hb i) as [it Hit]; [left|]. rewrite Hit. simpl.
    destruct (IH (setSelected (MediaInfo.id it) true g)) as (g' & Hrun & Hi & Hp & Hs).
    { intros j Hj. rewrite setSelected_items. apply Hb. by right. }
    exists g'. split; [exact Hrun|]. split; [by rewrite Hi|]. split; [by rewrite Hp|].
    intros x. rewrite Hs, setSelected_selected, setSelected_items. simpl.
    rewrite elem_of_union, elem_of_singleton. split.
    + intros [[->|Hx]|(j & jt & Hj & Hjt & Hid)].
      * right. exists i, it. split; [left|done].
      * by left.
      * right. exists j, jt. split; [by right|done].
    + intros [Hx|(j & jt & Hj & Hjt & Hid)]; [by left; right|].
      apply elem_of_cons in Hj as [->|Hj].
      * left. left. congruence.
      * right. exists j, jt. done.
Qed.

(** C8, as amended: a shift-click on an element while [a] is the primary,
    [b] being the id the listener reads from the element and both ids being
    in the collection, resolves [a] and [b] to their positions [pa] and [pb]
    in [items] and adds to the selected set exactly the ids of the items at
    the positions [min pa pb .. max pa pb] (whatever the order of [pa] and
    [pb], and whatever is materialized); the ids selected before stay
    selected, so the selection is exactly the interval when no other id than
    the anchor was selected; [b] becomes the primary. *)
Theorem C8_shift_click_range (g : ImageGrid) (ev : MouseEvent) (file : MediaInfo.t) (a : Z) :
  let b := parseInt_id (MediaInfo.id file) in
  let pa := findIndex a (items g) in
  let pb := findIndex b (items g) in
  shiftKey ev = true → button ev ≠ 3 → button ev ≠ 4 →
  Selected.primary (selected g) = Some a →
  a ∈ MediaInfo.id <$> items g →
  b ∈ MediaInfo.id <$> items g →
  MediaInfo.id <$> item_at (items g) pa = Some a
  ∧ MediaInfo.id <$> item_at (items g) pb = Some b
  ∧ ∃ g', mousedown ev file g = Some g'
      ∧ (∀ x, x ∈ Selected.selected (selected g') ↔
              x ∈ Selected.selected (selected g)
              ∨ ∃ i it, Z.min pa pb ≤ i ≤ Z.max pa pb
                        ∧ item_at (items g) i = Some it ∧ MediaInfo.id it = x)
      ∧ ((∀ x, x ∈ Selected.selected (selected g) → x = a) →
         ∀ x, x ∈ Selected.selected (selected g') ↔
              ∃ i it, Z.min pa pb ≤ i ≤ Z.max pa pb
                      ∧ item_at (items g) i = Some it ∧ MediaInfo.id it = x)
      ∧ Selected.primary (selected g') = Some b.
Proof.
  intros b pa pb Hshift H3 H4 Hprim Ha Hb.
  destruct (findIndex_found a (items g) Ha) as [Hpa Hia].
  destruct (findIndex_found b (items g) Hb) as [Hpb Hib].
  fold pa in Hpa, Hia. fold pb in Hpb, Hib.
  split; [exact Hia|]. split; [exact Hib|].
  unfold mousedown. rewrite decide_False by (intros [?|?]; done).
  rewrite Hshift, Hprim. fold b. cbv beta iota zeta. unfold shiftClickBranch. fold pa pb.
  assert (Hloop : ∃ g1,
    (let '(startPosition, endPosition) :=
       if decide (pa > pb) then (pb, pa) else (pa, pb) in
     for_up_throw startPosition endPosition
       (λ g0 i, it ← item_at (items g0) i;
                Some (setSelected (MediaInfo.id it) true g0)) g
     ≫= λ g0, Some (setPrimary (Some b) g0)) = Some (setPrimary (Some b) g1)
    ∧ Selected.primary (selected g1) = Selected.primary (selected g)
    ∧ ∀ x, x ∈ Selected.selected (selected g1) ↔
           x ∈ Selected.selected (selected g)
           ∨ ∃ i it, Z.min pa pb ≤ i ≤ Z.max pa pb
                     ∧ item_at (items g) i = Some it ∧ MediaInfo.id it = x).
  { destruct (select_positions (seqZ (Z.min pa pb) (Z.max pa pb + 1 - Z.min pa pb)) g)
      as (g1 & Hrun & _ & Hp & Hs).
    { intros i Hi. apply elem_of_seqZ in Hi. apply item_at_is_Some. lia. }
    exists g1. split; [|split; [exact Hp|]].
    - destruct (decide (pa > pb)); unfold for_up_throw.
      + replace pb with (Z.min pa pb) at 1 by lia.
        replace (pa + 1 - pb) with (Z.max pa pb + 1 - Z.min pa pb) by lia.
        by rewrite Hrun.
      + replace pa with (Z.min pa pb) at 1 by lia.
        replace (pb + 1 - pa) with (Z.max pa pb + 1 - Z.min pa pb) by lia.
        by rewrite Hrun.
    - intros x. rewrite Hs. split; (intros [?|(i & it & Hi & Hit & Hid)]; [by left|]);
        right; exists i, it; (split; [|done]).
      + apply elem_of_seqZ in Hi. lia.
      + apply elem_of_seqZ. lia. }
  destruct Hloop as (g1 & -> & Hp & Hs). cbn [mbind option_bind].
  destruct (mousedown_finish_selected ev file (setPrimary (Some b) g1))
    as (g' & -> & Hsel).
  exists g'. split; [done|]. rewrite Hsel, setPrimary_selected.
  cbn [Selected.selected Selected.primary].
  split; [exact Hs|]. split; [|done].
  intros Honly x. rewrite Hs. split; [|by right].
  intros [Hx|Hx]; [|exact Hx].
  apply Honly in Hx as ->.
  destruct (item_at (items g) pa) as [it|] eqn:Hit; [|done].
  injection Hia as Hid. exists pa, it. split; [lia|done].
Qed.

Lemma C8_shift_click_range_witness :
  MediaInfo.id <$> item_at (items two_selected_grid) (findIndex 9 (items two_selected_grid))
  = Some 9
  ∧ MediaInfo.id <$> item_at (items two_selected_grid)
                       (findIndex (parseInt_id (MediaInfo.id (sample_file 5)))
                                  (items two_selected_grid))
    = Some (parseInt_id (MediaInfo.id (sample_file 5)))
  ∧ ∃ g', mousedown (mkMouse 0 true false) (sample_file 5) two_selected_grid = Some g'
      ∧ (∀ x, x ∈ Selected.selected (selected g') ↔
              x ∈ Selected.selected (selected two_selected_grid)
              ∨ ∃ i it,
                  Z.min (findIndex 9 (items two_selected_grid))
                        (findIndex (parseInt_id (MediaInfo.id (sample_file 5)))
                                   (items two_selected_grid))
                  ≤ i
                  ≤ Z.max (findIndex 9 (items two_selected_grid))
                          (findIndex (parseInt_id (MediaInfo.id (sample_file 5)))
                                     (items two_selected_grid))
                  ∧ item_at (items two_selected_grid) i = Some it ∧ MediaInfo.id it = x)
      ∧ ((∀ x, x ∈ Selected.selected (selected two_selected_grid) → x = 9) →
         ∀ x, x ∈ Selected.selected (selected g') ↔
              ∃ i it,
                Z.min (findIndex 9 (items two_selected_grid))
                      (findIndex (parseInt_id (MediaInfo.id (sample_file 5)))
                                 (items two_selected_grid))
                ≤ i
                ≤ Z.max (findIndex 9 (items two_selected_grid))
                        (findIndex (parseInt_id (MediaInfo.id (sample_file 5)))
                                   (items two_selected_grid))
                ∧ item_at (items two_selected_grid) i = Some it ∧ MediaInfo.id it = x)
      ∧ Selected.primary (selected g') = Some (parseInt_id (MediaInfo.id (sample_file 5))).
Proof.
  assert (H1 : shiftKey (mkMouse 0 true false) = true) by reflexivity.
  assert (H3 : button (mkMouse 0 true false) ≠ 3) by discriminate.
  assert (H4 : button (mkMouse 0 true false) ≠ 4) by discriminate.
  assert (Hp : Selected.primary (selected two_selected_grid) = Some 9)
    by (unfold two_selected_grid; by rewrite setPrimary_selected).
  assert (Ha : 9 ∈ MediaInfo.id <$> items two_selected_grid)
    by (vm_compute; repeat first [by left | right]).
  assert (Hb : parseInt_id (MediaInfo.id (sample_file 5))
               ∈ MediaInfo.id <$> items two_selected_grid)
    by (vm_compute; repeat first [by left | right]).
  exact (C8_shift_click_range two_selected_grid (mkMouse 0 true false) (sample_file 5) 9
           H1 H3 H4 Hp Ha Hb).
Defined.

(** C8 as stated fails: with 0 and 9 selected and 9 the primary, a
    shift-click on the element of id 5 leaves 0 selected, although its
    position lies outside the interval of the positions 5 .. 9. *)
Lemma C8_counterexample :
  Selected.primary (selected two_selected_grid) = Some 9
  ∧ findIndex 9 (items two_selected_grid) = 9
  ∧ findIndex 5 (items two_selected_grid) = 5
  ∧ findIndex 0 (items two_selected_grid) = 0
  ∧ ∃ g', mousedown (mkMouse 0 true false) (sample_file 5) two_selected_grid = Some g'
          ∧ elements (Selected.selected (selected g')) ≡ₚ [0; 5; 6; 7; 8; 9]
          ∧ 0 ∈ Selected.selected (selected g').
Proof.
  split; [unfold two_selected_grid; by rewrite setPrimary_selected|].
  split; [vm_compute; reflexivity|]. split; [vm_compute; reflexivity|].
  split; [vm_compute; reflexivity|].
  eexists. split; [vm_compute; reflexivity|].
  split; [|apply (bool_decide_unpack _); vm_compute; exact I].
  apply (bool_decide_unpack _). vm_compute. exact I.
Qed.

(** ** Selection summary *)

(** C9, as amended: after [updateSelected] the summary reads
    ["No items selected"] (capital N) for an empty selection,
    ["1 item selected"] for one selected id, and [n] in decimal followed by
    [" items selected"] for [n > 1] selected ids. *)
Theorem C9_selection_summary (g : ImageGrid) :
  selectedText (updateSelected g)
  = match size (Selected.selected (selected g)) with
    | 0%nat => "No items selected"
    | 1%nat => "1 item selected"
    | n => pretty n +:+ " items selected"
    end.
Proof.
  unfold updateSelected.
  destruct (size (Selected.selected (selected g))) as [|[|n]]; simpl; try reflexivity.
Qed.

(** C9 as stated fails on the capital letter of the empty summary. *)
Lemma C9_counterexample :
  size (Selected.selected (selected (sample_grid 10))) = 0%nat
  ∧ selectedText (updateSelected (sample_grid 10)) = "No items selected"
  ∧ selectedText (updateSelected (sample_grid 10)) ≠ "no items selected".
Proof. vm_compute. repeat split; discriminate. Qed.

(** ** Dialog navigation *)

Lemma changeFileDialog_fields (f : MediaInfo.t) (g : ImageGrid) :
  dialogFile (changeFileDialog f g) = Some f
  ∧ fileView (changeFileDialog f g) = Some (MediaInfo.file_type f, MediaInfo.id f)
  ∧ selected (changeFileDialog f g) = selected g
  ∧ selectedText (changeFileDialog f g) = selectedText g
  ∧ itemsNode (changeFileDialog f g) = itemsNode g
  ∧ range (changeFileDialog f g) = range g
  ∧ items (changeFileDialog f g) = items g
  ∧ dialogOpen (changeFileDialog f g) = dialogOpen g.
Proof. by repeat split. Qed.

(** C10, as amended: while the dialog shows the item [current] at position
    [i] of a collection with pairwise distinct ids, [ArrowRight] changes the
    dialog to the item at position [i + 1] and [ArrowLeft] to the item at
    position [i - 1]: that item becomes the dialog's file and the source of
    its view, while the dialog stays open and the materialized window and
    its elements are not touched; [ArrowRight] at the last position and
    [ArrowLeft] at the first leave the grid as it is. *)
Theorem C10_dialog_arrows (g : ImageGrid) (i : nat) (current : MediaInfo.t) :
  NoDup (MediaInfo.id <$> items g) →
  items g !! i = Some current →
  dialogFile g = Some current →
  (∀ next, items g !! S i = Some next →
     ∃ g', keydownDialog ArrowRight g = Some g'
       ∧ dialogFile g' = Some next
       ∧ fileView g' = Some (MediaInfo.file_type next, MediaInfo.id next)
       ∧ dialogOpen g' = dialogOpen g
       ∧ range g' = range g ∧ itemsNode g' = itemsNode g ∧ items g' = items g)
  ∧ (S i = length (items g) → keydownDialog ArrowRight g = Some g)
  ∧ (∀ j previous, i = S j → items g !! j = Some previous →
       ∃ g', keydownDialog ArrowLeft g = Some g'
         ∧ dialogFile g' = Some previous
         ∧ fileView g' = Some (MediaInfo.file_type previous, MediaInfo.id previous)
         ∧ dialogOpen g' = dialogOpen g
         ∧ range g' = range g ∧ itemsNode g' = itemsNode g ∧ items g' = items g)
  ∧ (i = 0%nat → keydownDialog ArrowLeft g = Some g).
Proof.
  intros Hnd Hi Hd.
  assert (Hidx : findIndex (MediaInfo.id current) (items g) = Z.of_nat i)
    by by apply findIndex_NoDup.
  assert (Hlen : (i < length (items g))%nat) by (apply lookup_lt_is_Some; eauto).
  assert (Hchange : ∀ f, ∃ g', Some (changeFileDialog f g) = Some g'
             ∧ dialogFile g' = Some f
             ∧ fileView g' = Some (MediaInfo.file_type f, MediaInfo.id f)
             ∧ dialogOpen g' = dialogOpen g
             ∧ range g' = range g ∧ itemsNode g' = itemsNode g ∧ items g' = items g).
  { intros f. exists (changeFileDialog f g). split; [done|].
    destruct (changeFileDialog_fields f g) as (H1 & H2 & _ & _ & H5 & H6 & H7 & H8).
    done. }
  unfold keydownDialog. rewrite Hd, Hidx. unfold length_items.
  split; [|split; [|split]].
  - intros next Hn.
    assert (S i < length (items g))%nat by (apply lookup_lt_is_Some; eauto).
    rewrite decide_True by lia.
    replace (Z.of_nat i + 1) with (Z.of_nat (S i)) by lia.
    rewrite item_at_of_nat, Hn. apply Hchange.
  - intros Hlast. rewrite decide_False by lia. done.
  - intros j previous -> Hj.
    rewrite decide_True by lia.
    replace (Z.of_nat (S j) - 1) with (Z.of_nat j) by lia.
    rewrite item_at_of_nat, Hj. apply Hchange.
  - intros ->. rewrite decide_False by lia. done.
Qed.

Lemma C10_dialog_arrows_witness :
  (∃ g', keydownDialog ArrowRight dialog_grid = Some g'
     ∧ dialogFile g' = Some (sample_file 4)
     ∧ fileView g'
       = Some (MediaInfo.file_type (sample_file 4), MediaInfo.id (sample_file 4))
     ∧ dialogOpen g' = dialogOpen dialog_grid
     ∧ range g' = range dialog_grid ∧ itemsNode g' = itemsNode dialog_grid
     ∧ items g' = items dialog_grid)
  ∧ (∃ g', keydownDialog ArrowLeft dialog_grid = Some g'
       ∧ dialogFile g' = Some (sample_file 2)
       ∧ fileView g'
         = Some (MediaInfo.file_type (sample_file 2), MediaInfo.id (sample_file 2))
       ∧ dialogOpen g' = dialogOpen dialog_grid
       ∧ range g' = range dialog_grid ∧ itemsNode g' = itemsNode dialog_grid
       ∧ items g' = items dialog_grid).
Proof.
  assert (Hnd : NoDup (MediaInfo.id <$> items dialog_grid))
    by (apply (bool_decide_unpack _); vm_compute; exact I).
  assert (Hi : items dialog_grid !! 3%nat = Some (sample_file 3)) by reflexivity.
  assert (Hd : dialogFile dialog_grid = Some (sample_file 3)) by reflexivity.
  assert (Hn : items dialog_grid !! 4%nat = Some (sample_file 4)) by reflexivity.
  assert (Hp : items dialog_grid !! 2%nat = Some (sample_file 2)) by reflexivity.
  destruct (C10_dialog_arrows dialog_grid 3 (sample_file 3) Hnd Hi Hd)
    as (HR & _ & HL & _).
  exact (conj (HR (sample_file 4) Hn) (HL 2%nat (sample_file 2) eq_refl Hp)).
Defined.

(** C10 as stated fails when two items share an id: with the items of ids
    1, 2, 1 and the dialog on the last one, [findIndex] finds the first item;
    [ArrowRight], at the last position, changes the dialog to the item at
    position 1, and [ArrowLeft] does nothing. *)
Lemma C10_counterexample :
  items dup_dialog_grid !! 2%nat = Some (MediaInfo.mk 1 "c" image)
  ∧ length (items dup_dialog_grid) = 3%nat
  ∧ dialogFile dup_dialog_grid = Some (MediaInfo.mk 1 "c" image)
  ∧ keydownDialog ArrowRight dup_dialog_grid
    = Some (changeFileDialog (MediaInfo.mk 2 "b" image) dup_dialog_grid)
  ∧ items dup_dialog_grid !! 1%nat = Some (MediaInfo.mk 2 "b" image)
  ∧ dialogFile (changeFileDialog (MediaInfo.mk 2 "b" image) dup_dialog_grid)
    ≠ dialogFile dup_dialog_grid
  ∧ keydownDialog ArrowLeft dup_dialog_grid = Some dup_dialog_grid.
Proof.
  split; [reflexivity|]. split; [reflexivity|]. split; [reflexivity|].
  split; [reflexivity|]. split; [reflexivity|]. split; [discriminate|]. reflexivity.
Qed.

(** ** Reconciliation loops *)

Lemma calculateMargin_fields g :
  items (calculateMargin g) = items g ∧ cols (calculateMargin g) = cols g
  ∧ maxEnd (calculateMargin g) = maxEnd g ∧ range (calculateMargin g) = range g.
Proof. by destruct g. Qed.

(** The backward loop leaves after at most [start] rounds: every round with
    [start > 0] and [cols >= 1] lowers [start]. *)
Lemma startSentinelLoop_terminates (far : ImageGrid → bool) (fuel : nat) (g : ImageGrid) :
  1 ≤ cols g → start (range g) ≤ Z.of_nat fuel →
  ∃ g', startSentinelLoop (S fuel) far g = Some g'.
Proof.
  revert g. induction fuel as [|fuel IH]; intros g Hc Hs.
  - simpl. rewrite decide_False by lia. eauto.
  - change (startSentinelLoop (S (S fuel)) far g)
      with (if decide (start (range g) > 0)
            then (if far (shiftBackwards g) then Some (shiftBackwards g)
                  else startSentinelLoop (S fuel) far (shiftBackwards g))
            else Some g).
    destruct (decide (start (range g) > 0)) as [Hpos|]; [|eauto].
    destruct (far (shiftBackwards g)); [eauto|].
    apply IH.
    + destruct (shiftBackwards_layout g) as (_ & -> & _). done.
    + rewrite shiftBackwards_range. cbn [start]. lia.
Qed.

(** The forward loop tests [end <= items.length - 1], not [end < maxEnd]: at
    [end = maxEnd = items.length - 1] a round changes nothing, and the loop is
    left only if the sentinel reading says so. *)
Lemma endSentinelLoop_stuck (far : ImageGrid → bool) (fuel : nat) (g : ImageGrid) :
  0 ≤ cols g → end_ (range g) = maxEnd g → maxEnd g = length_items g - 1 →
  (∀ g', far g' = false) →
  endSentinelLoop fuel far g = None.
Proof.
  intros Hc He Hm Hfar. revert g Hc He Hm.
  induction fuel as [|fuel IH]; intros g Hc He Hm; [done|]. simpl.
  rewrite decide_True by lia. rewrite Hfar.
  rewrite shiftForwards_at_end by done.
  destruct (calculateMargin_fields g) as (Hi & Hcols & Hmax & Hr).
  apply IH.
  - by rewrite Hcols.
  - by rewrite Hr, Hmax.
  - unfold length_items. by rewrite Hmax, Hi.
Qed.

(** C6 fails on the forward loop: with 8 items in 4 columns the initial range
    is [{0, 7}] and [maxEnd = 7 = items.length - 1]; when the end sentinel is
    intersecting and stays within the threshold (the whole grid fits in the
    viewport), the loop is never left, whatever the number of rounds. *)
Theorem C6_end_sentinel_loop_never_exits :
  let g := connectedCallback 700 900 (create (sample_items 8)) in
  range g = mkRange 0 7 ∧ maxEnd g = 7 ∧ length_items g = 8
  ∧ ∀ fuel, endSentinelLoop fuel (λ _, false) g = None.
Proof.
  simpl. split; [reflexivity|]. split; [reflexivity|]. split; [reflexivity|].
  intros fuel. apply endSentinelLoop_stuck; [| | |done]; vm_compute;
    (reflexivity || discriminate).
Qed.

(** When the last row is padded ([items.length - 1 < maxEnd]) the forward loop
    does leave: every round with [end <= items.length - 1] raises [end]. *)
Lemma endSentinelLoop_terminates_padded (far : ImageGrid → bool) (fuel : nat) (g : ImageGrid) :
  1 ≤ cols g → length_items g - 1 < maxEnd g →
  length_items g - end_ (range g) ≤ Z.of_nat fuel →
  ∃ g', endSentinelLoop (S fuel) far g = Some g'.
Proof.
  revert g. induction fuel as [|fuel IH]; intros g Hc Hm Hf.
  - simpl. rewrite decide_False by lia. eauto.
  - change (endSentinelLoop (S (S fuel)) far g)
      with (if decide (end_ (range g) ≤ length_items g - 1)
            then (if far (shiftForwards g) then Some (shiftForwards g)
                  else endSentinelLoop (S fuel) far (shiftForwards g))
            else Some g).
    destruct (decide (end_ (range g) ≤ length_items g - 1)); [|eauto].
    destruct (far (shiftForwards g)); [eauto|].
    destruct (shiftForwards_layout g) as (Hi & Hcols & Hmax & _).
    apply IH.
    + by rewrite Hcols.
    + unfold length_items. by rewrite Hi, Hmax.
    + unfold length_items. rewrite Hi, shiftForwards_range. cbn [end_].
      unfold length_items in *. lia.
Qed.

(** [adjustRange] schedules its follow-up only while a boundary has not been
    reached on a side whose sentinel is within the threshold. *)
Lemma adjustRange_follow_up (r : Readings) (b : bool) (g : ImageGrid) :
  snd (adjustRange r b g) = true ↔
  (start (range g) > 0 ∧ ¬ (startBottom r <= inject_Z (-1000))%Q)
  ∨ (end_ (range g) < maxEnd g ∧ ¬ (inject_Z (innerHeight r + 1000) <= endTop r)%Q).
Proof.
  unfold adjustRange. destruct (adjustRange_guard r g) eqn:Hg; simpl.
  - split; [intros _|done]. unfold adjustRange_guard in Hg.
    apply orb_true_iff in Hg as [Hg|Hg]; apply andb_true_iff in Hg as [H1 H2];
      apply bool_decide_eq_true in H1; apply negb_true_iff in H2;
      [left|right]; (split; [done|]); rewrite <- Qle_bool_iff; by rewrite H2.
  - split; [done|]. intros Hor. exfalso. unfold adjustRange_guard in Hg.
    apply orb_false_iff in Hg as [G1 G2].
    apply andb_false_iff in G1. apply andb_false_iff in G2.
    destruct Hor as [[H1 H2]|[H1 H2]].
    + destruct G1 as [G|G].
      * apply bool_decide_eq_false in G. done.
      * apply negb_false_iff in G. apply H2. by apply Qle_bool_iff.
    + destruct G2 as [G|G].
      * apply bool_decide_eq_false in G. done.
      * apply negb_false_iff in G. apply H2. by apply Qle_bool_iff.
Qed.

(** ** The ids between two indices *)

Section Ids.
Variable its : list MediaInfo.t.
Hypothesis distinct : NoDup (MediaInfo.id <$> its).

Lemma ids_between_nil lo hi : hi < lo → ids_between its lo hi = [].
Proof. intros H. unfold ids_between. by rewrite seqZ_nil by lia. Qed.

Lemma ids_between_cons lo hi :
  lo ≤ hi → ids_between its lo hi = id_at its lo ++ ids_between its (lo + 1) hi.
Proof.
  intros H. unfold ids_between. rewrite seqZ_cons by lia. rewrite bind_cons.
  do 2 f_equal. f_equal; lia.
Qed.

Lemma ids_between_snoc lo hi :
  lo ≤ hi → ids_between its lo hi = ids_between its lo (hi - 1) ++ id_at its hi.
Proof.
  intros H. unfold ids_between.
  replace (hi + 1 - lo) with ((hi - 1 + 1 - lo) + 1) by lia.
  rewrite seqZ_app by lia. rewrite bind_app. f_equal.
  replace (lo + (hi - 1 + 1 - lo)) with hi by lia.
  rewrite seqZ_cons by lia. rewrite seqZ_nil by lia.
  rewrite bind_cons. simpl. by rewrite app_nil_r.
Qed.

Lemma elem_of_id_at x i :
  x ∈ id_at its i ↔ ∃ file, item_at its i = Some file ∧ MediaInfo.id file = x.
Proof.
  unfold id_at. destruct (item_at its i) as [file|]; split.
  - intros Hx. apply list_elem_of_singleton in Hx. eauto.
  - intros (f & Hf & <-). injection Hf as ->. by apply list_elem_of_singleton.
  - intros Hx. by apply elem_of_nil in Hx.
  - intros (f & Hf & _). done.
Qed.

Lemma elem_of_ids_between x lo hi :
  x ∈ ids_between its lo hi ↔
  ∃ i file, lo ≤ i ≤ hi ∧ item_at its i = Some file ∧ MediaInfo.id file = x.
Proof.
  unfold ids_between. rewrite list_elem_of_bind. split.
  - intros (i & Hx & Hi). apply elem_of_seqZ in Hi.
    apply elem_of_id_at in Hx as (file & Hf & Hid).
    exists i, file. split; [lia | done].
  - intros (i & file & Hi & Hf & Hid). exists i. split.
    + apply elem_of_id_at. eauto.
    + apply elem_of_seqZ. lia.
Qed.

(** Distinct ids: an id is at one index only. *)
Lemma item_at_inj i j fi fj :
  item_at its i = Some fi → item_at its j = Some fj →
  MediaInfo.id fi = MediaInfo.id fj → i = j.
Proof using distinct.
  unfold item_at. intros Hi Hj Hid.
  destruct (decide (0 ≤ i)); [|done]. destruct (decide (0 ≤ j)); [|done].
  assert (Z.to_nat i = Z.to_nat j); [|lia].
  apply (NoDup_lookup (MediaInfo.id <$> its) _ _ (MediaInfo.id fi)); [done| |].
  - by rewrite list_lookup_fmap, Hi.
  - by rewrite list_lookup_fmap, Hj, Hid.
Qed.

Lemma NoDup_id_at i : NoDup (id_at its i).
Proof.
  unfold id_at. destruct (item_at its i); [apply NoDup_singleton | apply NoDup_nil_2].
Qed.

Lemma NoDup_ids_between_nat (n : nat) lo hi :
  hi + 1 - lo ≤ Z.of_nat n → NoDup (ids_between its lo hi).
Proof using distinct.
  revert lo. induction n as [|n IH]; intros lo Hn.
  - rewrite ids_between_nil by lia. apply NoDup_nil_2.
  - destruct (decide (lo ≤ hi)) as [Hle|Hgt].
    + rewrite ids_between_cons by done. apply NoDup_app.
      split; [apply NoDup_id_at|]. split; [|apply IH; lia].
      intros x Hx Hx'. apply elem_of_id_at in Hx as (fi & Hfi & Hid).
      apply elem_of_ids_between in Hx' as (j & fj & Hj & Hfj & Hid').
      assert (lo = j); [|lia].
      apply (item_at_inj lo j fi fj); congruence.
    + rewrite ids_between_nil by lia. apply NoDup_nil_2.
Qed.

Lemma NoDup_ids_between lo hi : NoDup (ids_between its lo hi).
Proof using distinct.
  apply (NoDup_ids_between_nat (Z.to_nat (hi + 1 - lo))). lia.
Qed.

(** ** Single calls on a surface that holds the items between two indices *)

Lemma delete_first_head x l : delete_first x (x :: l) = l.
Proof. simpl. by rewrite decide_True. Qed.

Lemma delete_first_last x l : x ∉ l → delete_first x (l ++ [x]) = l.
Proof.
  induction l as [|y l IH]; intros Hx; simpl.
  - by rewrite decide_True.
  - apply not_elem_of_cons in Hx as [Hne Hx].
    rewrite decide_False by done. by rewrite IH.
Qed.

Lemma remove_front lo hi :
  lo ≤ hi →
  replay_call its (ids_between its lo hi) (Removed lo) = ids_between its (lo + 1) hi.
Proof.
  intros H. rewrite ids_between_cons by done. unfold id_at. simpl.
  destruct (item_at its lo); [apply delete_first_head | done].
Qed.

Lemma remove_back lo hi :
  lo ≤ hi →
  replay_call its (ids_between its lo hi) (Removed hi) = ids_between its lo (hi - 1).
Proof using distinct.
  intros H. rewrite ids_between_snoc by done. unfold id_at. simpl.
  destruct (item_at its hi) as [file|] eqn:Hf; [|by rewrite app_nil_r].
  apply delete_first_last. intros Hin.
  apply elem_of_ids_between in Hin as (j & fj & Hj & Hfj & Hid).
  assert (j = hi); [|lia].
  apply (item_at_inj j hi fj file); congruence.
Qed.

Lemma append_back lo hi :
  lo ≤ hi + 1 →
  replay_call its (ids_between its lo hi) (Appended (hi + 1))
  = ids_between its lo (hi + 1).
Proof.
  intros H. rewrite (ids_between_snoc lo (hi + 1)) by lia. simpl.
  do 2 f_equal. lia.
Qed.

Lemma prepend_front lo hi :
  lo ≤ hi + 1 →
  replay_call its (ids_between its lo hi) (Prepended (lo - 1))
  = ids_between its (lo - 1) hi.
Proof.
  intros H. rewrite (ids_between_cons (lo - 1) hi) by lia. simpl.
  do 2 f_equal. lia.
Qed.
End Ids.

(** ** Runs of calls *)

Section Points.
Variable its : list MediaInfo.t.
Hypothesis distinct : NoDup (MediaInfo.id <$> its).

Lemma foldl_step d c cs :
  foldl (replay_call its) d (c :: cs) = foldl (replay_call its) (replay_call its d c) cs.
Proof. reflexivity. Qed.

Lemma all_points_nil d : NoDup d → all_points its d [].
Proof. intros Hd p Hp. apply prefix_nil_inv in Hp as ->. done. Qed.

Lemma all_points_cons d c cs :
  NoDup d → all_points its (replay_call its d c) cs → all_points its d (c :: cs).
Proof.
  intros Hd Hcs p Hp. destruct p as [|c' p]; [done|].
  pose proof (prefix_cons_inv_1 _ _ _ _ Hp) as ->.
  apply prefix_cons_inv_2 in Hp. simpl. by apply Hcs.
Qed.

Lemma all_points_cons_inv d c cs :
  all_points its d (c :: cs) → NoDup d ∧ all_points its (replay_call its d c) cs.
Proof.
  intros H. split.
  - apply (H []). apply prefix_nil.
  - intros p Hp. apply (H (c :: p)). by apply prefix_cons.
Qed.

Lemma all_points_app d cs1 cs2 :
  all_points its d cs1 →
  all_points its (foldl (replay_call its) d cs1) cs2 →
  all_points its d (cs1 ++ cs2).
Proof.
  revert d. induction cs1 as [|c cs1 IH]; intros d H1 H2; simpl in *; [done|].
  apply all_points_cons_inv in H1 as [Hd H1].
  apply all_points_cons; [done|]. by apply IH.
Qed.

(** [for (i = lo; i < lo + n; i++) removeElement (i)] on the items
    [lo .. hi]. *)
Lemma points_remove_up (n : nat) lo hi :
  Z.of_nat n ≤ hi + 1 - lo →
  all_points its (ids_between its lo hi) (Removed <$> seqZ lo (Z.of_nat n))
  ∧ foldl (replay_call its) (ids_between its lo hi) (Removed <$> seqZ lo (Z.of_nat n))
    = ids_between its (lo + Z.of_nat n) hi.
Proof using distinct.
  revert lo. induction n as [|n IH]; intros lo Hn.
  - rewrite seqZ_nil by lia. simpl. rewrite Z.add_0_r.
    split; [|done]. apply all_points_nil, NoDup_ids_between, distinct.
  - rewrite seqZ_cons by lia. rewrite fmap_cons, foldl_step.
    rewrite remove_front by lia.
    replace (Z.pred (Z.of_nat (S n))) with (Z.of_nat n) by lia.
    replace (Z.succ lo) with (lo + 1) by lia.
    destruct (IH (lo + 1)) as [Hp Hf]; [lia|]. split.
    + apply all_points_cons; [apply NoDup_ids_between, distinct|].
      by rewrite remove_front by lia.
    + rewrite Hf. f_equal. lia.
Qed.

(** [for (i = hi + 1; i <= hi + n; i++) appendChild (createElement (i))] *)
Lemma points_append_up (n : nat) lo hi :
  lo ≤ hi + 1 →
  all_points its (ids_between its lo hi) (Appended <$> seqZ (hi + 1) (Z.of_nat n))
  ∧ foldl (replay_call its) (ids_between its lo hi)
          (Appended <$> seqZ (hi + 1) (Z.of_nat n))
    = ids_between its lo (hi + Z.of_nat n).
Proof using distinct.
  revert hi. induction n as [|n IH]; intros hi Hn.
  - rewrite seqZ_nil by lia. simpl. rewrite Z.add_0_r.
    split; [|done]. apply all_points_nil, NoDup_ids_between, distinct.
  - rewrite seqZ_cons by lia. rewrite fmap_cons, foldl_step.
    rewrite append_back by lia.
    replace (Z.pred (Z.of_nat (S n))) with (Z.of_nat n) by lia.
    replace (Z.succ (hi + 1)) with (hi + 1 + 1) by lia.
    destruct (IH (hi + 1)) as [Hp Hf]; [lia|]. split.
    + apply all_points_cons; [apply NoDup_ids_between, distinct|].
      by rewrite append_back by lia.
    + rewrite Hf. f_equal. lia.
Qed.

Lemma reverse_seqZ_S m (n : nat) :
  reverse (seqZ m (Z.of_nat (S n))) = (m + Z.of_nat n) :: reverse (seqZ m (Z.of_nat n)).
Proof. by rewrite seqZ_S, reverse_snoc. Qed.

(** [for (i = lo - 1; i >= lo - n; i--) prepend (createElement (i))] *)
Lemma points_prepend_down (n : nat) lo hi :
  lo ≤ hi + 1 →
  all_points its (ids_between its lo hi)
             (Prepended <$> reverse (seqZ (lo - Z.of_nat n) (Z.of_nat n)))
  ∧ foldl (replay_call its) (ids_between its lo hi)
          (Prepended <$> reverse (seqZ (lo - Z.of_nat n) (Z.of_nat n)))
    = ids_between its (lo - Z.of_nat n) hi.
Proof using distinct.
  revert lo. induction n as [|n IH]; intros lo Hn.
  - rewrite seqZ_nil by lia. simpl. rewrite Z.sub_0_r.
    split; [|done]. apply all_points_nil, NoDup_ids_between, distinct.
  - rewrite reverse_seqZ_S, fmap_cons, foldl_step.
    replace (lo - Z.of_nat (S n) + Z.of_nat n) with (lo - 1) by lia.
    replace (lo - Z.of_nat (S n)) with (lo - 1 - Z.of_nat n) by lia.
    rewrite prepend_front by lia.
    destruct (IH (lo - 1)) as [Hp Hf]; [lia|]. split.
    + apply all_points_cons; [apply NoDup_ids_between, distinct|].
      by rewrite prepend_front by lia.
    + exact Hf.
Qed.

(** [for (i = hi; i > hi - n; i--) removeElement (i)] *)
Lemma points_remove_down (n : nat) lo hi :
  Z.of_nat n ≤ hi + 1 - lo →
  all_points its (ids_between its lo hi)
             (Removed <$> reverse (seqZ (hi - Z.of_nat n + 1) (Z.of_nat n)))
  ∧ foldl (replay_call its) (ids_between its lo hi)
          (Removed <$> reverse (seqZ (hi - Z.of_nat n + 1) (Z.of_nat n)))
    = ids_between its lo (hi - Z.of_nat n).
Proof using distinct.
  revert hi. induction n as [|n IH]; intros hi Hn.
  - rewrite seqZ_nil by lia. simpl. rewrite Z.sub_0_r.
    split; [|done]. apply all_points_nil, NoDup_ids_between, distinct.
  - rewrite reverse_seqZ_S, fmap_cons, foldl_step.
    replace (hi - Z.of_nat (S n) + 1 + Z.of_nat n) with hi by lia.
    replace (hi - Z.of_nat (S n) + 1) with (hi - 1 - Z.of_nat n + 1) by lia.
    rewrite (remove_back its distinct) by lia.
    destruct (IH (hi - 1)) as [Hp Hf]; [lia|]. split.
    + apply all_points_cons; [apply NoDup_ids_between, distinct|].
      by rewrite (remove_back its distinct) by lia.
    + rewrite Hf. f_equal. lia.
Qed.
End Points.

(** ** The log and the surface agree *)

Lemma in_bounds_item_at g i :
  item_at (items g) i = if in_bounds g i then item_at (items g) i else None.
Proof.
  unfold in_bounds, item_at, length_items.
  destruct (decide (0 ≤ i)) as [Hi|Hi].
  - rewrite bool_decide_eq_false_2 by lia. simpl.
    destruct (bool_decide (Z.of_nat (length (items g)) ≤ i)) eqn:Hb; simpl; [|done].
    apply bool_decide_eq_true in Hb. apply lookup_ge_None. lia.
  - by destruct (negb _).
Qed.

Lemma ids_remove_first id l :
  AssetElement.id <$> remove_first id l = delete_first id (AssetElement.id <$> l).
Proof.
  induction l as [|e l IH]; [done|].
  rewrite fmap_cons. cbn [remove_first delete_first].
  destruct (decide (AssetElement.id e = id)); [done|].
  rewrite fmap_cons. f_equal. exact IH.
Qed.

Lemma removeElement_surface g i :
  surface_ids (removeElement g i) = replay_call (items g) (surface_ids g) (Removed i).
Proof.
  unfold removeElement, surface_ids. simpl replay_call.
  rewrite (in_bounds_item_at g i).
  replace (in_bounds (record_call (Removed i) g) i) with (in_bounds g i) by done.
  destruct (in_bounds g i); [|done]. simpl.
  destruct (item_at (items g) i); [|done]. simpl. apply ids_remove_first.
Qed.

Lemma createElement_id g i :
  from_option (λ e, [AssetElement.id e]) [] (createElement g i) = id_at (items g) i.
Proof.
  unfold createElement, id_at. rewrite (in_bounds_item_at g i).
  destruct (in_bounds g i); [|done].
  by destruct (item_at (items g) i).
Qed.

Lemma appendElement_surface g i :
  surface_ids (appendElement g i) = replay_call (items g) (surface_ids g) (Appended i).
Proof.
  unfold appendElement, surface_ids. simpl replay_call.
  rewrite <- (createElement_id g i).
  replace (createElement (record_call (Appended i) g) i) with (createElement g i) by done.
  destruct (createElement g i); simpl; [by rewrite fmap_app | by rewrite app_nil_r].
Qed.

Lemma prependElement_surface g i :
  surface_ids (prependElement g i) = replay_call (items g) (surface_ids g) (Prepended i).
Proof.
  unfold prependElement, surface_ids. simpl replay_call.
  rewrite <- (createElement_id g i).
  replace (createElement (record_call (Prepended i) g) i) with (createElement g i) by done.
  by destruct (createElement g i).
Qed.

Lemma foldl_surface (body : ImageGrid → Z → ImageGrid) (c : Z → ViewCall) (l : list Z) :
  (∀ g i, view_only g (body g i)) →
  (∀ g i, surface_ids (body g i) = replay_call (items g) (surface_ids g) (c i)) →
  ∀ g, surface_ids (foldl body g l)
       = foldl (replay_call (items g)) (surface_ids g) (c <$> l).
Proof.
  intros Hv Hs. induction l as [|i l IH]; intros g; simpl; [done|].
  rewrite IH, Hs.
  destruct (view_only_fields g (body g i) (Hv g i)) as (-> & _). done.
Qed.

(** What a loop of one of the three bodies does to the state. *)
Lemma loop_effect (body : ImageGrid → Z → ImageGrid) (c : Z → ViewCall) (l : list Z) g :
  (body = removeElement ∧ c = Removed) ∨ (body = appendElement ∧ c = Appended)
  ∨ (body = prependElement ∧ c = Prepended) →
  view_only g (foldl body g l)
  ∧ calls (foldl body g l) = calls g ++ (c <$> l)
  ∧ surface_ids (foldl body g l)
    = foldl (replay_call (items g)) (surface_ids g) (c <$> l).
Proof.
  intros [[-> ->]|[[-> ->]|[-> ->]]].
  - split; [apply removeAll_view_only|]. split.
    + apply foldl_calls, removeElement_calls.
    + apply foldl_surface; [apply removeElement_view_only | apply removeElement_surface].
  - split; [apply appendAll_view_only|]. split.
    + apply foldl_calls, appendElement_calls.
    + apply foldl_surface; [apply appendElement_view_only | apply appendElement_surface].
  - split; [apply prependAll_view_only|]. split.
    + apply foldl_calls, prependElement_calls.
    + apply foldl_surface; [apply prependElement_view_only | apply prependElement_surface].
Qed.

(** Two loops in a row. *)
Lemma two_loops (b1 b2 : ImageGrid → Z → ImageGrid) (c1 c2 : Z → ViewCall)
    (l1 : list Z) (l2 : Range → list Z) g :
  (b1 = removeElement ∧ c1 = Removed) ∨ (b1 = appendElement ∧ c1 = Appended)
  ∨ (b1 = prependElement ∧ c1 = Prepended) →
  (b2 = removeElement ∧ c2 = Removed) ∨ (b2 = appendElement ∧ c2 = Appended)
  ∨ (b2 = prependElement ∧ c2 = Prepended) →
  let g1 := foldl b1 g l1 in
  let g2 := foldl b2 g1 (l2 (range g1)) in
  calls g2 = calls g ++ (c1 <$> l1) ++ (c2 <$> l2 (range g))
  ∧ surface_ids g2
    = foldl (replay_call (items g)) (surface_ids g) ((c1 <$> l1) ++ (c2 <$> l2 (range g))).
Proof.
  intros H1 H2 g1 g2.
  destruct (loop_effect b1 c1 l1 g H1) as (Hv1 & Hc1 & Hs1).
  destruct (loop_effect b2 c2 (l2 (range g1)) g1 H2) as (Hv2 & Hc2 & Hs2).
  destruct (view_only_fields g g1 Hv1) as (Hi & _ & _ & _ & Hr & _).
  fold g1 in Hc1, Hs1. fold g2 in Hc2, Hs2.
  rewrite Hc2, Hs2, Hc1, Hs1, Hi, Hr. rewrite foldl_app, <- app_assoc. done.
Qed.

Lemma window_step_log g o :
  calls (window_step g o) = calls g ++ op_calls g o
  ∧ surface_ids (window_step g o)
    = foldl (replay_call (items g)) (surface_ids g) (op_calls g o).
Proof.
  destruct o as [| |t b]; unfold window_step.
  - unfold shiftForwards, for_up.
    set (d := Z.min (cols g * 5) (maxEnd g - end_ (range g))).
    set (g0 := calculateMargin _).
    assert (Hr0 : range g0 = mkRange (start (range g) + d) (end_ (range g) + d))
      by reflexivity.
    destruct (two_loops removeElement appendElement Removed Appended
                (seqZ (start (range g)) (start (range g0) - 1 + 1 - start (range g)))
                (λ r, seqZ (end_ (range g) + 1) (end_ r + 1 - (end_ (range g) + 1))) g0)
      as [Hc Hs]; [tauto|tauto|].
    cbv beta zeta in Hc, Hs. rewrite Hc, Hs, Hr0. cbn [start end_].
    change (calls g0) with (calls g). change (items g0) with (items g).
    change (surface_ids g0) with (surface_ids g).
    unfold op_calls. fold d.
    replace (start (range g) + d - 1 + 1 - start (range g)) with d by lia.
    replace (end_ (range g) + d + 1 - (end_ (range g) + 1)) with d by lia.
    done.
  - unfold shiftBackwards, for_down.
    set (d := Z.min (cols g * 5) (start (range g))).
    set (g0 := calculateMargin _).
    assert (Hr0 : range g0 = mkRange (start (range g) - d) (end_ (range g) - d))
      by reflexivity.
    destruct (two_loops prependElement removeElement Prepended Removed
                (reverse (seqZ (start (range g0)) (start (range g) - 1 + 1 - start (range g0))))
                (λ r, reverse (seqZ (end_ r + 1) (end_ (range g) + 1 - (end_ r + 1)))) g0)
      as [Hc Hs]; [tauto|tauto|].
    cbv beta zeta in Hc, Hs. rewrite Hc, Hs, Hr0. cbn [start end_].
    change (calls g0) with (calls g). change (items g0) with (items g).
    change (surface_ids g0) with (surface_ids g).
    unfold op_calls. fold d.
    replace (start (range g) - 1 + 1 - (start (range g) - d)) with d by lia.
    replace (end_ (range g) + 1 - (end_ (range g) - d + 1)) with d by lia.
    done.
  - unfold shiftRange, for_up.
    set (l1 := seqZ (start (range g)) (end_ (range g) + 1 - start (range g))).
    set (g1 := if b then foldl removeElement g l1 else g).
    assert (H1 : view_only g g1 ∧ calls g1 = calls g ++ (if b then Removed <$> l1 else [])
                 ∧ surface_ids g1
                   = foldl (replay_call (items g)) (surface_ids g)
                           (if b then Removed <$> l1 else [])).
    { unfold g1. destruct b.
      - apply loop_effect. tauto.
      - split; [apply view_only_refl|]. by rewrite app_nil_r. }
    destruct H1 as (Hv & Hc1 & Hs1).
    destruct (view_only_fields g g1 Hv) as (Hi & _ & Hm & Hw & _).
    set (g2 := calculateMargin _).
    assert (Hr2 : range g2 = mkRange (Z.max t 0)
                               (Z.min (Z.max t 0 + window g1 - 1) (maxEnd g1)))
      by reflexivity.
    destruct (loop_effect appendElement Appended
                (seqZ (start (range g2)) (end_ (range g2) + 1 - start (range g2))) g2)
      as (_ & Hc2 & Hs2); [tauto|].
    rewrite Hc2, Hs2, Hr2. cbn [start end_].
    change (calls g2) with (calls g1). change (items g2) with (items g1).
    change (surface_ids g2) with (surface_ids g1).
    rewrite Hc1, Hs1, Hi, Hm, Hw. unfold op_calls. fold l1.
    rewrite foldl_app, <- app_assoc. done.
Qed.

(** The surface is the replay of the log, whatever the calls. *)
Lemma connectedCallback_log width viewportHeight its :
  let g := connectedCallback width viewportHeight (create its) in
  calls g = Appended <$> seqZ 0 (end_ (range g) + 1)
  ∧ surface_ids g = replay its (calls g).
Proof.
  unfold connectedCallback, for_up.
  set (g1 := calculateLayout width viewportHeight (create its)).
  destruct (loop_effect appendElement Appended
              (seqZ (start (range g1)) (end_ (range g1) + 1 - start (range g1))) g1)
    as (Hv & Hc & Hs); [tauto|].
  destruct (view_only_fields _ _ Hv) as (Hi & _ & _ & _ & Hr & _).
  cbv zeta.
  change (calls (calculateMargin ?x)) with (calls x).
  change (range (calculateMargin ?x)) with (range x).
  change (surface_ids (calculateMargin ?x)) with (surface_ids x).
  rewrite Hc, Hs, Hr.
  change (start (range g1)) with 0. change (calls g1) with (@nil ViewCall).
  change (surface_ids g1) with (@nil Z). change (items g1) with its.
  rewrite Z.sub_0_r. done.
Qed.

Lemma run_log ops g :
  ∃ cs, calls (run ops g) = calls g ++ cs
        ∧ surface_ids (run ops g) = foldl (replay_call (items g)) (surface_ids g) cs.
Proof.
  revert g. induction ops as [|o ops IH]; intros g; simpl.
  - exists []. by rewrite app_nil_r.
  - destruct (IH (window_step g o)) as (cs & Hc & Hs).
    destruct (window_step_log g o) as [Hc1 Hs1].
    destruct (window_step_layout g o) as (Hi & _).
    exists (op_calls g o ++ cs).
    rewrite Hc, Hs, Hc1, Hs1, Hi, foldl_app, <- app_assoc. done.
Qed.

Lemma replay_coherent width viewportHeight its ops :
  let g := run ops (connectedCallback width viewportHeight (create its)) in
  surface_ids g = replay its (calls g).
Proof.
  intros g. unfold g.
  destruct (run_log ops (connectedCallback width viewportHeight (create its)))
    as (cs & Hc & Hs).
  destruct (connectedCallback_log width viewportHeight its) as [_ H0].
  destruct (connectedCallback_spec width viewportHeight its) as (Hi & _).
  rewrite Hc, Hs, H0, Hi. unfold replay. by rewrite foldl_app.
Qed.

(** ** One element per id *)

Lemma nonneg_of_nat (d : Z) : 0 ≤ d → ∃ n : nat, d = Z.of_nat n.
Proof. intros H. exists (Z.to_nat d). lia. Qed.

(** An admissible call keeps the surface in step with the range, and passes
    through duplicate-free surfaces only. *)
Lemma op_in_step (g : ImageGrid) (o : WindowOp) :
  NoDup (MediaInfo.id <$> items g) →
  0 ≤ cols g → 0 ≤ window g →
  in_step g → op_admissible g o →
  all_points (items g) (surface_ids g) (op_calls g o)
  ∧ in_step (window_step g o).
Proof.
  intros Hnd Hc Hw (Hsurf & H0 & Hse & Hem) Ho.
  destruct (window_step_log g o) as [_ Hlog].
  destruct (window_step_layout g o) as (Hi & _ & Hm & _).
  unfold in_step. rewrite Hlog, Hi, Hm, Hsurf. clear Hlog Hi Hm.
  destruct o as [| |t b]; unfold window_step, op_calls, op_admissible in *.
  - rewrite shiftForwards_range. cbn [start end_].
    set (d := Z.min (cols g * 5) (maxEnd g - end_ (range g))) in *.
    destruct (nonneg_of_nat d) as [n Hn]; [lia|]. rewrite Hn in *.
    destruct (points_remove_up (items g) Hnd n (start (range g)) (end_ (range g)))
      as [P1 F1]; [lia|].
    destruct (points_append_up (items g) Hnd n (start (range g) + Z.of_nat n)
                (end_ (range g))) as [P2 F2]; [lia|].
    split.
    + apply all_points_app; [exact P1 | by rewrite F1].
    + rewrite foldl_app, F1, F2. repeat split; lia.
  - rewrite shiftBackwards_range. cbn [start end_].
    set (d := Z.min (cols g * 5) (start (range g))) in *.
    destruct (nonneg_of_nat d) as [n Hn]; [lia|]. rewrite Hn in *.
    destruct (points_prepend_down (items g) Hnd n (start (range g)) (end_ (range g)))
      as [P1 F1]; [lia|].
    destruct (points_remove_down (items g) Hnd n (start (range g) - Z.of_nat n)
                (end_ (range g))) as [P2 F2]; [lia|].
    split.
    + apply all_points_app; [exact P1 | by rewrite F1].
    + rewrite foldl_app, F1, F2. repeat split; lia.
  - rewrite shiftRange_range. cbn [start end_].
    destruct Ho as [-> Ht].
    set (s' := Z.max t 0).
    set (e' := Z.min (s' + window g - 1) (maxEnd g)).
    destruct (nonneg_of_nat (end_ (range g) + 1 - start (range g))) as [n Hn]; [lia|].
    destruct (nonneg_of_nat (e' + 1 - s')) as [n' Hn']; [lia|].
    rewrite Hn, Hn'.
    destruct (points_remove_up (items g) Hnd n (start (range g)) (end_ (range g)))
      as [P1 F1]; [lia|].
    destruct (points_append_up (items g) Hnd n' s' (s' - 1)) as [P2 F2]; [lia|].
    replace (s' - 1 + 1) with s' in P2, F2 by lia.
    replace (s' - 1 + Z.of_nat n') with e' in F2 by lia.
    assert (Hempty : ids_between (items g) (start (range g) + Z.of_nat n) (end_ (range g))
                     = ids_between (items g) s' (s' - 1))
      by (rewrite !ids_between_nil by lia; done).
    split.
    + apply all_points_app; [exact P1 | by rewrite F1, Hempty].
    + rewrite foldl_app, F1, Hempty, F2. repeat split; lia.
Qed.

Lemma run_in_step (ops : list WindowOp) (g : ImageGrid) :
  NoDup (MediaInfo.id <$> items g) →
  0 ≤ cols g → 0 ≤ window g →
  in_step g → admissible ops g →
  ∃ cs, calls (run ops g) = calls g ++ cs
        ∧ all_points (items g) (surface_ids g) cs
        ∧ in_step (run ops g).
Proof.
  revert g. induction ops as [|o ops IH]; intros g Hnd Hc Hw Hin Hadm.
  - exists []. cbn [run foldl]. rewrite app_nil_r. split; [done|]. split; [|done].
    apply all_points_nil. destruct Hin as [-> _]. by apply NoDup_ids_between.
  - destruct Hadm as [Ho Hadm].
    destruct (op_in_step g o Hnd Hc Hw Hin Ho) as [Hp Hin'].
    destruct (window_step_log g o) as [Hcalls Hsurf].
    destruct (window_step_layout g o) as (Hi & Hcols & _ & Hwin & _).
    destruct (IH (window_step g o)) as (cs & Hcs & Hps & Hfin);
      [by rewrite Hi | by rewrite Hcols | by rewrite Hwin | done | done |].
    exists (op_calls g o ++ cs). change (run (o :: ops) g) with (run ops (window_step g o)).
    rewrite Hcs, Hcalls, <- app_assoc. split; [done|]. split; [|done].
    apply all_points_app; [done|]. rewrite <- Hsurf, <- Hi. done.
Qed.

Lemma connectedCallback_in_step width viewportHeight its :
  NoDup (MediaInfo.id <$> its) →
  let g := connectedCallback width viewportHeight (create its) in
  all_points its [] (calls g) ∧ in_step g.
Proof.
  intros Hnd g.
  destruct (connectedCallback_spec width viewportHeight its) as (Hi & [Hc Hw] & Hm & Hr).
  destruct (connectedCallback_log width viewportHeight its) as [Hcalls Hsurf].
  fold g in Hi, Hc, Hw, Hm, Hr, Hcalls, Hsurf.
  assert (He : -1 ≤ end_ (range g)).
  { rewrite Hr. cbn [end_]. pose proof (Nat2Z.is_nonneg (length its)). lia. }
  destruct (nonneg_of_nat (end_ (range g) + 1)) as [n Hn]; [lia|].
  destruct (points_append_up its Hnd n 0 (-1)) as [P F]; [lia|].
  rewrite ids_between_nil in P, F by lia.
  change (-1 + 1) with 0 in P, F.
  unfold in_step. rewrite Hsurf, Hcalls, Hi, Hn. unfold replay. rewrite F.
  split; [exact P|]. rewrite Hr in *. cbn [start end_] in *.
  repeat split; try lia. f_equal. lia.
Qed.

(** Shifts alone, and [shiftRange] calls that drop the existing elements and
    leave a stride of indices up to [maxEnd] (or start at 0), are admissible
    from the initial state. *)
Lemma static_step (g : ImageGrid) (o : WindowOp) :
  layout_ok g → -1 ≤ maxEnd g →
  0 ≤ start (range g) → end_ (range g) ≤ maxEnd g → long_enough g →
  op_static g o →
  op_admissible g o
  ∧ 0 ≤ start (range (window_step g o))
  ∧ end_ (range (window_step g o)) ≤ maxEnd g
  ∧ long_enough (window_step g o).
Proof.
  intros [Hc Hw] Hm H0 He Hl Ho. unfold long_enough in *.
  destruct (window_step_layout g o) as (_ & -> & -> & _).
  destruct o as [| |t b]; unfold window_step, op_admissible, op_static in *.
  - rewrite shiftForwards_range. cbn [start end_]. lia.
  - rewrite shiftBackwards_range. cbn [start end_]. lia.
  - rewrite shiftRange_range. cbn [start end_]. destruct Ho as [-> Ht]. lia.
Qed.

Lemma static_admissible (ops : list WindowOp) (g : ImageGrid) :
  layout_ok g → -1 ≤ maxEnd g →
  0 ≤ start (range g) → end_ (range g) ≤ maxEnd g → long_enough g →
  Forall (op_static g) ops → admissible ops g.
Proof.
  revert g. induction ops as [|o ops IH]; intros g Hl Hm H0 He Hlong Hops; [done|].
  inversion Hops as [|? ? Ho Hrest]; subst.
  destruct (static_step g o Hl Hm H0 He Hlong Ho) as (Hadm & H0' & He' & Hlong').
  destruct (window_step_layout g o) as (_ & Hcols & Hmax & Hwin & _).
  split; [exact Hadm|]. apply IH.
  - unfold layout_ok in *. by rewrite Hcols, Hwin.
  - by rewrite Hmax.
  - exact H0'.
  - by rewrite Hmax.
  - exact Hlong'.
  - eapply Forall_impl; [exact Hrest|]. intros o'. unfold op_static.
    by rewrite Hcols, Hmax.
Qed.

Lemma initial_admissible width viewportHeight its (ops : list WindowOp) :
  Forall (op_static (connectedCallback width viewportHeight (create its))) ops →
  admissible ops (connectedCallback width viewportHeight (create its)).
Proof.
  destruct (connectedCallback_spec width viewportHeight its) as (_ & Hl & Hm & Hr).
  pose proof (Nat2Z.is_nonneg (length its)).
  destruct Hl as [Hc Hw].
  apply static_admissible; unfold long_enough; rewrite ?Hr; cbn [start end_];
    [done | lia | lia | lia | lia].
Qed.

(** C2, as amended: for a collection with pairwise distinct ids, at every
    point (after every logged call) of the initial materialization followed
    by a sequence of [shiftForwards], [shiftBackwards] and [shiftRange] calls
    in which every [shiftRange] drops the existing elements and has
    [targetStart <= maxEnd + 1], and every [shiftForwards] finds a range at
    least as long as its stride, the surface holds at most one element per
    id; after the sequence it holds exactly the items of the range, in
    ascending order of index. *)
Theorem C2_one_element_per_id (its : list MediaInfo.t) (width viewportHeight : N)
    (ops : list WindowOp) :
  NoDup (MediaInfo.id <$> its) →
  admissible ops (connectedCallback width viewportHeight (create its)) →
  (∀ p, p `prefix_of` calls (run ops (connectedCallback width viewportHeight (create its))) →
        NoDup (replay its p))
  ∧ surface_ids (run ops (connectedCallback width viewportHeight (create its)))
    = replay its (calls (run ops (connectedCallback width viewportHeight (create its))))
  ∧ surface_ids (run ops (connectedCallback width viewportHeight (create its)))
    = ids_between its
        (start (range (run ops (connectedCallback width viewportHeight (create its)))))
        (end_ (range (run ops (connectedCallback width viewportHeight (create its))))).
Proof.
  intros Hnd Hadm.
  set (g0 := connectedCallback width viewportHeight (create its)) in *.
  destruct (connectedCallback_spec width viewportHeight its) as (Hi & [Hc Hw] & _).
  destruct (connectedCallback_log width viewportHeight its) as [_ Hsurf0].
  destruct (connectedCallback_in_step width viewportHeight its Hnd) as [P0 Hin0].
  fold g0 in Hi, Hc, Hw, Hsurf0, P0, Hin0.
  destruct (run_in_step ops g0) as (cs & Hcs & Hps & Hin);
    [by rewrite Hi | lia | lia | done | done |].
  rewrite Hi in Hps. split; [|split].
  - rewrite Hcs. apply all_points_app; [exact P0|].
    unfold replay in Hsurf0. by rewrite <- Hsurf0.
  - apply replay_coherent.
  - destruct Hin as [Hs _]. rewrite Hs. f_equal.
    destruct (run_layout ops g0) as (-> & _). exact Hi.
Qed.

Lemma C2_one_element_per_id_witness :
  NoDup (surface_ids (run [ShiftForwards; ShiftRange 5 true; ShiftBackwards]
                          (connectedCallback 100 225 (create (sample_items 40)))))
  ∧ surface_ids (run [ShiftForwards; ShiftRange 5 true; ShiftBackwards]
                     (connectedCallback 100 225 (create (sample_items 40))))
    = ids_between (sample_items 40) 0 30.
Proof.
  assert (Hnd : NoDup (MediaInfo.id <$> sample_items 40)).
  { apply (bool_decide_unpack _). vm_compute. exact I. }
  assert (Hadm : admissible [ShiftForwards; ShiftRange 5 true; ShiftBackwards]
                   (connectedCallback 100 225 (create (sample_items 40)))).
  { repeat split; vm_compute; discriminate. }
  destruct (C2_one_element_per_id (sample_items 40) 100 225
              [ShiftForwards; ShiftRange 5 true; ShiftBackwards] Hnd Hadm)
    as (Hpoints & Hlog & Hrange).
  split.
  - rewrite Hlog. apply Hpoints. reflexivity.
  - rewrite Hrange. reflexivity.
Defined.

(** C2 as stated fails.  By design of the [removeExisting] flag,
    [shiftRange (0, false)] on the populated initial window materializes every
    item a second time.  With the flag set, a range cut short at [maxEnd]
    (shorter than a stride) lets [shiftForwards] create an element below the
    new start, which the next [shiftRange] does not remove and creates
    again; so do two [shiftBackwards] on the inverted range left by a
    [targetStart] beyond [maxEnd + 1]. *)
Lemma C2_counterexample :
  (surface_ids (run [ShiftRange 0 false] (sample_grid 10))
   = [0; 1; 2; 3; 4; 5; 6; 7; 8; 9; 0; 1; 2; 3; 4; 5; 6; 7; 8; 9]
   ∧ ¬ NoDup (surface_ids (run [ShiftRange 0 false] (sample_grid 10))))
  ∧ (surface_ids (run [ShiftRange 36 true; ShiftBackwards; ShiftForwards;
                       ShiftRange 30 true] (narrow_grid 40))
     = [35; 30; 31; 32; 33; 34; 35; 36; 37; 38; 39]
     ∧ ¬ NoDup (surface_ids (run [ShiftRange 36 true; ShiftBackwards; ShiftForwards;
                                  ShiftRange 30 true] (narrow_grid 40))))
  ∧ (surface_ids (run [ShiftRange 41 true; ShiftBackwards; ShiftBackwards;
                       ShiftRange 30 true] (narrow_grid 40))
     = [35; 30; 31; 32; 33; 34; 35; 36; 37; 38; 39]
     ∧ ¬ NoDup (surface_ids (run [ShiftRange 41 true; ShiftBackwards; ShiftBackwards;
                                  ShiftRange 30 true] (narrow_grid 40)))).
Proof.
  repeat split; try (vm_compute; reflexivity);
    apply (proj1 (bool_decide_eq_false _)); vm_compute; reflexivity.
Qed.

(** * Further properties of the grid *)

(** ** Layout and initial window *)

(** X1: [calculateLayout] always yields at least one column and pads the last
    row: [maxEnd + 1] is [totalRows * cols], it covers the collection with
    less than one row of padding, and the window is a whole number of rows,
    at least 30.  For a collection that is not empty the container gets the
    height [totalRows * 225 - 25]; for an empty one that length is negative
    ([-25px]), the assignment is dropped and the height stays as it was. *)
Theorem layout_pads_last_row (width viewportHeight : N) (g : ImageGrid) :
  let g' := calculateLayout width viewportHeight g in
  1 ≤ cols g'
  ∧ maxEnd g' + 1 = totalRows g' * cols g'
  ∧ length_items g ≤ maxEnd g' + 1
  ∧ maxEnd g' + 1 < length_items g + cols g'
  ∧ (cols g' | window g') ∧ cols g' * 30 ≤ window g'
  ∧ (items g ≠ [] → containerHeight g' = Some (totalRows g' * 225 - 25))
  ∧ (items g = [] → containerHeight g' = containerHeight g).
Proof.
  unfold calculateLayout. cbn [cols maxEnd totalRows window containerHeight set_layout].
  set (c := Z.max 1 ((Z.of_N width + 25) / (150 + 25))).
  assert (Hc : 1 ≤ c) by (unfold c; lia).
  pose proof (ceil_div_nonneg (Z.of_N viewportHeight) (200 + 25)) as Hrows.
  pose proof (ceil_div_covers (length_items g) c) as Hcov.
  assert (Hup : ceil_div (length_items g) c * c < length_items g + c).
  { unfold ceil_div. Z.div_mod_to_equations. nia. }
  split; [done|]. split; [lia|]. split; [lia|]. split; [lia|].
  split; [apply Z.divide_factor_r|]. split; [nia|]. split.
  - intros Hne.
    assert (Hlen : 1 ≤ length_items g)
      by (unfold length_items; destruct (items g); [done | cbn [length]; lia]).
    by rewrite decide_True by nia.
  - intros Hempty.
    assert (Hlen : length_items g = 0) by (unfold length_items; by rewrite Hempty).
    rewrite decide_False by nia. done.
Qed.

Lemma ids_between_take_drop_nat (its : list MediaInfo.t) (n : nat) (lo hi : Z) :
  0 ≤ lo → Z.to_nat (hi + 1 - lo) = n →
  ids_between its lo hi
  = MediaInfo.id <$> take n (drop (Z.to_nat lo) its).
Proof.
  revert lo. induction n as [|n IH]; intros lo Hlo Hn.
  - rewrite ids_between_nil by lia. by rewrite take_0.
  - rewrite ids_between_cons by lia.
    rewrite (IH (lo + 1)) by lia.
    replace (Z.to_nat (lo + 1)) with (S (Z.to_nat lo)) by lia.
    unfold id_at, item_at. rewrite decide_True by done.
    destruct (its !! Z.to_nat lo) as [x|] eqn:Hx.
    + rewrite (drop_S _ _ _ Hx). by rewrite firstn_cons, fmap_cons.
    + apply lookup_ge_None in Hx.
      rewrite !drop_ge by lia. by rewrite !take_nil.
Qed.

(** The ids between two indices are those of a slice of the collection. *)
Lemma ids_between_take_drop (its : list MediaInfo.t) (lo hi : Z) :
  0 ≤ lo →
  ids_between its lo hi
  = MediaInfo.id <$> take (Z.to_nat (hi + 1 - lo)) (drop (Z.to_nat lo) its).
Proof. intros. by apply ids_between_take_drop_nat. Qed.

(** Appending the indices after [hi], with or without distinct ids. *)
Lemma append_run (its : list MediaInfo.t) (n : nat) (lo hi : Z) :
  lo ≤ hi + 1 →
  foldl (replay_call its) (ids_between its lo hi)
        (Appended <$> seqZ (hi + 1) (Z.of_nat n))
  = ids_between its lo (hi + Z.of_nat n).
Proof.
  revert hi. induction n as [|n IH]; intros hi Hh.
  - rewrite seqZ_nil by lia. cbn. by rewrite Z.add_0_r.
  - rewrite seqZ_cons by lia. rewrite fmap_cons. cbn [foldl].
    rewrite append_back by lia.
    replace (Z.pred (Z.of_nat (S n))) with (Z.of_nat n) by lia.
    replace (Z.succ (hi + 1)) with (hi + 1 + 1) by lia.
    rewrite IH by lia. f_equal. lia.
Qed.

(** X2: The initial materialization creates the first [window] items of the
    collection (all of them when there are fewer), in order, by one
    [createElement] call per index of the initial range. *)
Theorem initial_window_is_prefix (its : list MediaInfo.t) (width viewportHeight : N) :
  let g := connectedCallback width viewportHeight (create its) in
  surface_ids g = MediaInfo.id <$> take (Z.to_nat (window g)) its
  ∧ calls g = Appended <$> seqZ 0 (Z.min (window g) (maxEnd g + 1)).
Proof.
  intros g.
  destruct (connectedCallback_spec width viewportHeight its) as (Hi & [Hc Hw] & Hm & Hr).
  destruct (connectedCallback_log width viewportHeight its) as [Hcalls Hsurf].
  fold g in Hi, Hc, Hw, Hm, Hr, Hcalls, Hsurf.
  pose proof (Nat2Z.is_nonneg (length its)) as Hlen.
  assert (He : end_ (range g) + 1 = Z.min (window g) (maxEnd g + 1))
    by (rewrite Hr; cbn [end_]; lia).
  destruct (nonneg_of_nat (end_ (range g) + 1)) as [n Hn]; [lia|].
  split; [|by rewrite Hcalls, He].
  rewrite Hsurf, Hcalls, Hn. unfold replay.
  pose proof (append_run its n 0 (-1)) as F.
  rewrite ids_between_nil in F by lia. change (-1 + 1) with 0 in F.
  rewrite F by lia. rewrite ids_between_take_drop by lia.
  change (Z.to_nat 0) with 0%nat. rewrite drop_0.
  replace (Z.to_nat (-1 + Z.of_nat n + 1 - 0)) with n by lia.
  destruct (decide (Z.to_nat (window g) ≤ n)%nat) as [Hle|Hgt].
  - by replace n with (Z.to_nat (window g)) by lia.
  - rewrite !take_ge by lia. done.
Qed.

(** ** [shiftBackwards] *)

Lemma shiftBackwards_at_start g :
  0 ≤ cols g → start (range g) = 0 → shiftBackwards g = calculateMargin g.
Proof.
  intros Hc Hs. unfold shiftBackwards.
  replace (Z.min (cols g * 5) (start (range g))) with 0 by lia.
  rewrite !Z.sub_0_r.
  replace (mkRange (start (range g)) (end_ (range g))) with (range g)
    by (by destruct (range g)).
  rewrite set_range_same. unfold for_down.
  assert (Hr : range (calculateMargin g) = range g) by (by destruct g).
  rewrite Hr. rewrite (seqZ_nil (start (range g))) by lia.
  change (foldl prependElement (calculateMargin g) (reverse []))
    with (calculateMargin g).
  rewrite Hr. by rewrite seqZ_nil by lia.
Qed.

(** ** Whole rows *)

Lemma divide_min (c a b : Z) : (c | a) → (c | b) → (c | Z.min a b).
Proof. intros Ha Hb. destruct (Z.min_spec a b) as [[_ ->]|[_ ->]]; done. Qed.

Lemma divide_max_0 (c a : Z) : (c | a) → (c | Z.max a 0).
Proof.
  intros Ha. destruct (Z.max_spec a 0) as [[_ ->]|[_ ->]]; [apply Z.divide_0_r | done].
Qed.

Lemma window_step_row_aligned (g : ImageGrid) (o : WindowOp) :
  (cols g | window g) → (cols g | maxEnd g + 1) →
  match o with ShiftRange t _ => (cols g | t) | _ => True end →
  row_aligned g → row_aligned (window_step g o).
Proof.
  intros Hw Hm Ho [Hs He]. unfold row_aligned.
  destruct (window_step_layout g o) as (_ & -> & _).
  assert (H5 : (cols g | cols g * 5)) by apply Z.divide_factor_l.
  destruct o as [| |t b]; unfold window_step.
  - rewrite shiftForwards_range. cbn [start end_].
    assert (Hd : (cols g | Z.min (cols g * 5) (maxEnd g - end_ (range g)))).
    { apply divide_min; [done|].
      replace (maxEnd g - end_ (range g)) with (maxEnd g + 1 - (end_ (range g) + 1)) by lia.
      by apply Z.divide_sub_r. }
    split; [by apply Z.divide_add_r|].
    replace (end_ (range g) + Z.min (cols g * 5) (maxEnd g - end_ (range g)) + 1)
      with (end_ (range g) + 1 + Z.min (cols g * 5) (maxEnd g - end_ (range g))) by lia.
    by apply Z.divide_add_r.
  - rewrite shiftBackwards_range. cbn [start end_].
    assert (Hd : (cols g | Z.min (cols g * 5) (start (range g))))
      by by apply divide_min.
    split; [by apply Z.divide_sub_r|].
    replace (end_ (range g) - Z.min (cols g * 5) (start (range g)) + 1)
      with (end_ (range g) + 1 - Z.min (cols g * 5) (start (range g))) by lia.
    by apply Z.divide_sub_r.
  - rewrite shiftRange_range. cbn [start end_].
    assert (Ht : (cols g | Z.max t 0)) by by apply divide_max_0.
    split; [done|].
    replace (Z.min (Z.max t 0 + window g - 1) (maxEnd g) + 1)
      with (Z.min (Z.max t 0 + window g) (maxEnd g + 1)) by lia.
    apply divide_min; [by apply Z.divide_add_r | done].
Qed.

Lemma calculateLayout_whole_rows (width viewportHeight : N) (g : ImageGrid) :
  maxEnd (calculateLayout width viewportHeight g) + 1
  = totalRows (calculateLayout width viewportHeight g)
    * cols (calculateLayout width viewportHeight g)
  ∧ (cols (calculateLayout width viewportHeight g)
     | window (calculateLayout width viewportHeight g)).
Proof.
  unfold calculateLayout. cbn [cols maxEnd totalRows window set_layout].
  split; [lia | apply Z.divide_factor_r].
Qed.

(** X4: From the initial state, shifts and [shiftRange] calls whose target is a
    multiple of [cols] (as the one [adjustRange] computes) keep the window
    made of whole rows: [cols] divides [start] and [end + 1]. *)
Theorem window_keeps_whole_rows (its : list MediaInfo.t) (width viewportHeight : N)
    (ops : list WindowOp) :
  Forall (λ o, match o with
               | ShiftRange t _ =>
                   (cols (connectedCallback width viewportHeight (create its)) | t)
               | _ => True
               end) ops →
  (cols (run ops (connectedCallback width viewportHeight (create its)))
   | start (range (run ops (connectedCallback width viewportHeight (create its)))))
  ∧ (cols (run ops (connectedCallback width viewportHeight (create its)))
     | end_ (range (run ops (connectedCallback width viewportHeight (create its)))) + 1).
Proof.
  set (g0 := connectedCallback width viewportHeight (create its)).
  assert (H0 : (cols g0 | window g0) ∧ (cols g0 | maxEnd g0 + 1) ∧ row_aligned g0).
  { unfold g0, connectedCallback, for_up.
    set (g1 := calculateLayout width viewportHeight (create its)).
    destruct (calculateLayout_whole_rows width viewportHeight (create its))
      as [Hm Hw]. fold g1 in Hm, Hw.
    match goal with
    | |- context [calculateMargin ?x] =>
        destruct (view_only_fields g1 x) as (_ & Hc' & Hm' & Hw' & Hr' & _);
        [apply appendAll_view_only|]
    end.
    unfold row_aligned.
    change (cols (calculateMargin ?x)) with (cols x).
    change (window (calculateMargin ?x)) with (window x).
    change (maxEnd (calculateMargin ?x)) with (maxEnd x).
    change (range (calculateMargin ?x)) with (range x).
    rewrite Hc', Hm', Hw', Hr'.
    assert (Hme : (cols g1 | maxEnd g1 + 1)) by (rewrite Hm; apply Z.divide_factor_r).
    split; [done|]. split; [done|].
    change (range g1) with (mkRange 0 (Z.min (window g1 - 1) (maxEnd g1))).
    cbn [start end_]. split; [apply Z.divide_0_r|].
    replace (Z.min (window g1 - 1) (maxEnd g1) + 1)
      with (Z.min (window g1) (maxEnd g1 + 1)) by lia.
    by apply divide_min. }
  clearbody g0. revert g0 H0.
  induction ops as [|o ops IH]; intros g (Hw & Hm & Ha) Hops; [exact Ha|].
  inversion Hops as [|? ? Ho Hrest]; subst.
  change (run (o :: ops) g) with (run ops (window_step g o)).
  destruct (window_step_layout g o) as (_ & Hc' & Hm' & Hw' & _).
  apply IH.
  - rewrite Hc', Hm', Hw'. split; [done|]. split; [done|].
    by apply window_step_row_aligned.
  - eapply Forall_impl; [exact Hrest|]. intros o'. by rewrite Hc'.
Qed.

Lemma window_keeps_whole_rows_witness :
  (cols (run [ShiftForwards; ShiftRange 8 true; ShiftBackwards]
             (connectedCallback 700 900 (create (sample_items 400))))
   | start (range (run [ShiftForwards; ShiftRange 8 true; ShiftBackwards]
                       (connectedCallback 700 900 (create (sample_items 400))))))
  ∧ (cols (run [ShiftForwards; ShiftRange 8 true; ShiftBackwards]
               (connectedCallback 700 900 (create (sample_items 400))))
     | end_ (range (run [ShiftForwards; ShiftRange 8 true; ShiftBackwards]
                        (connectedCallback 700 900 (create (sample_items 400))))) + 1).
Proof.
  assert (Hops : Forall (λ o, match o with
                              | ShiftRange t _ =>
                                  (cols (connectedCallback 700 900
                                           (create (sample_items 400))) | t)
                              | _ => True
                              end)
                   [ShiftForwards; ShiftRange 8 true; ShiftBackwards]).
  { repeat constructor. exists 2. vm_compute. reflexivity. }
  exact (window_keeps_whole_rows (sample_items 400) 700 900
           [ShiftForwards; ShiftRange 8 true; ShiftBackwards] Hops).
Defined.

(** [adjustRange] asks [shiftRange] for a multiple of [cols]. *)
Lemma adjustRange_target_aligned (r : Readings) (b : bool) (g : ImageGrid) :
  adjustRange_guard r g = true →
  ∃ t, (cols g | t) ∧ adjustRange r b g = (shiftRange t b g, true).
Proof.
  intros Hg. unfold adjustRange. rewrite Hg.
  eexists. split; [|reflexivity]. apply Z.divide_factor_r.
Qed.

(** ** Margin *)

Lemma calculateMargin_margin_ok g : margin_ok (calculateMargin g).
Proof. reflexivity. Qed.

Lemma view_only_margin_ok g g' : view_only g g' → margin_ok g → margin_ok g'.
Proof.
  intros Hv Hm. unfold margin_ok in *.
  destruct (view_only_fields g g' Hv) as (_ & -> & _ & _ & -> & _ & ->). exact Hm.
Qed.

Lemma window_step_margin (g : ImageGrid) (o : WindowOp) : margin_ok (window_step g o).
Proof.
  destruct o as [| |t b]; unfold window_step.
  - unfold shiftForwards, for_up.
    eapply view_only_margin_ok; [apply appendAll_view_only|].
    eapply view_only_margin_ok; [apply removeAll_view_only|].
    apply calculateMargin_margin_ok.
  - unfold shiftBackwards, for_down.
    eapply view_only_margin_ok; [apply removeAll_view_only|].
    eapply view_only_margin_ok; [apply prependAll_view_only|].
    apply calculateMargin_margin_ok.
  - unfold shiftRange, for_up.
    eapply view_only_margin_ok; [apply appendAll_view_only|].
    apply calculateMargin_margin_ok.
Qed.

(** X5: After the attachment and after every window operation the wrapper is
    placed at the row of the range's start:
    [top = 25 + floor (max (start, 0) / cols) * 225]. *)
Theorem margin_follows_range (its : list MediaInfo.t) (width viewportHeight : N)
    (ops : list WindowOp) :
  let g := run ops (connectedCallback width viewportHeight (create its)) in
  wrapperTop g = 25 + Z.max (start (range g)) 0 / cols g * 225.
Proof.
  intros g. unfold g. clear g.
  induction ops as [|o ops IH] using rev_ind.
  - reflexivity.
  - unfold run. rewrite foldl_app. cbn [foldl]. apply window_step_margin.
Qed.

(** ** What is on the surface *)

Lemma delete_first_subset (x y : Z) (l : list Z) : y ∈ delete_first x l → y ∈ l.
Proof.
  induction l as [|z l IH]; [done|]. cbn [delete_first].
  destruct (decide (z = x)); intros Hy; [by right|].
  apply elem_of_cons in Hy as [->|Hy]; [left | right; by apply IH].
Qed.

Lemma id_at_in_collection (its : list MediaInfo.t) (i x : Z) :
  x ∈ id_at its i → x ∈ MediaInfo.id <$> its.
Proof.
  intros Hx. apply elem_of_id_at in Hx as (file & Hf & <-).
  unfold item_at in Hf. destruct (decide (0 ≤ i)); [|done].
  apply list_elem_of_fmap. exists file. split; [done|].
  by apply list_elem_of_lookup_2 with (Z.to_nat i).
Qed.

Lemma replay_within_collection (its : list MediaInfo.t) (cs : list ViewCall) (d : list Z) :
  (∀ x, x ∈ d → x ∈ MediaInfo.id <$> its) →
  ∀ x, x ∈ foldl (replay_call its) d cs → x ∈ MediaInfo.id <$> its.
Proof.
  revert d. induction cs as [|c cs IH]; intros d Hd; [exact Hd|].
  cbn [foldl]. apply IH. intros x Hx. destruct c as [i|i|i]; cbn [replay_call] in Hx.
  - destruct (item_at its i); [|by apply Hd].
    apply Hd. by apply delete_first_subset in Hx.
  - apply elem_of_app in Hx as [Hx|Hx]; [by apply Hd | by apply id_at_in_collection in Hx].
  - apply elem_of_app in Hx as [Hx|Hx]; [by apply id_at_in_collection in Hx | by apply Hd].
Qed.

(** X6: Whatever the window operations called after [setupEditDisplay], with any
    targets and flags, every materialized element is bound to the id of an
    item of the pack; without a pack ([packInfo] null) or with an empty one
    nothing is ever materialized. *)
Theorem surface_within_collection (packInfo : option (list MediaInfo.t))
    (width viewportHeight : N) (ops : list WindowOp) :
  (∀ x, x ∈ surface_ids (run ops (setupEditDisplay packInfo width viewportHeight)) →
        x ∈ MediaInfo.id <$> default [] packInfo)
  ∧ (default [] packInfo = [] →
     surface_ids (run ops (setupEditDisplay packInfo width viewportHeight)) = []).
Proof.
  assert (H : ∀ x, x ∈ surface_ids (run ops (setupEditDisplay packInfo width viewportHeight)) →
                   x ∈ MediaInfo.id <$> default [] packInfo).
  { intros x. unfold setupEditDisplay. rewrite replay_coherent. unfold replay.
    apply replay_within_collection. intros y Hy. by apply elem_of_nil in Hy. }
  split; [exact H|]. intros Hempty.
  destruct (surface_ids _) as [|x l] eqn:Hs; [done|].
  specialize (H x). rewrite Hempty in H.
  exfalso. eapply elem_of_nil. apply H. left.
Qed.

Lemma surface_within_collection_witness :
  surface_ids (run [ShiftForwards; ShiftRange 3 false; ShiftBackwards]
                   (setupEditDisplay None 700 900)) = [].
Proof.
  exact (proj2 (surface_within_collection None 700 900
                  [ShiftForwards; ShiftRange 3 false; ShiftBackwards]) eq_refl).
Defined.

(** X7: On a surface in step with a range of at least a stride, an unclamped
    [shiftForwards] followed by [shiftBackwards] restores the range and the
    elements on the surface. *)
Theorem shift_round_trip_surface (g : ImageGrid) :
  NoDup (MediaInfo.id <$> items g) →
  0 ≤ cols g → 0 ≤ window g → in_step g →
  cols g * 5 ≤ maxEnd g - end_ (range g) →
  cols g * 5 ≤ end_ (range g) + 1 - start (range g) →
  range (shiftBackwards (shiftForwards g)) = range g
  ∧ surface_ids (shiftBackwards (shiftForwards g)) = surface_ids g.
Proof.
  intros Hnd Hc Hw Hin Hf Hlen.
  destruct (op_in_step g ShiftForwards Hnd Hc Hw Hin) as [_ Hin1];
    [cbn [op_admissible]; lia|].
  destruct (shiftForwards_layout g) as (Hi1 & Hc1 & Hm1 & Hw1 & _).
  cbn [window_step] in Hin1.
  destruct (op_in_step (shiftForwards g) ShiftBackwards) as [_ Hin2];
    [by rewrite Hi1 | by rewrite Hc1 | by rewrite Hw1 | done | done |].
  cbn [window_step] in Hin2.
  destruct (shiftBackwards_layout (shiftForwards g)) as (Hi2 & _).
  assert (Hr : range (shiftBackwards (shiftForwards g)) = range g).
  { rewrite shiftBackwards_range, Hc1, shiftForwards_range. cbn [start end_].
    destruct Hin as (_ & H0 & _). destruct (range g) as [s e]. cbn [start end_] in *.
    f_equal; lia. }
  split; [exact Hr|].
  destruct Hin2 as [-> _]. destruct Hin as [-> _]. by rewrite Hr, Hi2, Hi1.
Qed.

Lemma narrow_grid_in_step : in_step (narrow_grid 40).
Proof.
  apply connectedCallback_in_step.
  apply (bool_decide_unpack _). vm_compute. exact I.
Qed.

Lemma shift_round_trip_surface_witness :
  range (shiftBackwards (shiftForwards (narrow_grid 40))) = range (narrow_grid 40)
  ∧ surface_ids (shiftBackwards (shiftForwards (narrow_grid 40)))
    = surface_ids (narrow_grid 40).
Proof.
  assert (Hnd : NoDup (MediaInfo.id <$> items (narrow_grid 40)))
    by (apply (bool_decide_unpack _); vm_compute; exact I).
  assert (Hc : 0 ≤ cols (narrow_grid 40)) by (vm_compute; discriminate).
  assert (Hw : 0 ≤ window (narrow_grid 40)) by (vm_compute; discriminate).
  assert (Hf : cols (narrow_grid 40) * 5
               ≤ maxEnd (narrow_grid 40) - end_ (range (narrow_grid 40)))
    by (vm_compute; discriminate).
  assert (Hl : cols (narrow_grid 40) * 5
               ≤ end_ (range (narrow_grid 40)) + 1 - start (range (narrow_grid 40)))
    by (vm_compute; discriminate).
  exact (shift_round_trip_surface (narrow_grid 40) Hnd Hc Hw narrow_grid_in_step Hf Hl).
Defined.

(** X8: [shiftRange (t, true)] is idempotent on a surface in step: a second call
    with the same target (as the polling [adjustRange] makes while the
    viewport rests) leaves the range and the elements as they are. *)
Theorem shiftRange_idempotent (g : ImageGrid) (t : Z) :
  NoDup (MediaInfo.id <$> items g) →
  0 ≤ cols g → 0 ≤ window g → in_step g → t ≤ maxEnd g + 1 →
  range (shiftRange t true (shiftRange t true g)) = range (shiftRange t true g)
  ∧ surface_ids (shiftRange t true (shiftRange t true g))
    = surface_ids (shiftRange t true g).
Proof.
  intros Hnd Hc Hw Hin Ht.
  destruct (op_in_step g (ShiftRange t true) Hnd Hc Hw Hin) as [_ Hin1]; [done|].
  destruct (shiftRange_layout t true g) as (Hi1 & Hc1 & Hm1 & Hw1 & _).
  cbn [window_step] in Hin1.
  destruct (op_in_step (shiftRange t true g) (ShiftRange t true)) as [_ Hin2];
    [by rewrite Hi1 | by rewrite Hc1 | by rewrite Hw1 | done
    | split; [done | by rewrite Hm1] |].
  cbn [window_step] in Hin2.
  destruct (shiftRange_layout t true (shiftRange t true g)) as (Hi2 & _).
  assert (Hr : range (shiftRange t true (shiftRange t true g))
               = range (shiftRange t true g)).
  { rewrite !shiftRange_range. by rewrite Hw1, Hm1. }
  split; [exact Hr|].
  destruct Hin2 as [-> _]. destruct Hin1 as [-> _]. by rewrite Hr, Hi2.
Qed.

Lemma shiftRange_idempotent_witness :
  range (shiftRange 12 true (shiftRange 12 true (narrow_grid 40)))
  = range (shiftRange 12 true (narrow_grid 40))
  ∧ surface_ids (shiftRange 12 true (shiftRange 12 true (narrow_grid 40)))
    = surface_ids (shiftRange 12 true (narrow_grid 40)).
Proof.
  assert (Hnd : NoDup (MediaInfo.id <$> items (narrow_grid 40)))
    by (apply (bool_decide_unpack _); vm_compute; exact I).
  assert (Hc : 0 ≤ cols (narrow_grid 40)) by (vm_compute; discriminate).
  assert (Hw : 0 ≤ window (narrow_grid 40)) by (vm_compute; discriminate).
  assert (Ht : 12 ≤ maxEnd (narrow_grid 40) + 1) by (vm_compute; discriminate).
  exact (shiftRange_idempotent (narrow_grid 40) 12 Hnd Hc Hw narrow_grid_in_step Ht).
Defined.

(** ** The effect of a shift on the surface *)

Lemma remove_from_empty (its : list MediaInfo.t) (l : list Z) :
  foldl (replay_call its) [] (Removed <$> l) = [].
Proof.
  induction l as [|i l IH]; [done|]. rewrite fmap_cons. cbn [foldl replay_call].
  by destruct (item_at its i).
Qed.

(** The removals and creations of [shiftForwards], played on the items
    [s .. e]: the first [d] of them leave (all of them when there are
    fewer), the items [e + 1 .. e + d] enter at the end. *)
Lemma forwards_surface (its : list MediaInfo.t) (s e d : Z) :
  NoDup (MediaInfo.id <$> its) → 0 ≤ d → s ≤ e + 1 →
  foldl (replay_call its) (ids_between its s e)
        ((Removed <$> seqZ s d) ++ (Appended <$> seqZ (e + 1) d))
  = ids_between its (Z.min (s + d) (e + 1)) (e + d).
Proof.
  intros Hnd Hd Hse. rewrite foldl_app.
  assert (Hrem : foldl (replay_call its) (ids_between its s e) (Removed <$> seqZ s d)
                 = ids_between its (Z.min (s + d) (e + 1)) e).
  { destruct (decide (d ≤ e + 1 - s)) as [Hle|Hgt].
    - destruct (nonneg_of_nat d Hd) as [n ->].
      destruct (points_remove_up its Hnd n s e Hle) as [_ ->]. f_equal. lia.
    - replace d with ((e + 1 - s) + (d - (e + 1 - s))) by lia.
      rewrite seqZ_app by lia. rewrite fmap_app, foldl_app.
      destruct (nonneg_of_nat (e + 1 - s)) as [n Hn]; [lia|]. rewrite Hn.
      destruct (points_remove_up its Hnd n s e) as [_ ->]; [lia|].
      rewrite (ids_between_nil its (s + Z.of_nat n) e) by lia.
      rewrite remove_from_empty. symmetry. apply ids_between_nil. lia. }
  rewrite Hrem. destruct (nonneg_of_nat d Hd) as [n ->].
  destruct (points_append_up its Hnd n (Z.min (s + Z.of_nat n) (e + 1)) e) as [_ ->]; [lia|].
  done.
Qed.

(** The creations and removals of [shiftBackwards], played on the items
    [s .. e]: the items [s - d .. s - 1] enter at the front, then the last
    [d] elements leave. *)
Lemma backwards_surface (its : list MediaInfo.t) (s e d : Z) :
  NoDup (MediaInfo.id <$> its) → 0 ≤ d → s ≤ e + 1 →
  foldl (replay_call its) (ids_between its s e)
        ((Prepended <$> reverse (seqZ (s - d) d))
         ++ (Removed <$> reverse (seqZ (e - d + 1) d)))
  = ids_between its (s - d) (e - d).
Proof.
  intros Hnd Hd Hse. rewrite foldl_app. destruct (nonneg_of_nat d Hd) as [n ->].
  destruct (points_prepend_down its Hnd n s e Hse) as [_ ->].
  destruct (points_remove_down its Hnd n (s - Z.of_nat n) e) as [_ ->]; [lia|].
  done.
Qed.

(** C5: [shiftForwards] moves both bounds by
    [distance = min (cols * 5, maxEnd - end)], calls [removeElement] on exactly
    the indices [oldStart .. oldStart + distance - 1] and then creates and
    appends exactly the indices [oldEnd + 1 .. oldEnd + distance], each in
    ascending order.  On the surface every such removal takes off the element
    of the item at the index and every creation appends the element of the
    item at the index (nothing for an index past the collection): when the
    surface held the items [oldStart .. oldEnd], with distinct ids, it holds
    afterwards those from [oldStart + distance] on (from [oldEnd + 1] when
    the range was shorter than [distance]) up to [oldEnd + distance].  When
    [end = maxEnd] nothing but the (recomputed) margin is touched.  With
    [cols = 4], range [{0, 15}] and [maxEnd = 39] the new range is
    [{20, 35}], [removeElement] is called on 0..19 and 16..35 are created:
    the elements of 0..15 leave the surface and those of 16..35 enter. *)
Theorem C5_shiftForwards (g : ImageGrid) :
  let distance := Z.min (cols g * 5) (maxEnd g - end_ (range g)) in
  let g' := shiftForwards g in
  range g' = mkRange (start (range g) + distance) (end_ (range g) + distance)
  ∧ calls g' = calls g ++ (Removed <$> seqZ (start (range g)) distance)
                       ++ (Appended <$> seqZ (end_ (range g) + 1) distance)
  ∧ surface_ids g'
    = foldl (replay_call (items g)) (surface_ids g)
        ((Removed <$> seqZ (start (range g)) distance)
         ++ (Appended <$> seqZ (end_ (range g) + 1) distance))
  ∧ (NoDup (MediaInfo.id <$> items g) → 0 ≤ cols g → in_step g →
     surface_ids g'
     = ids_between (items g)
         (Z.min (start (range g) + distance) (end_ (range g) + 1))
         (end_ (range g) + distance))
  ∧ (0 < cols g → end_ (range g) = maxEnd g →
     g' = calculateMargin g ∧ range g' = range g
     ∧ itemsNode g' = itemsNode g ∧ calls g' = calls g)
  ∧ (cols g = 4 → range g = mkRange 0 15 → maxEnd g = 39 →
     range g' = mkRange 20 35
     ∧ calls g' = calls g ++ (Removed <$> seqZ 0 20) ++ (Appended <$> seqZ 16 20)
     ∧ (NoDup (MediaInfo.id <$> items g) →
        surface_ids g = ids_between (items g) 0 15 →
        surface_ids g' = ids_between (items g) 16 35)).
Proof.
  intros distance g'.
  assert (Hr : range g' = mkRange (start (range g) + distance) (end_ (range g) + distance))
    by apply shiftForwards_range.
  destruct (window_step_log g ShiftForwards) as [Hc Hs].
  cbn [window_step] in Hc, Hs. unfold op_calls in Hc, Hs. cbv zeta in Hc, Hs.
  fold distance g' in Hc, Hs.
  split; [exact Hr|]. split; [exact Hc|]. split; [exact Hs|].
  split; [|split].
  - intros Hnd Hcols (Hsurf & H0 & Hse & Hem). rewrite Hs, Hsurf.
    apply forwards_surface; [done | unfold distance; lia | done].
  - intros Hpos He. unfold g'. rewrite shiftForwards_at_end by (done || lia).
    by destruct g.
  - intros H4 H015 H39.
    assert (Hd : distance = 20) by (unfold distance; rewrite H4, H015, H39; reflexivity).
    rewrite Hr, Hc, Hs, Hd, H015. cbn [start end_].
    split; [done|]. split; [done|].
    intros Hnd Hsurf. rewrite Hsurf.
    rewrite (forwards_surface (items g) 0 15 20 Hnd) by lia. reflexivity.
Qed.

Lemma filled_scenario_surface :
  surface_ids filled_scenario_grid = ids_between (items filled_scenario_grid) 0 15.
Proof. vm_compute. reflexivity. Qed.

Lemma C5_shiftForwards_witness :
  (range (shiftForwards filled_scenario_grid) = mkRange 20 35
   ∧ calls (shiftForwards filled_scenario_grid)
     = calls filled_scenario_grid ++ (Removed <$> seqZ 0 20) ++ (Appended <$> seqZ 16 20)
   ∧ surface_ids (shiftForwards filled_scenario_grid)
     = ids_between (items filled_scenario_grid) 16 35)
  ∧ surface_ids (shiftForwards (narrow_grid 40))
    = ids_between (items (narrow_grid 40))
        (Z.min (start (range (narrow_grid 40))
                + Z.min (cols (narrow_grid 40) * 5)
                        (maxEnd (narrow_grid 40) - end_ (range (narrow_grid 40))))
               (end_ (range (narrow_grid 40)) + 1))
        (end_ (range (narrow_grid 40))
         + Z.min (cols (narrow_grid 40) * 5)
                 (maxEnd (narrow_grid 40) - end_ (range (narrow_grid 40))))
  ∧ (shiftForwards (sample_grid 10) = calculateMargin (sample_grid 10)
     ∧ range (shiftForwards (sample_grid 10)) = range (sample_grid 10)
     ∧ itemsNode (shiftForwards (sample_grid 10)) = itemsNode (sample_grid 10)
     ∧ calls (shiftForwards (sample_grid 10)) = calls (sample_grid 10)).
Proof.
  split; [|split].
  - assert (H1 : cols filled_scenario_grid = 4) by (vm_compute; reflexivity).
    assert (H2 : range filled_scenario_grid = mkRange 0 15) by (vm_compute; reflexivity).
    assert (H3 : maxEnd filled_scenario_grid = 39) by (vm_compute; reflexivity).
    assert (Hnd : NoDup (MediaInfo.id <$> items filled_scenario_grid))
      by (apply (bool_decide_unpack _); vm_compute; exact I).
    destruct (proj2 (proj2 (proj2 (proj2 (proj2
                (C5_shiftForwards filled_scenario_grid))))) H1 H2 H3)
      as (Hr & Hc & Hs).
    exact (conj Hr (conj Hc (Hs Hnd filled_scenario_surface))).
  - assert (Hnd : NoDup (MediaInfo.id <$> items (narrow_grid 40)))
      by (apply (bool_decide_unpack _); vm_compute; exact I).
    assert (Hc : 0 ≤ cols (narrow_grid 40)) by (vm_compute; discriminate).
    exact (proj1 (proj2 (proj2 (proj2 (C5_shiftForwards (narrow_grid 40)))))
             Hnd Hc narrow_grid_in_step).
  - assert (H1 : 0 < cols (sample_grid 10)) by (vm_compute; reflexivity).
    assert (H2 : end_ (range (sample_grid 10)) = maxEnd (sample_grid 10))
      by (vm_compute; reflexivity).
    exact (proj1 (proj2 (proj2 (proj2 (proj2 (C5_shiftForwards (sample_grid 10))))))
             H1 H2).
Defined.

(** X3: [shiftBackwards] moves both bounds down by
    [distance = min (cols * 5, start)], creates and prepends exactly the
    indices [oldStart - 1] down to [oldStart - distance], and then calls
    [removeElement] on exactly the indices [oldEnd] down to
    [oldEnd - distance + 1].  On the surface every creation puts the element
    of the item at the index in front and every removal takes the element of
    the item at the index off: when the surface held the items
    [oldStart .. oldEnd], with distinct ids, it holds afterwards the items
    [oldStart - distance .. oldEnd - distance].  At [start = 0] nothing but
    the (recomputed) margin is touched. *)
Theorem shiftBackwards_effect (g : ImageGrid) :
  let distance := Z.min (cols g * 5) (start (range g)) in
  range (shiftBackwards g)
  = mkRange (start (range g) - distance) (end_ (range g) - distance)
  ∧ calls (shiftBackwards g)
    = calls g
      ++ (Prepended <$> reverse (seqZ (start (range g) - distance) distance))
      ++ (Removed <$> reverse (seqZ (end_ (range g) - distance + 1) distance))
  ∧ surface_ids (shiftBackwards g)
    = foldl (replay_call (items g)) (surface_ids g)
        ((Prepended <$> reverse (seqZ (start (range g) - distance) distance))
         ++ (Removed <$> reverse (seqZ (end_ (range g) - distance + 1) distance)))
  ∧ (NoDup (MediaInfo.id <$> items g) → 0 ≤ cols g → in_step g →
     surface_ids (shiftBackwards g)
     = ids_between (items g) (start (range g) - distance) (end_ (range g) - distance))
  ∧ (0 < cols g → start (range g) = 0 →
     shiftBackwards g = calculateMargin g
     ∧ itemsNode (shiftBackwards g) = itemsNode g
     ∧ calls (shiftBackwards g) = calls g).
Proof.
  intros distance. split; [apply shiftBackwards_range|].
  destruct (window_step_log g ShiftBackwards) as [Hc Hs].
  cbn [window_step] in Hc, Hs. unfold op_calls in Hc, Hs. cbv zeta in Hc, Hs.
  fold distance in Hc, Hs.
  split; [exact Hc|]. split; [exact Hs|]. split.
  - intros Hnd Hcols (Hsurf & H0 & Hse & Hem). rewrite Hs, Hsurf.
    apply backwards_surface; [done | unfold distance; lia | done].
  - intros Hcols Hstart. rewrite shiftBackwards_at_start by (done || lia). by destruct g.
Qed.

Lemma window_step_ShiftRange (g : ImageGrid) (t : Z) (b : bool) :
  window_step g (ShiftRange t b) = shiftRange t b g.
Proof. reflexivity. Qed.

Lemma shifted_narrow_grid_in_step : in_step (shiftRange 12 true (narrow_grid 40)).
Proof.
  assert (Hnd : NoDup (MediaInfo.id <$> items (narrow_grid 40)))
    by (apply (bool_decide_unpack _); vm_compute; exact I).
  assert (Hc : 0 ≤ cols (narrow_grid 40)) by (vm_compute; discriminate).
  assert (Hw : 0 ≤ window (narrow_grid 40)) by (vm_compute; discriminate).
  assert (Ha : op_admissible (narrow_grid 40) (ShiftRange 12 true))
    by (split; [reflexivity | vm_compute; discriminate]).
  destruct (op_in_step (narrow_grid 40) (ShiftRange 12 true) Hnd Hc Hw
              narrow_grid_in_step Ha) as [_ H].
  rewrite window_step_ShiftRange in H. exact H.
Qed.

Lemma shiftBackwards_effect_witness :
  surface_ids (shiftBackwards (shiftRange 12 true (narrow_grid 40)))
  = ids_between (items (shiftRange 12 true (narrow_grid 40)))
      (start (range (shiftRange 12 true (narrow_grid 40)))
       - Z.min (cols (shiftRange 12 true (narrow_grid 40)) * 5)
               (start (range (shiftRange 12 true (narrow_grid 40)))))
      (end_ (range (shiftRange 12 true (narrow_grid 40)))
       - Z.min (cols (shiftRange 12 true (narrow_grid 40)) * 5)
               (start (range (shiftRange 12 true (narrow_grid 40)))))
  ∧ (shiftBackwards (sample_grid 10) = calculateMargin (sample_grid 10)
     ∧ itemsNode (shiftBackwards (sample_grid 10)) = itemsNode (sample_grid 10)
     ∧ calls (shiftBackwards (sample_grid 10)) = calls (sample_grid 10)).
Proof.
  split.
  - assert (Hnd : NoDup (MediaInfo.id <$> items (shiftRange 12 true (narrow_grid 40))))
      by (apply (bool_decide_unpack _); vm_compute; exact I).
    assert (Hc : 0 ≤ cols (shiftRange 12 true (narrow_grid 40)))
      by (vm_compute; discriminate).
    exact (proj1 (proj2 (proj2 (proj2
             (shiftBackwards_effect (shiftRange 12 true (narrow_grid 40))))))
             Hnd Hc shifted_narrow_grid_in_step).
  - assert (H1 : 0 < cols (sample_grid 10)) by (vm_compute; reflexivity).
    assert (H2 : start (range (sample_grid 10)) = 0) by (vm_compute; reflexivity).
    exact (proj2 (proj2 (proj2 (proj2 (shiftBackwards_effect (sample_grid 10))))) H1 H2).
Defined.

(** ** Resize *)




Lemma sample_grid_in_step : in_step (sample_grid 10).
Proof.
  apply connectedCallback_in_step.
  apply (bool_decide_unpack _). vm_compute. exact I.
Qed.





(** ** Sentinel loops *)

(** X11: The backward loop needs at most [start] rounds; it never moves [start]
    below 0 and leaves with [start = 0] or with the sentinel far. *)
Theorem startSentinelLoop_result (far : ImageGrid → bool) (fuel : nat) (g : ImageGrid) :
  1 ≤ cols g → 0 ≤ start (range g) → start (range g) ≤ Z.of_nat fuel →
  ∃ g', startSentinelLoop (S fuel) far g = Some g'
        ∧ 0 ≤ start (range g')
        ∧ (start (range g') = 0 ∨ far g' = true).
Proof.
  revert g. induction fuel as [|fuel IH]; intros g Hc H0 Hs.
  - exists g. cbn [startSentinelLoop]. rewrite decide_False by lia.
    split; [done|]. split; [done|]. left. lia.
  - change (startSentinelLoop (S (S fuel)) far g)
      with (if decide (start (range g) > 0)
            then (if far (shiftBackwards g) then Some (shiftBackwards g)
                  else startSentinelLoop (S fuel) far (shiftBackwards g))
            else Some g).
    destruct (decide (start (range g) > 0)) as [Hpos|Hz].
    + assert (Hr : 0 ≤ start (range (shiftBackwards g))
                   ∧ start (range (shiftBackwards g)) ≤ Z.of_nat fuel)
        by (rewrite shiftBackwards_range; cbn [start]; lia).
      destruct (far (shiftBackwards g)) eqn:Hfar.
      * exists (shiftBackwards g). split; [done|]. split; [tauto|]. by right.
      * apply IH; [|tauto|tauto].
        destruct (shiftBackwards_layout g) as (_ & -> & _). done.
    + exists g. split; [done|]. split; [done|]. left. lia.
Qed.

Lemma startSentinelLoop_result_witness :
  ∃ g', startSentinelLoop 13 (λ _, false) (shiftRange 12 true (narrow_grid 40)) = Some g'
        ∧ 0 ≤ start (range g')
        ∧ (start (range g') = 0 ∨ (λ _ : ImageGrid, false) g' = true).
Proof.
  assert (Hc : 1 ≤ cols (shiftRange 12 true (narrow_grid 40)))
    by (vm_compute; discriminate).
  assert (H0 : 0 ≤ start (range (shiftRange 12 true (narrow_grid 40))))
    by (vm_compute; discriminate).
  assert (Hs : start (range (shiftRange 12 true (narrow_grid 40))) ≤ Z.of_nat 12)
    by (vm_compute; discriminate).
  exact (startSentinelLoop_result (λ _, false) 12
           (shiftRange 12 true (narrow_grid 40)) Hc H0 Hs).
Defined.

(** X12: When the last row is padded ([items.length - 1 < maxEnd]) the forward
    loop needs at most [items.length - end] rounds; it never moves [end]
    beyond [maxEnd] and leaves with [end] past the last item or with the
    sentinel far. *)
Theorem endSentinelLoop_result (far : ImageGrid → bool) (fuel : nat) (g : ImageGrid) :
  1 ≤ cols g → length_items g - 1 < maxEnd g → end_ (range g) ≤ maxEnd g →
  length_items g - end_ (range g) ≤ Z.of_nat fuel →
  ∃ g', endSentinelLoop (S fuel) far g = Some g'
        ∧ end_ (range g') ≤ maxEnd g
        ∧ (length_items g - 1 < end_ (range g') ∨ far g' = true).
Proof.
  revert g. induction fuel as [|fuel IH]; intros g Hc Hm He Hf.
  - exists g. cbn [endSentinelLoop]. rewrite decide_False by lia.
    split; [done|]. split; [done|]. left. lia.
  - change (endSentinelLoop (S (S fuel)) far g)
      with (if decide (end_ (range g) ≤ length_items g - 1)
            then (if far (shiftForwards g) then Some (shiftForwards g)
                  else endSentinelLoop (S fuel) far (shiftForwards g))
            else Some g).
    destruct (decide (end_ (range g) ≤ length_items g - 1)) as [Hin|Hout].
    + destruct (shiftForwards_layout g) as (Hi & Hcols & Hmax & _).
      assert (Hlen : length_items (shiftForwards g) = length_items g)
        by (unfold length_items; by rewrite Hi).
      assert (Hr : end_ (range (shiftForwards g)) ≤ maxEnd g
                   ∧ length_items g - end_ (range (shiftForwards g)) ≤ Z.of_nat fuel)
        by (rewrite shiftForwards_range; cbn [end_]; lia).
      destruct (far (shiftForwards g)) eqn:Hfar.
      * exists (shiftForwards g). split; [done|]. split; [tauto|]. by right.
      * destruct (IH (shiftForwards g)) as (g' & Hrun & He' & Hres);
          [by rewrite Hcols | by rewrite Hlen, Hmax | rewrite Hmax; tauto
          | rewrite Hlen; tauto |].
        exists g'. split; [done|]. rewrite Hmax, Hlen in *. done.
    + exists g. split; [done|]. split; [done|]. left. lia.
Qed.

Lemma endSentinelLoop_result_witness :
  ∃ g', endSentinelLoop 264 (λ _, false) (sample_grid 398) = Some g'
        ∧ end_ (range g') ≤ maxEnd (sample_grid 398)
        ∧ (length_items (sample_grid 398) - 1 < end_ (range g')
           ∨ (λ _ : ImageGrid, false) g' = true).
Proof.
  assert (Hc : 1 ≤ cols (sample_grid 398)) by (vm_compute; discriminate).
  assert (Hm : length_items (sample_grid 398) - 1 < maxEnd (sample_grid 398))
    by (vm_compute; reflexivity).
  assert (He : end_ (range (sample_grid 398)) ≤ maxEnd (sample_grid 398))
    by (vm_compute; discriminate).
  assert (Hf : length_items (sample_grid 398) - end_ (range (sample_grid 398))
               ≤ Z.of_nat 263) by (vm_compute; discriminate).
  exact (endSentinelLoop_result (λ _, false) 263 (sample_grid 398) Hc Hm He Hf).
Defined.

(** ** Selection and the elements *)

Lemma selection_frame_refl g : selection_frame g g.
Proof. by repeat split. Qed.

Lemma selection_frame_trans g1 g2 g3 :
  selection_frame g1 g2 → selection_frame g2 g3 → selection_frame g1 g3.
Proof. unfold selection_frame. intuition congruence. Qed.

Lemma ids_set_attr_first (i : Z) (v : bool) (l : list AssetElement.t) :
  AssetElement.id <$> set_attr_first i v l = AssetElement.id <$> l.
Proof.
  induction l as [|e l IH]; [done|]. cbn [set_attr_first].
  destruct (decide (AssetElement.id e = i)); rewrite !fmap_cons; [done|].
  f_equal. exact IH.
Qed.

Lemma setSelected_frame i v g : selection_frame g (setSelected i v g).
Proof.
  unfold selection_frame, setSelected, surface_ids.
  cbn [items cols maxEnd window range itemsNode calls dialogFile wrapperTop
       set_itemsNode set_selected].
  rewrite ids_set_attr_first. by repeat split.
Qed.

Lemma setPrimary_frame p g : selection_frame g (setPrimary p g).
Proof. unfold setPrimary. repeat case_match; by repeat split. Qed.

Lemma updateSelected_frame g : selection_frame g (updateSelected g).
Proof. unfold updateSelected. case_match; by repeat split. Qed.

Lemma setPrimary_itemsNode p g : itemsNode (setPrimary p g) = itemsNode g.
Proof. unfold setPrimary. repeat case_match; reflexivity. Qed.

Lemma setPrimary_text p g : selectedText (setPrimary p g) = selectedText g.
Proof. unfold setPrimary. repeat case_match; reflexivity. Qed.

Lemma updateSelected_text g :
  selectedText (updateSelected g) = summary (size (Selected.selected (selected g))).
Proof.
  unfold updateSelected, summary.
  destruct (size (Selected.selected (selected g))) as [|[|n]]; reflexivity.
Qed.

(** Deselecting a list of ids one by one. *)
Lemma deselect_all (l : list Z) (g : ImageGrid) :
  let g' := foldl (λ g i, setSelected i false g) g l in
  selection_frame g g'
  ∧ Selected.selected (selected g') = Selected.selected (selected g) ∖ list_to_set l
  ∧ Selected.primary (selected g') = Selected.primary (selected g)
  ∧ selectedText g' = selectedText g.
Proof.
  revert g. induction l as [|i l IH]; intros g; cbn [foldl].
  - split; [apply selection_frame_refl|]. split; [|done].
    cbn [list_to_set]. apply set_eq. intros x.
    rewrite elem_of_difference. split; [|tauto].
    intros Hx. split; [done|]. apply not_elem_of_empty.
  - destruct (IH (setSelected i false g)) as (Hf & Hs & Hp & Ht).
    split; [eapply selection_frame_trans; [apply setSelected_frame | exact Hf]|].
    split; [|split; [by rewrite Hp | by rewrite Ht]].
    rewrite Hs, setSelected_selected. cbn [Selected.selected list_to_set].
    apply set_eq. intros x.
    rewrite !elem_of_difference, elem_of_union, elem_of_singleton. tauto.
Qed.

Lemma clearSelected_effect (g : ImageGrid) :
  selection_frame g (clearSelected g)
  ∧ Selected.selected (selected (clearSelected g)) = ∅
  ∧ Selected.primary (selected (clearSelected g)) = None
  ∧ selectedText (clearSelected g) = selectedText g.
Proof.
  unfold clearSelected.
  destruct (deselect_all (elements (Selected.selected (selected g))) g)
    as (Hf & Hs & _ & Ht).
  split; [eapply selection_frame_trans; [exact Hf | apply setPrimary_frame]|].
  rewrite setPrimary_selected, setPrimary_text. cbn [Selected.selected Selected.primary].
  split; [|done]. rewrite Hs. apply set_eq. intros x.
  rewrite elem_of_difference, elem_of_list_to_set, elem_of_elements.
  split; [tauto|]. intros Hx. by apply not_elem_of_empty in Hx.
Qed.

(** *** The [selected] attribute *)

Lemma set_attr_first_attrs (i : Z) (v : bool) (l : list AssetElement.t) (f : Z → bool) :
  NoDup (AssetElement.id <$> l) →
  (∀ e, e ∈ l → AssetElement.selected e = f (AssetElement.id e)) →
  ∀ e, e ∈ set_attr_first i v l →
       AssetElement.selected e = if decide (AssetElement.id e = i) then v
                                 else f (AssetElement.id e).
Proof.
  induction l as [|x l IH]; intros Hnd Hl e He; [by apply elem_of_nil in He|].
  rewrite fmap_cons in Hnd. apply NoDup_cons in Hnd as [Hx Hnd].
  cbn [set_attr_first] in He.
  destruct (decide (AssetElement.id x = i)) as [Hxi|Hxi].
  - apply elem_of_cons in He as [->|He].
    + cbn. by rewrite decide_True.
    + rewrite decide_False.
      * apply Hl. by right.
      * intros Hei. apply Hx. rewrite Hxi, <- Hei.
        apply list_elem_of_fmap. by exists e.
  - apply elem_of_cons in He as [->|He].
    + rewrite decide_False by done. apply Hl. left.
    + apply IH; [done| |done]. intros e' He'. apply Hl. by right.
Qed.

Lemma setSelected_sync i v g :
  NoDup (surface_ids g) → attrs_in_sync g → attrs_in_sync (setSelected i v g).
Proof.
  intros Hnd Hs e He. unfold setSelected in *.
  cbn [itemsNode selected set_itemsNode set_selected Selected.selected] in *.
  rewrite (set_attr_first_attrs i v (itemsNode g)
             (λ x, bool_decide (x ∈ Selected.selected (selected g))) Hnd Hs e He).
  destruct (decide (AssetElement.id e = i)) as [->|Hne]; destruct v.
  - symmetry. apply bool_decide_eq_true.
    rewrite elem_of_union, elem_of_singleton. by left.
  - symmetry. apply bool_decide_eq_false.
    rewrite elem_of_difference, elem_of_singleton. tauto.
  - apply bool_decide_ext. rewrite elem_of_union, elem_of_singleton. tauto.
  - apply bool_decide_ext. rewrite elem_of_difference, elem_of_singleton. tauto.
Qed.

Lemma sync_of_same_view g g' :
  itemsNode g' = itemsNode g → selected g' = selected g →
  attrs_in_sync g → attrs_in_sync g'.
Proof. unfold attrs_in_sync. intros -> ->. done. Qed.

Lemma setPrimary_sync p g : attrs_in_sync g → attrs_in_sync (setPrimary p g).
Proof.
  intros Hs e He. rewrite setPrimary_itemsNode in He.
  rewrite setPrimary_selected. cbn [Selected.selected]. by apply Hs.
Qed.

Lemma updateSelected_sync g : attrs_in_sync g → attrs_in_sync (updateSelected g).
Proof.
  apply sync_of_same_view; [|apply updateSelected_selected].
  unfold updateSelected. case_match; reflexivity.
Qed.

Lemma deselect_all_sync (l : list Z) (g : ImageGrid) :
  NoDup (surface_ids g) → attrs_in_sync g →
  attrs_in_sync (foldl (λ g i, setSelected i false g) g l).
Proof.
  revert g. induction l as [|i l IH]; intros g Hnd Hs; [done|]. cbn [foldl].
  apply IH; [|by apply setSelected_sync].
  destruct (setSelected_frame i false g) as (_ & _ & _ & _ & _ & -> & _). done.
Qed.

Lemma clearSelected_sync g :
  NoDup (surface_ids g) → attrs_in_sync g → attrs_in_sync (clearSelected g).
Proof. intros Hnd Hs. unfold clearSelected. by apply setPrimary_sync, deselect_all_sync. Qed.

(** The view operations keep the attribute in step with the set. *)
Lemma removeElement_sync g i : attrs_in_sync g → attrs_in_sync (removeElement g i).
Proof.
  intros Hs e He.
  destruct (view_only_fields g _ (removeElement_view_only g i))
    as (_ & _ & _ & _ & _ & -> & _).
  apply Hs. unfold removeElement in He.
  change (in_bounds (record_call (Removed i) g) i) with (in_bounds g i) in He.
  cbn [record_call items itemsNode] in He.
  destruct (in_bounds g i); [|exact He].
  destruct (item_at (items g) i) as [file|]; [|exact He].
  cbn [itemsNode set_itemsNode] in He.
  clear -He. induction (itemsNode g) as [|x l IH]; [done|].
  cbn [remove_first] in He. destruct (decide (AssetElement.id x = MediaInfo.id file)).
  - by right.
  - apply elem_of_cons in He as [->|He]; [left | right; by apply IH].
Qed.

Lemma createElement_attr g i e :
  createElement g i = Some e →
  AssetElement.selected e
  = bool_decide (AssetElement.id e ∈ Selected.selected (selected g)).
Proof.
  unfold createElement. destruct (in_bounds g i); [|done].
  destruct (item_at (items g) i); [|done]. cbn. by intros [= <-].
Qed.

Lemma appendElement_sync g i : attrs_in_sync g → attrs_in_sync (appendElement g i).
Proof.
  intros Hs e He.
  destruct (view_only_fields g _ (appendElement_view_only g i))
    as (_ & _ & _ & _ & _ & -> & _).
  unfold appendElement in He.
  change (createElement (record_call (Appended i) g) i) with (createElement g i) in He.
  destruct (createElement g i) as [x|] eqn:Hx; cbn [itemsNode set_itemsNode record_call] in He.
  - apply elem_of_app in He as [He|He]; [by apply Hs|].
    apply list_elem_of_singleton in He as ->. by apply (createElement_attr g i).
  - by apply Hs.
Qed.

Lemma prependElement_sync g i : attrs_in_sync g → attrs_in_sync (prependElement g i).
Proof.
  intros Hs e He.
  destruct (view_only_fields g _ (prependElement_view_only g i))
    as (_ & _ & _ & _ & _ & -> & _).
  unfold prependElement in He.
  change (createElement (record_call (Prepended i) g) i) with (createElement g i) in He.
  destruct (createElement g i) as [x|] eqn:Hx; cbn [itemsNode set_itemsNode record_call] in He.
  - apply elem_of_cons in He as [->|He]; [by apply (createElement_attr g i) | by apply Hs].
  - by apply Hs.
Qed.

Lemma foldl_sync (body : ImageGrid → Z → ImageGrid) (l : list Z) :
  (∀ g i, attrs_in_sync g → attrs_in_sync (body g i)) →
  ∀ g, attrs_in_sync g → attrs_in_sync (foldl body g l).
Proof.
  intros Hb. induction l as [|i l IH]; intros g Hs; [done|]. cbn [foldl].
  by apply IH, Hb.
Qed.

Lemma sync_after_margin r g :
  attrs_in_sync g → attrs_in_sync (calculateMargin (set_range r g)).
Proof. by apply sync_of_same_view. Qed.

Lemma window_step_sync g o : attrs_in_sync g → attrs_in_sync (window_step g o).
Proof.
  intros Hs. destruct o as [| |t b]; unfold window_step.
  - unfold shiftForwards, for_up.
    apply foldl_sync; [apply appendElement_sync|].
    apply foldl_sync; [apply removeElement_sync|]. by apply sync_after_margin.
  - unfold shiftBackwards, for_down.
    apply foldl_sync; [apply removeElement_sync|].
    apply foldl_sync; [apply prependElement_sync|]. by apply sync_after_margin.
  - unfold shiftRange, for_up.
    apply foldl_sync; [apply appendElement_sync|]. apply sync_after_margin.
    destruct b; [|done]. by apply foldl_sync; [apply removeElement_sync|].
Qed.

Lemma same_selection_trans g1 g2 g3 :
  same_selection g1 g2 → same_selection g2 g3 → same_selection g1 g3.
Proof. unfold same_selection. intuition congruence. Qed.

Lemma view_only_same_selection g g' : view_only g g' → same_selection g g'.
Proof. intros ->. by destruct g. Qed.

Lemma window_step_same_selection g o : same_selection g (window_step g o).
Proof.
  destruct o as [| |t b]; unfold window_step.
  - unfold shiftForwards, for_up.
    eapply same_selection_trans; [|apply view_only_same_selection, appendAll_view_only].
    eapply same_selection_trans; [|apply view_only_same_selection, removeAll_view_only].
    by repeat split.
  - unfold shiftBackwards, for_down.
    eapply same_selection_trans; [|apply view_only_same_selection, removeAll_view_only].
    eapply same_selection_trans; [|apply view_only_same_selection, prependAll_view_only].
    by repeat split.
  - unfold shiftRange, for_up.
    eapply same_selection_trans; [|apply view_only_same_selection, appendAll_view_only].
    eapply same_selection_trans with
      (g2 := if b then foldl removeElement g
                    (seqZ (start (range g)) (end_ (range g) + 1 - start (range g)))
             else g).
    + destruct b; [apply view_only_same_selection, removeAll_view_only | by repeat split].
    + by repeat split.
Qed.

(** X13: Scrolling never touches the selection, the dialog or the summary, and
    every element it creates shows the selection state of its id: from the
    attachment on, for any window operations, the [selected] attribute of
    each materialized element tells whether its id is selected. *)
Theorem scrolling_keeps_selection (g : ImageGrid) (ops : list WindowOp) :
  attrs_in_sync g →
  attrs_in_sync (run ops g)
  ∧ selected (run ops g) = selected g
  ∧ dialogFile (run ops g) = dialogFile g
  ∧ selectedText (run ops g) = selectedText g.
Proof.
  revert g. induction ops as [|o ops IH]; intros g Hs; [done|].
  change (run (o :: ops) g) with (run ops (window_step g o)).
  destruct (IH (window_step g o) (window_step_sync g o Hs)) as (H1 & H2 & H3 & H4).
  destruct (window_step_same_selection g o) as (H2' & H3' & H4').
  split; [exact H1|]. by rewrite H2, H3, H4.
Qed.

Lemma create_in_sync its : attrs_in_sync (create its).
Proof. intros e He. by apply elem_of_nil in He. Qed.

Lemma connectedCallback_sync width viewportHeight its :
  attrs_in_sync (connectedCallback width viewportHeight (create its)).
Proof.
  unfold connectedCallback, for_up.
  apply sync_of_same_view with
    (g := foldl appendElement (calculateLayout width viewportHeight (create its))
            (seqZ (start (range (calculateLayout width viewportHeight (create its))))
               (end_ (range (calculateLayout width viewportHeight (create its))) + 1
                - start (range (calculateLayout width viewportHeight (create its))))));
    [done|done|].
  apply foldl_sync; [apply appendElement_sync|].
  intros e He. by apply elem_of_nil in He.
Qed.

Lemma scrolling_keeps_selection_witness :
  attrs_in_sync (run [ShiftForwards; ShiftRange 3 true] anchored_grid)
  ∧ selected (run [ShiftForwards; ShiftRange 3 true] anchored_grid) = selected anchored_grid
  ∧ dialogFile (run [ShiftForwards; ShiftRange 3 true] anchored_grid)
    = dialogFile anchored_grid
  ∧ selectedText (run [ShiftForwards; ShiftRange 3 true] anchored_grid)
    = selectedText anchored_grid.
Proof.
  assert (Hs : attrs_in_sync anchored_grid).
  { apply setPrimary_sync, setSelected_sync.
    - apply (bool_decide_unpack _). vm_compute. exact I.
    - apply connectedCallback_sync. }
  exact (scrolling_keeps_selection anchored_grid [ShiftForwards; ShiftRange 3 true] Hs).
Defined.

(** ** Clicks *)

(** Ids below [10^21] in magnitude are read back as they are. *)
Lemma parseInt_id_small (id : Z) : Z.abs id < 10 ^ 21 → parseInt_id id = id.
Proof. intros H. unfold parseInt_id. by rewrite decide_True. Qed.

(** From [10^21] on the listeners read one digit: [(1e21).toString ()] is
    ["1e+21"], and the float nearest to [2e23], which is below it, prints as
    ["2e+23"]. *)
Example parseInt_id_exponent :
  parseInt_id (10 ^ 21) = 1
  ∧ parseInt_id 199999999999999983222784 = 2
  ∧ parseInt_id (- (15 * 10 ^ 20)) = -1
  ∧ parseInt_id (10 ^ 21 - 131072) = 10 ^ 21 - 131072.
Proof. vm_compute. done. Qed.

(** A ctrl-click on the element of an item of id [10^21] selects 1, which is
    not the id of an item. *)
Example click_on_exponent_id :
  ∃ g', mousedown (mkMouse 0 false true) (MediaInfo.mk (10 ^ 21) "file" image)
          (connectedCallback 700 900 (create [MediaInfo.mk (10 ^ 21) "file" image]))
        = Some g'
    ∧ Selected.selected (selected g') = {[1]}
    ∧ Selected.primary (selected g') = Some 1
    ∧ 1 ∉ MediaInfo.id <$> items g'.
Proof.
  eexists. split; [vm_compute; reflexivity|].
  split; [vm_compute; reflexivity|]. split; [vm_compute; reflexivity|].
  apply (bool_decide_unpack _). vm_compute. exact I.
Qed.

Lemma mousedown_unfold ev file g :
  mousedown ev file g
  = if decide (button ev = 3 ∨ button ev = 4) then Some g
    else g1 ← mousedownBranch ev (parseInt_id (MediaInfo.id file)) g;
         if decide (button ev = 1) then Some (showFileDialog file g1)
         else Some (updateSelected g1).
Proof. reflexivity. Qed.

Lemma foldl_throw_None {A} (body : ImageGrid → A → option ImageGrid) (l : list A) :
  foldl (λ r i, g ← r; body g i) None l = None.
Proof. induction l as [|i l IH]; [done|]. cbn [foldl]. exact IH. Qed.

(** What every step of the selection primitives keeps, the loop of the
    shift-click keeps. *)
Lemma select_loop_inv (P : ImageGrid → Prop) (l : list Z) (g g' : ImageGrid) :
  (∀ g i, P g → P (setSelected i true g)) → P g →
  foldl (λ r i, g0 ← r; it ← item_at (items g0) i;
                Some (setSelected (MediaInfo.id it) true g0)) (Some g) l = Some g' →
  P g'.
Proof.
  intros Hstep. revert g. induction l as [|i l IH]; intros g Hg Hrun.
  - cbn [foldl] in Hrun. by injection Hrun as <-.
  - cbn [foldl] in Hrun. cbn [mbind option_bind] in Hrun.
    destruct (item_at (items g) i) as [it|].
    + cbn [mbind option_bind] in Hrun. eapply IH; [|exact Hrun]. by apply Hstep.
    + cbn [mbind option_bind] in Hrun. by rewrite foldl_throw_None in Hrun.
Qed.

Lemma clearSelected_inv (P : ImageGrid → Prop) (g : ImageGrid) :
  (∀ g i v, P g → P (setSelected i v g)) → (∀ g p, P g → P (setPrimary p g)) →
  P g → P (clearSelected g).
Proof.
  intros Hsel Hprim Hg. unfold clearSelected. apply Hprim.
  generalize (elements (Selected.selected (selected g))). intros l.
  revert g Hg. induction l as [|i l IH]; intros g Hg; [done|].
  cbn [foldl]. by apply IH, Hsel.
Qed.

Lemma mousedownBranch_inv (P : ImageGrid → Prop) ev id g g1 :
  (∀ g i v, P g → P (setSelected i v g)) → (∀ g p, P g → P (setPrimary p g)) →
  P g → mousedownBranch ev id g = Some g1 → P g1.
Proof.
  intros Hsel Hprim Hg. unfold mousedownBranch.
  destruct (if shiftKey ev then Selected.primary (selected g) else None) as [a|].
  - unfold shiftClickBranch, for_up_throw.
    destruct (if decide (findIndex a (items g) > findIndex id (items g))
              then (findIndex id (items g), findIndex a (items g))
              else (findIndex a (items g), findIndex id (items g))) as [s e].
    destruct (foldl _ (Some g) _) as [g0|] eqn:Hrun; [|done].
    cbn [mbind option_bind]. intros [= <-]. apply Hprim.
    eapply select_loop_inv; [|exact Hg|exact Hrun]. intros; by apply Hsel.
  - destruct (ctrlKey ev).
    + intros [= <-]. unfold ctrlClickBranch.
      repeat case_match; repeat first [apply Hprim | apply Hsel]; done.
    + intros [= <-]. unfold plainClickBranch.
      destruct (decide (button ev = 0 ∨ id ∉ Selected.selected (selected g))); [|done].
      apply Hprim, Hsel. by apply clearSelected_inv.
Qed.

Lemma mousedown_inv (P : ImageGrid → Prop) ev file g g' :
  (∀ g i v, P g → P (setSelected i v g)) → (∀ g p, P g → P (setPrimary p g)) →
  (∀ g, P g → P (updateSelected g)) → (∀ g f, P g → P (showFileDialog f g)) →
  P g → mousedown ev file g = Some g' → P g'.
Proof.
  intros Hsel Hprim Hupd Hshow Hg. rewrite mousedown_unfold.
  destruct (decide (button ev = 3 ∨ button ev = 4)); [by intros [= <-]|].
  destruct (mousedownBranch ev (parseInt_id (MediaInfo.id file)) g) as [g1|] eqn:Hb;
    [|done].
  cbn [mbind option_bind].
  pose proof (mousedownBranch_inv P ev _ g g1 Hsel Hprim Hg Hb) as H1.
  destruct (decide (button ev = 1)); intros [= <-]; [by apply Hshow | by apply Hupd].
Qed.

(** X14: A click never creates or removes an element and never moves the window;
    when the surface holds one element per id, it leaves the [selected]
    attribute of every element in step with the selected set. *)
Theorem click_keeps_elements_in_sync (g g' : ImageGrid) (ev : MouseEvent)
    (file : MediaInfo.t) :
  NoDup (surface_ids g) → attrs_in_sync g →
  mousedown ev file g = Some g' →
  attrs_in_sync g'
  ∧ surface_ids g' = surface_ids g ∧ range g' = range g
  ∧ items g' = items g ∧ calls g' = calls g.
Proof.
  intros Hnd Hs Hrun.
  apply (mousedown_inv
           (λ g1, attrs_in_sync g1 ∧ surface_ids g1 = surface_ids g ∧ range g1 = range g
                  ∧ items g1 = items g ∧ calls g1 = calls g) ev file g g');
    [| | | | by repeat split | exact Hrun].
  - intros g1 i v (H1 & H2 & H3 & H4 & H5).
    destruct (setSelected_frame i v g1) as (Hi & _ & _ & _ & Hr & Hsurf & Hc & _).
    split; [apply setSelected_sync; [by rewrite H2 | done]|].
    by rewrite Hsurf, Hr, Hi, Hc.
  - intros g1 p (H1 & H2 & H3 & H4 & H5).
    destruct (setPrimary_frame p g1) as (Hi & _ & _ & _ & Hr & Hsurf & Hc & _).
    split; [by apply setPrimary_sync|]. by rewrite Hsurf, Hr, Hi, Hc.
  - intros g1 (H1 & H2 & H3 & H4 & H5).
    destruct (updateSelected_frame g1) as (Hi & _ & _ & _ & Hr & Hsurf & Hc & _).
    split; [by apply updateSelected_sync|]. by rewrite Hsurf, Hr, Hi, Hc.
  - intros g1 f (H1 & H2 & H3 & H4 & H5). split; [|done].
    by apply (sync_of_same_view g1).
Qed.

Lemma sample_grid_sync : attrs_in_sync (sample_grid 10).
Proof. apply connectedCallback_sync. Qed.

Lemma click_keeps_elements_in_sync_witness :
  ∃ g', mousedown (mkMouse 0 false true) (sample_file 7) (sample_grid 10) = Some g'
        ∧ attrs_in_sync g'
        ∧ surface_ids g' = surface_ids (sample_grid 10).
Proof.
  assert (Hnd : NoDup (surface_ids (sample_grid 10)))
    by (apply (bool_decide_unpack _); vm_compute; exact I).
  assert (Hrun : mousedown (mkMouse 0 false true) (sample_file 7) (sample_grid 10)
                 = Some (updateSelected (ctrlClickBranch 7 (sample_grid 10))))
    by reflexivity.
  exists (updateSelected (ctrlClickBranch 7 (sample_grid 10))).
  split; [exact Hrun|].
  destruct (click_keeps_elements_in_sync (sample_grid 10)
              (updateSelected (ctrlClickBranch 7 (sample_grid 10)))
              (mkMouse 0 false true) (sample_file 7) Hnd sample_grid_sync Hrun)
    as (H1 & H2 & _).
  exact (conj H1 H2).
Defined.

(** *** Valid selections *)

(** The effect of the shift-click branch when both ids are in the
    collection. *)
Lemma shiftClickBranch_effect (a b : Z) (g : ImageGrid) :
  a ∈ MediaInfo.id <$> items g → b ∈ MediaInfo.id <$> items g →
  ∃ g1, shiftClickBranch a b g = Some (setPrimary (Some b) g1)
    ∧ items g1 = items g
    ∧ ∀ x, x ∈ Selected.selected (selected g1) ↔
           x ∈ Selected.selected (selected g)
           ∨ ∃ i it, Z.min (findIndex a (items g)) (findIndex b (items g)) ≤ i
                       ≤ Z.max (findIndex a (items g)) (findIndex b (items g))
                     ∧ item_at (items g) i = Some it ∧ MediaInfo.id it = x.
Proof.
  intros Ha Hb.
  destruct (findIndex_found a (items g) Ha) as [Hpa _].
  destruct (findIndex_found b (items g) Hb) as [Hpb _].
  set (pa := findIndex a (items g)) in *. set (pb := findIndex b (items g)) in *.
  destruct (select_positions (seqZ (Z.min pa pb) (Z.max pa pb + 1 - Z.min pa pb)) g)
    as (g1 & Hrun & Hi & _ & Hs).
  { intros i Hi. apply elem_of_seqZ in Hi. apply item_at_is_Some. lia. }
  exists g1. split; [|split; [exact Hi|]].
  - unfold shiftClickBranch. fold pa pb.
    destruct (decide (pa > pb)); unfold for_up_throw.
    + replace pb with (Z.min pa pb) at 1 by lia.
      replace (pa + 1 - pb) with (Z.max pa pb + 1 - Z.min pa pb) by lia.
      by rewrite Hrun.
    + replace pa with (Z.min pa pb) at 1 by lia.
      replace (pb + 1 - pa) with (Z.max pa pb + 1 - Z.min pa pb) by lia.
      by rewrite Hrun.
  - intros x. rewrite Hs. split; (intros [?|(i & it & Hi' & Hit & Hid)]; [by left|]);
      right; exists i, it; (split; [|done]).
    + apply elem_of_seqZ in Hi'. lia.
    + apply elem_of_seqZ. lia.
Qed.

Lemma item_id_in_collection (l : list MediaInfo.t) (i : Z) (it : MediaInfo.t) :
  item_at l i = Some it → MediaInfo.id it ∈ MediaInfo.id <$> l.
Proof.
  unfold item_at. destruct (decide (0 ≤ i)); [|done]. intros Hl.
  apply list_elem_of_fmap. exists it. split; [done|].
  by apply list_elem_of_lookup_2 with (Z.to_nat i).
Qed.

(** X15: Whatever the buttons and modifiers, the listener of the element of an
    item of the collection whose id is below [10^21] in magnitude (so that
    the listener reads the item's id back from the element) does not throw
    and keeps the selection valid: every selected id is the id of an item,
    and the primary, when set, is selected. *)
Theorem click_keeps_selection_valid (g : ImageGrid) (ev : MouseEvent) (file : MediaInfo.t) :
  selection_ok g → file ∈ items g → Z.abs (MediaInfo.id file) < 10 ^ 21 →
  ∃ g', mousedown ev file g = Some g' ∧ selection_ok g' ∧ items g' = items g.
Proof.
  intros [Hsub Hprim] Hfile Hread.
  assert (Hb : MediaInfo.id file ∈ MediaInfo.id <$> items g)
    by (apply list_elem_of_fmap; by exists file).
  rewrite mousedown_unfold, (parseInt_id_small _ Hread).
  destruct (decide (button ev = 3 ∨ button ev = 4)); [by exists g|].
  assert (Hbranch : ∃ g1, mousedownBranch ev (MediaInfo.id file) g = Some g1
                          ∧ selection_ok g1 ∧ items g1 = items g).
  { unfold mousedownBranch.
    destruct (if shiftKey ev then Selected.primary (selected g) else None) as [a|] eqn:Hsh.
    - assert (Ha : Selected.primary (selected g) = Some a)
        by (destruct (shiftKey ev); [done | discriminate]).
      pose proof (Hsub a (Hprim a Ha)) as Hain.
      destruct (shiftClickBranch_effect a (MediaInfo.id file) g Hain Hb)
        as (g1 & -> & Hi & Hs).
      destruct (findIndex_found _ _ Hb) as [Hpb Hib].
      exists (setPrimary (Some (MediaInfo.id file)) g1).
      split; [done|].
      destruct (setPrimary_frame (Some (MediaInfo.id file)) g1) as (Hi' & _).
      split; [|by rewrite Hi', Hi].
      unfold selection_ok. rewrite setPrimary_selected, Hi', Hi.
      cbn [Selected.selected Selected.primary]. split.
      + intros x Hx. apply Hs in Hx as [Hx|(i & it & _ & Hit & <-)];
          [by apply Hsub | by apply item_id_in_collection in Hit].
      + intros p [= <-]. apply Hs. right.
        destruct (item_at (items g) (findIndex (MediaInfo.id file) (items g)))
          as [it|] eqn:Hit; [|done].
        exists (findIndex (MediaInfo.id file) (items g)), it.
        split; [lia|]. split; [done|]. by injection Hib.
    - destruct (ctrlKey ev).
      + exists (ctrlClickBranch (MediaInfo.id file) g). split; [done|].
        unfold ctrlClickBranch.
        destruct (decide (MediaInfo.id file ∈ Selected.selected (selected g))) as [Hin|Hout].
        * cbv zeta. rewrite setSelected_selected. cbn [Selected.primary].
          destruct (decide (Selected.primary (selected g) = Some (MediaInfo.id file)))
            as [Hp|Hp].
          -- split; [|by destruct (setPrimary_frame None
                                    (setSelected (MediaInfo.id file) false g)) as (-> & _)].
             unfold selection_ok.
             destruct (setPrimary_frame None (setSelected (MediaInfo.id file) false g))
               as (-> & _).
             rewrite setPrimary_selected, setSelected_selected, setSelected_items.
             cbn [Selected.selected Selected.primary]. split; [|done].
             intros x Hx. apply elem_of_difference in Hx as [Hx _]. by apply Hsub.
          -- split; [|done]. unfold selection_ok.
             rewrite setSelected_selected, setSelected_items.
             cbn [Selected.selected Selected.primary]. split.
             ++ intros x Hx. apply elem_of_difference in Hx as [Hx _]. by apply Hsub.
             ++ intros p Hpp. apply elem_of_difference. split; [by apply Hprim|].
                rewrite elem_of_singleton. congruence.
        * destruct (setPrimary_frame (Some (MediaInfo.id file))
                      (setSelected (MediaInfo.id file) true g)) as (Hi' & _).
          split; [|by rewrite Hi'].
          unfold selection_ok. rewrite Hi', setPrimary_selected, setSelected_selected,
            setSelected_items. cbn [Selected.selected Selected.primary]. split.
          -- intros x Hx. apply elem_of_union in Hx as [Hx|Hx]; [|by apply Hsub].
             apply elem_of_singleton in Hx as ->. done.
          -- intros p [= <-]. apply elem_of_union. left. by apply elem_of_singleton.
      + exists (plainClickBranch ev (MediaInfo.id file) g). split; [done|].
        unfold plainClickBranch.
        destruct (decide (button ev = 0
                          ∨ MediaInfo.id file ∉ Selected.selected (selected g)));
          [|exact (conj (conj Hsub Hprim) eq_refl)].
        destruct (clearSelected_effect g) as (Hf & Hs & Hp & _).
        destruct Hf as (Hi0 & _).
        destruct (setPrimary_frame (Some (MediaInfo.id file))
                    (setSelected (MediaInfo.id file) true (clearSelected g))) as (Hi' & _).
        split; [|by rewrite Hi', setSelected_items].
        unfold selection_ok. rewrite Hi', setPrimary_selected, setSelected_selected,
          setSelected_items, Hs, Hi0. cbn [Selected.selected Selected.primary]. split.
        * intros x Hx. apply elem_of_union in Hx as [Hx|Hx];
            [|by apply not_elem_of_empty in Hx].
          apply elem_of_singleton in Hx as ->. done.
        * intros p [= <-]. apply elem_of_union. left. by apply elem_of_singleton. }
  destruct Hbranch as (g1 & -> & Hok & Hi). cbn [mbind option_bind].
  destruct (decide (button ev = 1)).
  - exists (showFileDialog file g1). done.
  - exists (updateSelected g1). split; [done|].
    destruct (updateSelected_frame g1) as (Hi' & _).
    split; [|by rewrite Hi'].
    unfold selection_ok. by rewrite updateSelected_selected, Hi'.
Qed.

Lemma anchored_grid_selected :
  selected anchored_grid = Selected.mk ({[7]} ∪ ∅) (Some 7).
Proof.
  unfold anchored_grid. rewrite setPrimary_selected, setSelected_selected.
  reflexivity.
Qed.

Lemma anchored_grid_ok : selection_ok anchored_grid.
Proof.
  unfold selection_ok. rewrite anchored_grid_selected.
  cbn [Selected.selected Selected.primary]. split.
  - intros x Hx.
    apply elem_of_union in Hx as [Hx|Hx]; [|by apply not_elem_of_empty in Hx].
    apply elem_of_singleton in Hx as ->.
    vm_compute. repeat first [by left | right].
  - intros p [= <-]. apply elem_of_union. left. by apply elem_of_singleton.
Qed.

Lemma click_keeps_selection_valid_witness :
  ∃ g', mousedown (mkMouse 0 true false) (sample_file 2) anchored_grid = Some g'
        ∧ selection_ok g' ∧ items g' = items anchored_grid.
Proof.
  assert (Hfile : sample_file 2 ∈ items anchored_grid)
    by (vm_compute; repeat first [by left | right]).
  assert (Hread : Z.abs (MediaInfo.id (sample_file 2)) < 10 ^ 21)
    by (vm_compute; reflexivity).
  exact (click_keeps_selection_valid anchored_grid (mkMouse 0 true false)
           (sample_file 2) anchored_grid_ok Hfile Hread).
Defined.

(** *** Plain and secondary clicks *)

(** X16: Without modifiers (or with shift but no primary), a primary-button click
    makes the clicked id, that is the id the listener reads back from the
    element, the whole selection and the primary; so does any other click on
    an unselected id, while a click with another button on a selected id
    keeps the selection (for its context menu).  The back and forward
    buttons are ignored. *)
Theorem plain_click_selects_one (g : ImageGrid) (ev : MouseEvent) (file : MediaInfo.t) :
  (button ev = 3 ∨ button ev = 4 → mousedown ev file g = Some g)
  ∧ (ctrlKey ev = false →
     shiftKey ev = false ∨ Selected.primary (selected g) = None →
     button ev ≠ 3 → button ev ≠ 4 →
     ∃ g', mousedown ev file g = Some g'
       ∧ (button ev = 0 ∨ parseInt_id (MediaInfo.id file) ∉ Selected.selected (selected g) →
          Selected.selected (selected g') = {[parseInt_id (MediaInfo.id file)]}
          ∧ Selected.primary (selected g') = Some (parseInt_id (MediaInfo.id file)))
       ∧ (button ev ≠ 0 → parseInt_id (MediaInfo.id file) ∈ Selected.selected (selected g) →
          selected g' = selected g)).
Proof.
  split.
  - intros Hb. rewrite mousedown_unfold. by rewrite decide_True.
  - intros Hctrl Hshift H3 H4. rewrite mousedown_unfold.
    rewrite decide_False by (intros [?|?]; done).
    unfold mousedownBranch.
    replace (if shiftKey ev then Selected.primary (selected g) else None)
      with (@None Z) by (destruct Hshift as [-> | ->]; [done | by destruct (shiftKey ev)]).
    rewrite Hctrl. cbn [mbind option_bind].
    destruct (mousedown_finish_selected ev file
                (plainClickBranch ev (parseInt_id (MediaInfo.id file)) g)) as (g' & -> & Hs).
    exists g'. split; [done|]. rewrite Hs. unfold plainClickBranch.
    destruct (decide (button ev = 0
                      ∨ parseInt_id (MediaInfo.id file) ∉ Selected.selected (selected g))) as [Hy|Hn].
    + split.
      * intros _. destruct (clearSelected_effect g) as (_ & Hc & _).
        rewrite setPrimary_selected, setSelected_selected, Hc.
        cbn [Selected.selected Selected.primary]. by rewrite union_empty_r_L.
      * intros H0 Hin. exfalso. destruct Hy; done.
    + split; [|done]. intros Hy. done.
Qed.

Lemma plain_click_selects_one_witness :
  ∃ g', mousedown (mkMouse 0 false false) (sample_file 2) anchored_grid = Some g'
    ∧ (button (mkMouse 0 false false) = 0
       ∨ parseInt_id (MediaInfo.id (sample_file 2)) ∉ Selected.selected (selected anchored_grid) →
       Selected.selected (selected g') = {[parseInt_id (MediaInfo.id (sample_file 2))]}
       ∧ Selected.primary (selected g') = Some (parseInt_id (MediaInfo.id (sample_file 2))))
    ∧ (button (mkMouse 0 false false) ≠ 0 →
       parseInt_id (MediaInfo.id (sample_file 2)) ∈ Selected.selected (selected anchored_grid) →
       selected g' = selected anchored_grid).
Proof.
  assert (H1 : ctrlKey (mkMouse 0 false false) = false) by reflexivity.
  assert (H2 : shiftKey (mkMouse 0 false false) = false
               ∨ Selected.primary (selected anchored_grid) = None) by (left; reflexivity).
  assert (H3 : button (mkMouse 0 false false) ≠ 3) by discriminate.
  assert (H4 : button (mkMouse 0 false false) ≠ 4) by discriminate.
  exact (proj2 (plain_click_selects_one anchored_grid (mkMouse 0 false false)
                  (sample_file 2)) H1 H2 H3 H4).
Defined.

(** X17: After a click with any button but the middle, back and forward ones, the
    summary tells the number of selected ids.  A middle click opens the
    dialog on the clicked file and returns before the summary is refreshed:
    the text is left as it was, whatever the click did to the selection. *)
Theorem summary_after_click (g g' : ImageGrid) (ev : MouseEvent) (file : MediaInfo.t) :
  mousedown ev file g = Some g' → button ev ≠ 3 → button ev ≠ 4 →
  (button ev ≠ 1 →
   selectedText g' = summary (size (Selected.selected (selected g'))))
  ∧ (button ev = 1 →
     dialogFile g' = Some file ∧ dialogOpen g' = true
     ∧ selectedText g' = selectedText g).
Proof.
  intros Hrun H3 H4. rewrite mousedown_unfold in Hrun.
  rewrite decide_False in Hrun by (intros [?|?]; done).
  destruct (mousedownBranch ev (parseInt_id (MediaInfo.id file)) g) as [g1|] eqn:Hb; [|done].
  cbn [mbind option_bind] in Hrun.
  assert (Ht : selectedText g1 = selectedText g).
  { apply (mousedownBranch_inv (λ g0, selectedText g0 = selectedText g) ev
             (parseInt_id (MediaInfo.id file)) g g1);
      [| |done|exact Hb].
    - intros g0 i v H. exact H.
    - intros g0 p H. by rewrite setPrimary_text. }
  destruct (decide (button ev = 1)) as [H1|H1]; injection Hrun as <-.
  - split; [done|]. intros _. done.
  - split; [|done]. intros _.
    by rewrite updateSelected_text, updateSelected_selected.
Qed.

Lemma summary_after_click_witness :
  (button (mkMouse 1 false true) ≠ 1 →
   selectedText (showFileDialog (sample_file 7) (ctrlClickBranch 7 (sample_grid 10)))
   = summary (size (Selected.selected
                      (selected (showFileDialog (sample_file 7)
                                   (ctrlClickBranch 7 (sample_grid 10)))))))
  ∧ (button (mkMouse 1 false true) = 1 →
     dialogFile (showFileDialog (sample_file 7) (ctrlClickBranch 7 (sample_grid 10)))
     = Some (sample_file 7)
     ∧ dialogOpen (showFileDialog (sample_file 7) (ctrlClickBranch 7 (sample_grid 10)))
       = true
     ∧ selectedText (showFileDialog (sample_file 7) (ctrlClickBranch 7 (sample_grid 10)))
       = selectedText (sample_grid 10)).
Proof.
  assert (Hrun : mousedown (mkMouse 1 false true) (sample_file 7) (sample_grid 10)
                 = Some (showFileDialog (sample_file 7)
                           (ctrlClickBranch 7 (sample_grid 10)))) by reflexivity.
  assert (H3 : button (mkMouse 1 false true) ≠ 3) by discriminate.
  assert (H4 : button (mkMouse 1 false true) ≠ 4) by discriminate.
  exact (summary_after_click (sample_grid 10) _ (mkMouse 1 false true) (sample_file 7)
           Hrun H3 H4).
Defined.

(** ** Keyboard *)

Lemma showFileDialog_frame f g :
  items (showFileDialog f g) = items g ∧ range (showFileDialog f g) = range g
  ∧ surface_ids (showFileDialog f g) = surface_ids g
  ∧ calls (showFileDialog f g) = calls g
  ∧ selected (showFileDialog f g) = selected g.
Proof. by repeat split. Qed.

Lemma select_one_frame (id : Z) (g : ImageGrid) :
  selection_frame g
    (updateSelected (setPrimary (Some id) (setSelected id true (clearSelected g)))).
Proof.
  eapply selection_frame_trans; [|apply updateSelected_frame].
  eapply selection_frame_trans; [|apply setPrimary_frame].
  eapply selection_frame_trans; [|apply setSelected_frame].
  apply clearSelected_effect.
Qed.

Lemma element_position_None (p : Z) (l : list AssetElement.t) :
  p ∉ AssetElement.id <$> l → element_position p l = None.
Proof.
  induction l as [|e l IH]; [done|]. rewrite fmap_cons. intros Hp.
  apply not_elem_of_cons in Hp as [Hne Hp]. cbn [element_position].
  rewrite decide_False by done. by rewrite IH.
Qed.

(** X18: The keyboard never creates or removes an element and never moves the
    window, whatever the key: a neighbour that is not materialized is not
    reached.  The arrow keys do nothing at all when there is no primary,
    when the primary is the id 0 (which [!primary] takes for none), or when
    the element of the primary is not materialized. *)
Theorem keyboard_never_moves_window {Px : Type} `{EqDecision Px} (left : nat → Px)
    (key : Key) (g : ImageGrid) :
  (items (keydownGrid left key g) = items g
   ∧ range (keydownGrid left key g) = range g
   ∧ surface_ids (keydownGrid left key g) = surface_ids g
   ∧ calls (keydownGrid left key g) = calls g)
  ∧ (key = ArrowUp ∨ key = ArrowDown ∨ key = ArrowLeft ∨ key = ArrowRight →
     Selected.primary (selected g) = None
     ∨ Selected.primary (selected g) = Some 0
     ∨ (∃ p, Selected.primary (selected g) = Some p ∧ p ∉ surface_ids g) →
     keydownGrid left key g = g).
Proof.
  split.
  - assert (Hsel : ∀ id, items (updateSelected (setPrimary (Some id)
                                   (setSelected id true (clearSelected g)))) = items g
                         ∧ range (updateSelected (setPrimary (Some id)
                                   (setSelected id true (clearSelected g)))) = range g
                         ∧ surface_ids (updateSelected (setPrimary (Some id)
                                   (setSelected id true (clearSelected g)))) = surface_ids g
                         ∧ calls (updateSelected (setPrimary (Some id)
                                   (setSelected id true (clearSelected g)))) = calls g).
    { intros id. destruct (select_one_frame id g) as (? & _ & _ & _ & ? & ? & ? & _).
      done. }
    assert (Harrow : ∀ el : option AssetElement.t,
              let g' := match el with
                        | Some element =>
                            updateSelected
                              (setPrimary (Some (parseInt_id (AssetElement.id element)))
                                 (setSelected (parseInt_id (AssetElement.id element)) true
                                    (clearSelected g)))
                        | None => g
                        end in
              items g' = items g ∧ range g' = range g
              ∧ surface_ids g' = surface_ids g ∧ calls g' = calls g).
    { intros [el|]; [apply Hsel | done]. }
    destruct key; unfold keydownGrid;
      try (destruct (Selected.primary (selected g)) as [p|]; [|done];
           destruct (decide (p = 0)); [done|]).
    + destruct (element_position p (itemsNode g)) as [k|]; [|done]. apply Harrow.
    + destruct (element_position p (itemsNode g)) as [k|]; [|done]. apply Harrow.
    + destruct (element_position p (itemsNode g)) as [k|]; [|done]. apply Harrow.
    + destruct (element_position p (itemsNode g)) as [k|]; [|done]. apply Harrow.
    + destruct (clearSelected_effect g) as ((? & _ & _ & _ & ? & ? & ? & _) & _).
      destruct (updateSelected_frame (clearSelected g))
        as (-> & _ & _ & _ & -> & -> & -> & _). done.
    + destruct (find_item p (items g)); done.
    + done.
  - intros Hkey Hnone.
    assert (Hgen : match Selected.primary (selected g) with
                   | None => True
                   | Some p => p = 0 ∨ element_position p (itemsNode g) = None
                   end).
    { destruct Hnone as [-> | [-> | (p & -> & Hp)]]; [done | by left |].
      right. by apply element_position_None. }
    destruct Hkey as [-> | [-> | [-> | ->]]]; unfold keydownGrid;
      (destruct (Selected.primary (selected g)) as [p|]; [|done]);
      (destruct (decide (p = 0)); [done|]);
      (destruct Hgen as [?|Hpos]; [done | by rewrite Hpos]).
Qed.

Lemma keyboard_never_moves_window_witness :
  keydownGrid (λ j : nat, Z.of_nat j `mod` 4) ArrowDown (sample_grid 10) = sample_grid 10.
Proof.
  assert (Hkey : ArrowDown = ArrowUp ∨ ArrowDown = ArrowDown ∨ ArrowDown = ArrowLeft
                 ∨ ArrowDown = ArrowRight) by (right; left; reflexivity).
  assert (Hnone : Selected.primary (selected (sample_grid 10)) = None
                  ∨ Selected.primary (selected (sample_grid 10)) = Some 0
                  ∨ (∃ p, Selected.primary (selected (sample_grid 10)) = Some p
                          ∧ p ∉ surface_ids (sample_grid 10))) by (left; reflexivity).
  exact (proj2 (keyboard_never_moves_window (λ j : nat, Z.of_nat j `mod` 4) ArrowDown
                  (sample_grid 10)) Hkey Hnone).
Defined.

(** X19: [Escape] empties the selection, resets the primary and the summary, and,
    on a surface with one element per id and attributes in step, leaves no
    element with the [selected] attribute. *)
Theorem escape_clears_selection {Px : Type} `{EqDecision Px} (left : nat → Px)
    (g : ImageGrid) :
  NoDup (surface_ids g) → attrs_in_sync g →
  Selected.selected (selected (keydownGrid left Escape g)) = ∅
  ∧ Selected.primary (selected (keydownGrid left Escape g)) = None
  ∧ selectedText (keydownGrid left Escape g) = "No items selected"
  ∧ (∀ e, e ∈ itemsNode (keydownGrid left Escape g) → AssetElement.selected e = false).
Proof.
  intros Hnd Hs. cbn [keydownGrid].
  destruct (clearSelected_effect g) as (_ & Hc & Hp & _).
  rewrite updateSelected_selected, updateSelected_text, Hc, Hp.
  split; [done|]. split; [done|]. split; [by rewrite size_empty|].
  intros e He.
  pose proof (updateSelected_sync _ (clearSelected_sync g Hnd Hs) e He) as Ha.
  rewrite Ha, updateSelected_selected, Hc. apply bool_decide_eq_false.
  apply not_elem_of_empty.
Qed.

Lemma escape_clears_selection_witness :
  Selected.selected (selected (keydownGrid (λ j : nat, j) Escape anchored_grid)) = ∅
  ∧ Selected.primary (selected (keydownGrid (λ j : nat, j) Escape anchored_grid)) = None
  ∧ selectedText (keydownGrid (λ j : nat, j) Escape anchored_grid) = "No items selected"
  ∧ (∀ e, e ∈ itemsNode (keydownGrid (λ j : nat, j) Escape anchored_grid) →
          AssetElement.selected e = false).
Proof.
  assert (Hnd : NoDup (surface_ids anchored_grid))
    by (apply (bool_decide_unpack _); vm_compute; exact I).
  assert (Hs : attrs_in_sync anchored_grid).
  { apply setPrimary_sync, setSelected_sync.
    - apply (bool_decide_unpack _). vm_compute. exact I.
    - apply connectedCallback_sync. }
  exact (escape_clears_selection (λ j : nat, j) anchored_grid Hnd Hs).
Defined.

(** *** Horizontal neighbours *)

Lemma element_position_found (p : Z) (l : list AssetElement.t) (k : nat) :
  NoDup (AssetElement.id <$> l) → (AssetElement.id <$> l) !! k = Some p →
  element_position p l = Some k.
Proof.
  revert k. induction l as [|e l IH]; intros k Hnd Hk; [done|].
  rewrite fmap_cons in Hnd, Hk. apply NoDup_cons in Hnd as [He Hnd].
  cbn [element_position]. destruct k as [|k]; cbn in Hk.
  - injection Hk as ->. by rewrite decide_True.
  - rewrite decide_False.
    + by rewrite (IH k).
    + intros Heq. apply He. rewrite Heq. by apply list_elem_of_lookup_2 with k.
Qed.

(** On a surface in step, the child at position [k] is the element of the
    item at index [start + k], up to [end]. *)
Lemma surface_lookup (g : ImageGrid) (k : nat) :
  in_step g →
  surface_ids g !! k
  = if decide (start (range g) + Z.of_nat k ≤ end_ (range g))
    then MediaInfo.id <$> items g !! (Z.to_nat (start (range g)) + k)%nat
    else None.
Proof.
  intros (Hs & H0 & _). rewrite Hs, ids_between_take_drop by done.
  rewrite list_lookup_fmap.
  destruct (decide (start (range g) + Z.of_nat k ≤ end_ (range g))).
  - rewrite lookup_take_lt by lia. by rewrite lookup_drop.
  - rewrite lookup_take_ge by lia. done.
Qed.

Lemma in_step_NoDup (g : ImageGrid) :
  NoDup (MediaInfo.id <$> items g) → in_step g → NoDup (surface_ids g).
Proof. intros Hnd [-> _]. by apply NoDup_ids_between. Qed.

Lemma select_one_effect (id : Z) (g : ImageGrid) :
  Selected.selected
    (selected (updateSelected (setPrimary (Some id)
                 (setSelected id true (clearSelected g))))) = {[id]}
  ∧ Selected.primary
      (selected (updateSelected (setPrimary (Some id)
                   (setSelected id true (clearSelected g))))) = Some id
  ∧ selectedText (updateSelected (setPrimary (Some id)
                    (setSelected id true (clearSelected g)))) = "1 item selected".
Proof.
  destruct (clearSelected_effect g) as (_ & Hc & _).
  rewrite updateSelected_text, updateSelected_selected, setPrimary_selected,
    setSelected_selected, Hc. cbn [Selected.selected Selected.primary].
  rewrite union_empty_r_L, size_singleton. done.
Qed.

(** The ids of the children, read from the collection. *)
Lemma child_lookup (g : ImageGrid) (q : nat) :
  in_step g →
  AssetElement.id <$> itemsNode g !! q
  = if decide (start (range g) + Z.of_nat q ≤ end_ (range g))
    then MediaInfo.id <$> items g !! (Z.to_nat (start (range g)) + q)%nat
    else None.
Proof.
  intros Hin. rewrite <- list_lookup_fmap. fold (surface_ids g).
  by apply surface_lookup.
Qed.

Lemma moveTo_item (g : ImageGrid) (q j : nat) (it : MediaInfo.t) :
  in_step g → start (range g) + Z.of_nat q ≤ end_ (range g) →
  (Z.to_nat (start (range g)) + q)%nat = j → items g !! j = Some it →
  Selected.selected (selected (moveTo (itemsNode g !! q) g)) = {[parseInt_id (MediaInfo.id it)]}
  ∧ Selected.primary (selected (moveTo (itemsNode g !! q) g)) = Some (parseInt_id (MediaInfo.id it))
  ∧ selectedText (moveTo (itemsNode g !! q) g) = "1 item selected".
Proof.
  intros Hin Hq Hj Hit. pose proof (child_lookup g q Hin) as Hc.
  rewrite decide_True in Hc by done. rewrite Hj, Hit in Hc.
  destruct (itemsNode g !! q) as [el|]; [|done].
  injection Hc as Hid. unfold moveTo. rewrite Hid. apply select_one_effect.
Qed.

Lemma moveTo_none (g : ImageGrid) (q : nat) :
  in_step g →
  end_ (range g) < start (range g) + Z.of_nat q
  ∨ (length (items g) ≤ Z.to_nat (start (range g)) + q)%nat →
  moveTo (itemsNode g !! q) g = g.
Proof.
  intros Hin Hout. pose proof (child_lookup g q Hin) as Hc.
  destruct (itemsNode g !! q) as [el|]; [|done]. exfalso.
  destruct (decide (start (range g) + Z.of_nat q ≤ end_ (range g))); [|done].
  destruct Hout as [Hout|Hout]; [lia|].
  rewrite lookup_ge_None_2 in Hc by done. done.
Qed.

Lemma element_position_lt (p : Z) (l : list AssetElement.t) (k : nat) :
  element_position p l = Some k → (k < length l)%nat.
Proof.
  revert k. induction l as [|e l IH]; intros k; [done|]. cbn [element_position length].
  destruct (decide (AssetElement.id e = p)); [intros [= <-]; lia|].
  destruct (element_position p l) as [k'|]; [|done].
  intros [= <-]. specialize (IH k' eq_refl). lia.
Qed.

(** The element of the primary, when its item is in the window. *)
Lemma primary_position (g : ImageGrid) (i : nat) (cur : MediaInfo.t) :
  NoDup (MediaInfo.id <$> items g) → in_step g → items g !! i = Some cur →
  start (range g) ≤ Z.of_nat i → Z.of_nat i ≤ end_ (range g) →
  element_position (MediaInfo.id cur) (itemsNode g)
  = Some (Z.to_nat (Z.of_nat i - start (range g))).
Proof.
  intros Hnd Hin Hi Hlo Hhi. pose proof Hin as (_ & H0 & _).
  apply element_position_found; [by apply in_step_NoDup|].
  fold (surface_ids g). rewrite surface_lookup by done.
  rewrite decide_True by lia.
  replace (Z.to_nat (start (range g)) + Z.to_nat (Z.of_nat i - start (range g)))%nat
    with i by lia.
  by rewrite Hi.
Qed.

(** The arrow-key branch once the element of the primary is found at
    position [k]. *)
Lemma keydownGrid_arrow {Px : Type} `{EqDecision Px} (left : nat → Px)
    (g : ImageGrid) (p : Z) (k : nat) :
  Selected.primary (selected g) = Some p → p ≠ 0 →
  element_position p (itemsNode g) = Some k →
  keydownGrid left ArrowRight g = moveTo (itemsNode g !! S k) g
  ∧ keydownGrid left ArrowLeft g
    = moveTo (match k with O => None | S q => itemsNode g !! q end) g
  ∧ keydownGrid left ArrowDown g
    = moveTo (snd <$> findVerticalNeighbour left (itemsNode g) k false) g
  ∧ keydownGrid left ArrowUp g
    = moveTo (snd <$> findVerticalNeighbour left (itemsNode g) k true) g.
Proof.
  intros Hprim Hnz Hpos. unfold keydownGrid, moveTo.
  rewrite Hprim. destruct (decide (p = 0)); [done|]. rewrite Hpos.
  repeat split; reflexivity.
Qed.

(** X20: With the surface in step with the range and the primary on a
    materialized item at index [i] (its id not 0), [ArrowRight] makes the
    item at index [i + 1], by the id read back from its element, the one
    selected item and the primary, and [ArrowLeft] the item at index
    [i - 1], as long as that item is in the window; at the end of the window
    or of the collection [ArrowRight] does nothing, and at the start of the
    window [ArrowLeft] does nothing. *)
Theorem arrows_move_to_adjacent_item {Px : Type} `{EqDecision Px} (left : nat → Px)
    (g : ImageGrid) (i : nat) (cur : MediaInfo.t) :
  NoDup (MediaInfo.id <$> items g) → in_step g →
  items g !! i = Some cur →
  Selected.primary (selected g) = Some (MediaInfo.id cur) →
  MediaInfo.id cur ≠ 0 →
  start (range g) ≤ Z.of_nat i → Z.of_nat i ≤ end_ (range g) →
  (∀ nxt, items g !! S i = Some nxt → Z.of_nat (S i) ≤ end_ (range g) →
     Selected.selected (selected (keydownGrid left ArrowRight g)) = {[parseInt_id (MediaInfo.id nxt)]}
     ∧ Selected.primary (selected (keydownGrid left ArrowRight g))
       = Some (parseInt_id (MediaInfo.id nxt))
     ∧ selectedText (keydownGrid left ArrowRight g) = "1 item selected")
  ∧ (Z.of_nat i = end_ (range g) ∨ S i = length (items g) →
     keydownGrid left ArrowRight g = g)
  ∧ (∀ j prv, i = S j → items g !! j = Some prv → start (range g) ≤ Z.of_nat j →
       Selected.selected (selected (keydownGrid left ArrowLeft g)) = {[parseInt_id (MediaInfo.id prv)]}
       ∧ Selected.primary (selected (keydownGrid left ArrowLeft g))
         = Some (parseInt_id (MediaInfo.id prv))
       ∧ selectedText (keydownGrid left ArrowLeft g) = "1 item selected")
  ∧ (Z.of_nat i = start (range g) → keydownGrid left ArrowLeft g = g).
Proof.
  intros Hnd Hin Hi Hprim Hnz Hlo Hhi.
  pose proof Hin as (_ & H0 & _).
  pose proof (primary_position g i cur Hnd Hin Hi Hlo Hhi) as Hpos.
  destruct (keydownGrid_arrow left g _ _ Hprim Hnz Hpos) as (HR & HL & _).
  rewrite HR, HL. clear HR HL Hpos.
  split; [|split; [|split]].
  - intros nxt Hn He. apply moveTo_item with (j := S i); [done|lia|lia|done].
  - intros Hedge. apply moveTo_none; [done|]. destruct Hedge; [left|right]; lia.
  - intros j prv -> Hj Hs.
    replace (Z.to_nat (Z.of_nat (S j) - start (range g)))
      with (S (Z.to_nat (Z.of_nat j - start (range g)))) by lia.
    apply moveTo_item with (j := j); [done|lia|lia|done].
  - intros Hs. replace (Z.to_nat (Z.of_nat i - start (range g))) with 0%nat by lia.
    done.
Qed.

Lemma selection_frame_in_step (g g' : ImageGrid) :
  selection_frame g g' → in_step g → in_step g'.
Proof.
  intros (Hi & _ & Hm & _ & Hr & Hs & _) Hin. unfold in_step.
  rewrite Hi, Hm, Hr, Hs. exact Hin.
Qed.

Lemma anchored_grid_in_step : in_step anchored_grid.
Proof.
  apply (selection_frame_in_step (setSelected 7 true (sample_grid 10)));
    [apply setPrimary_frame|].
  apply (selection_frame_in_step (sample_grid 10)); [apply setSelected_frame|].
  exact sample_grid_in_step.
Qed.

Lemma arrows_move_to_adjacent_item_witness :
  (Selected.selected (selected (keydownGrid (λ j : nat, j) ArrowRight anchored_grid))
   = {[parseInt_id (MediaInfo.id (sample_file 8))]}
   ∧ Selected.primary (selected (keydownGrid (λ j : nat, j) ArrowRight anchored_grid))
     = Some (parseInt_id (MediaInfo.id (sample_file 8)))
   ∧ selectedText (keydownGrid (λ j : nat, j) ArrowRight anchored_grid)
     = "1 item selected")
  ∧ (Selected.selected (selected (keydownGrid (λ j : nat, j) ArrowLeft anchored_grid))
     = {[parseInt_id (MediaInfo.id (sample_file 6))]}
     ∧ Selected.primary (selected (keydownGrid (λ j : nat, j) ArrowLeft anchored_grid))
       = Some (parseInt_id (MediaInfo.id (sample_file 6)))
     ∧ selectedText (keydownGrid (λ j : nat, j) ArrowLeft anchored_grid)
       = "1 item selected").
Proof.
  assert (Hnd : NoDup (MediaInfo.id <$> items anchored_grid))
    by (apply (bool_decide_unpack _); vm_compute; exact I).
  assert (Hi : items anchored_grid !! 7%nat = Some (sample_file 7)) by reflexivity.
  assert (Hp : Selected.primary (selected anchored_grid) = Some (MediaInfo.id (sample_file 7)))
    by (rewrite anchored_grid_selected; reflexivity).
  assert (Hnz : MediaInfo.id (sample_file 7) ≠ 0) by discriminate.
  assert (Hlo : start (range anchored_grid) ≤ Z.of_nat 7) by (vm_compute; discriminate).
  assert (Hhi : Z.of_nat 7 ≤ end_ (range anchored_grid)) by (vm_compute; discriminate).
  destruct (arrows_move_to_adjacent_item (λ j : nat, j) anchored_grid 7 (sample_file 7)
              Hnd anchored_grid_in_step Hi Hp Hnz Hlo Hhi) as (HR & _ & HL & _).
  assert (Hn : items anchored_grid !! 8%nat = Some (sample_file 8)) by reflexivity.
  assert (He : Z.of_nat 8 ≤ end_ (range anchored_grid)) by (vm_compute; discriminate).
  assert (Hj : items anchored_grid !! 6%nat = Some (sample_file 6)) by reflexivity.
  assert (Hs : start (range anchored_grid) ≤ Z.of_nat 6) by (vm_compute; discriminate).
  exact (conj (HR (sample_file 8) Hn He) (HL 6%nat (sample_file 6) eq_refl Hj Hs)).
Defined.

(** *** Vertical neighbours *)

Lemma scan_down_Some (same : nat → bool) (pos : nat) (l : list AssetElement.t)
    (k : nat) (e : AssetElement.t) :
  scan_down same pos l = Some (k, e) ↔
  (pos ≤ k)%nat ∧ l !! (k - pos)%nat = Some e ∧ same k = true
  ∧ ∀ j, (pos ≤ j < k)%nat → same j = false.
Proof.
  revert pos. induction l as [|x l IH]; intros pos; cbn [scan_down].
  - split; [done|]. intros (_ & Hl & _). done.
  - destruct (same pos) eqn:Hs.
    + split.
      * intros [= <- <-]. rewrite Nat.sub_diag. repeat split; [lia|done|].
        intros j Hj. lia.
      * intros (Hle & Hl & Hk & Hfirst).
        destruct (decide (k = pos)) as [->|Hne].
        -- rewrite Nat.sub_diag in Hl. by injection Hl as ->.
        -- rewrite (Hfirst pos) in Hs by lia. done.
    + rewrite IH. split.
      * intros (Hle & Hl & Hk & Hfirst). split; [lia|]. split.
        -- replace (k - pos)%nat with (S (k - S pos)) by lia. exact Hl.
        -- split; [done|]. intros j Hj.
           destruct (decide (j = pos)) as [->|]; [done | apply Hfirst; lia].
      * intros (Hle & Hl & Hk & Hfirst).
        assert (k ≠ pos) by (intros ->; congruence).
        split; [lia|]. split.
        -- replace (k - pos)%nat with (S (k - S pos)) in Hl by lia. exact Hl.
        -- split; [done|]. intros j Hj. apply Hfirst. lia.
Qed.

Lemma scan_up_Some (same : nat → bool) (pos : nat) (l : list AssetElement.t)
    (k : nat) (e : AssetElement.t) :
  length l = pos →
  scan_up same pos l = Some (k, e) ↔
  (k < pos)%nat ∧ l !! (pos - 1 - k)%nat = Some e ∧ same k = true
  ∧ ∀ j, (k < j < pos)%nat → same j = false.
Proof.
  revert pos. induction l as [|x l IH]; intros pos Hlen; cbn [length] in Hlen.
  - subst pos. cbn [scan_up]. split; [done|]. intros (Hlt & _). lia.
  - destruct pos as [|q]; [done|]. injection Hlen as Hlen. cbn [scan_up].
    destruct (same q) eqn:Hs.
    + split.
      * intros [= <- <-]. replace (S q - 1 - q)%nat with 0%nat by lia.
        repeat split; [lia|done|]. intros j Hj. lia.
      * intros (Hlt & Hl & Hk & Hfirst).
        destruct (decide (k = q)) as [->|Hne].
        -- replace (S q - 1 - q)%nat with 0%nat in Hl by lia. by injection Hl as ->.
        -- rewrite (Hfirst q) in Hs by lia. done.
    + rewrite (IH q Hlen). split.
      * intros (Hlt & Hl & Hk & Hfirst). split; [lia|]. split.
        -- replace (S q - 1 - k)%nat with (S (q - 1 - k)) by lia. exact Hl.
        -- split; [done|]. intros j Hj.
           destruct (decide (j = q)) as [->|]; [done | apply Hfirst; lia].
      * intros (Hlt & Hl & Hk & Hfirst).
        assert (k ≠ q) by (intros ->; congruence).
        split; [lia|]. split.
        -- replace (S q - 1 - k)%nat with (S (q - 1 - k)) in Hl by lia. exact Hl.
        -- split; [done|]. intros j Hj. apply Hfirst. lia.
Qed.

Lemma findVerticalNeighbour_down {Px : Type} `{EqDecision Px} (left : nat → Px)
    (l : list AssetElement.t) (p k : nat) (e : AssetElement.t) :
  findVerticalNeighbour left l p false = Some (k, e) ↔
  (p < k)%nat ∧ l !! k = Some e ∧ left k = left p
  ∧ ∀ j, (p < j < k)%nat → left j ≠ left p.
Proof.
  unfold findVerticalNeighbour. rewrite scan_down_Some. rewrite lookup_drop.
  split; intros (Hk & Hl & Hs & Hfirst).
  - split; [lia|]. split; [by replace (S p + (k - S p))%nat with k in Hl by lia|].
    split; [by apply bool_decide_eq_true in Hs|].
    intros j Hj. apply (bool_decide_eq_false (left j = left p)). apply Hfirst. lia.
  - split; [lia|]. split; [by replace (S p + (k - S p))%nat with k by lia|].
    split; [by apply bool_decide_eq_true|].
    intros j Hj. apply bool_decide_eq_false. apply Hfirst. lia.
Qed.

Lemma findVerticalNeighbour_up {Px : Type} `{EqDecision Px} (left : nat → Px)
    (l : list AssetElement.t) (p k : nat) (e : AssetElement.t) :
  (p < length l)%nat →
  findVerticalNeighbour left l p true = Some (k, e) ↔
  (k < p)%nat ∧ l !! k = Some e ∧ left k = left p
  ∧ ∀ j, (k < j < p)%nat → left j ≠ left p.
Proof.
  intros Hp. unfold findVerticalNeighbour.
  rewrite scan_up_Some by (rewrite length_reverse, length_take; lia).
  assert (Hrev : (k < p)%nat → reverse (take p l) !! (p - 1 - k)%nat = l !! k).
  { intros Hk. rewrite reverse_lookup by (rewrite length_take; lia).
    rewrite length_take. replace (p `min` length l)%nat with p by lia.
    replace (p - S (p - 1 - k))%nat with k by lia.
    by rewrite lookup_take_lt by lia. }
  split; intros (Hk & Hl & Hs & Hfirst).
  - split; [done|]. split; [by rewrite <- Hrev|].
    split; [by apply bool_decide_eq_true in Hs|].
    intros j Hj. apply (bool_decide_eq_false (left j = left p)). by apply Hfirst.
  - split; [done|]. split; [by rewrite Hrev|].
    split; [by apply bool_decide_eq_true|].
    intros j Hj. apply bool_decide_eq_false. by apply Hfirst.
Qed.

(** X21: [findVerticalNeighbour] returns the nearest sibling in the direction asked
    whose [left] equals that of the start element, and no other: going down
    the first such child after position [p], going up the last one before
    it. *)
Theorem vertical_neighbour_is_nearest {Px : Type} `{EqDecision Px} (left : nat → Px)
    (l : list AssetElement.t) (p k : nat) (e : AssetElement.t) :
  (p < length l)%nat →
  (findVerticalNeighbour left l p false = Some (k, e) ↔
   (p < k)%nat ∧ l !! k = Some e ∧ left k = left p
   ∧ ∀ j, (p < j < k)%nat → left j ≠ left p)
  ∧ (findVerticalNeighbour left l p true = Some (k, e) ↔
     (k < p)%nat ∧ l !! k = Some e ∧ left k = left p
     ∧ ∀ j, (k < j < p)%nat → left j ≠ left p).
Proof.
  intros Hp. split; [apply findVerticalNeighbour_down | by apply findVerticalNeighbour_up].
Qed.

Lemma vertical_neighbour_is_nearest_witness :
  findVerticalNeighbour (λ j : nat, (j `mod` 4)%nat) (itemsNode (sample_grid 10)) 1 false
  = Some (5%nat, AssetElement.mk 5 "file" false false).
Proof.
  assert (Hp : (1 < length (itemsNode (sample_grid 10)))%nat) by (vm_compute; lia).
  apply (proj1 (vertical_neighbour_is_nearest (λ j : nat, (j `mod` 4)%nat)
                  (itemsNode (sample_grid 10)) 1 5
                  (AssetElement.mk 5 "file" false false) Hp)).
  split; [lia|]. split; [reflexivity|]. split; [reflexivity|].
  intros j Hj. assert (j = 2 ∨ j = 3 ∨ j = 4)%nat as [-> | [-> | ->]] by lia;
    vm_compute; discriminate.
Defined.

Lemma mod_gap (c p j : nat) : (p < j < p + c)%nat → (j `mod` c ≠ p `mod` c)%nat.
Proof.
  intros Hj Heq. assert (c ≠ 0)%nat by lia.
  pose proof (Nat.div_mod_eq j c). pose proof (Nat.div_mod_eq p c).
  rewrite Heq in *.
  destruct (decide (j / c ≤ p / c)%nat) as [Hle|Hgt].
  - pose proof (Nat.mul_le_mono_l _ _ c Hle). lia.
  - assert (Hge : (p / c + 1 ≤ j / c)%nat) by lia.
    pose proof (Nat.mul_le_mono_l _ _ c Hge). lia.
Qed.

Lemma mod_far (c p j : nat) :
  (0 < c)%nat → (j `mod` c = p `mod` c)%nat → (p < j)%nat → (p + c ≤ j)%nat.
Proof.
  intros Hc Heq Hlt. destruct (decide (p + c ≤ j)%nat); [done|].
  exfalso. apply (mod_gap c p j); [lia | done].
Qed.

Lemma mod_shift (c p : nat) : (0 < c)%nat → ((p + c) `mod` c = p `mod` c)%nat.
Proof.
  intros Hc. replace (p + c)%nat with (p + 1 * c)%nat by lia.
  apply Nat.Div0.mod_add.
Qed.

(** When the children are laid out in rows of [c] columns, that is when two
    children have the same [left] exactly if their positions agree modulo
    [c], the vertical neighbour below position [p] is the child at [p + c]
    and the one above it the child at [p - c], if there is one. *)
Lemma findVerticalNeighbour_rows {Px : Type} `{EqDecision Px} (left : nat → Px)
    (c : nat) (l : list AssetElement.t) (p : nat) :
  (0 < c)%nat → (∀ i j, left i = left j ↔ (i `mod` c = j `mod` c)%nat) →
  (p < length l)%nat →
  findVerticalNeighbour left l p false = (λ e, ((p + c)%nat, e)) <$> l !! (p + c)%nat
  ∧ findVerticalNeighbour left l p true
    = if decide (c ≤ p)%nat then (λ e, ((p - c)%nat, e)) <$> l !! (p - c)%nat else None.
Proof.
  intros Hc Hleft Hp. split.
  - destruct (l !! (p + c)%nat) as [e|] eqn:He; cbn [fmap option_fmap option_map].
    + apply findVerticalNeighbour_down.
      split; [lia|]. split; [done|]. split; [apply Hleft; by apply mod_shift|].
      intros j Hj Heq. apply Hleft in Heq. by apply (mod_gap c p j).
    + destruct (findVerticalNeighbour left l p false) as [[k e]|] eqn:Hf; [|done].
      apply findVerticalNeighbour_down in Hf as (Hk & Hl & Heq & _).
      apply Hleft in Heq. pose proof (mod_far c p k Hc Heq Hk).
      apply lookup_lt_Some in Hl. apply lookup_ge_None in He. lia.
  - destruct (decide (c ≤ p)%nat) as [Hcp|Hcp].
    + assert (Hlt : (p - c < length l)%nat) by lia.
      destruct (lookup_lt_is_Some_2 l (p - c)%nat Hlt) as [e He]. rewrite He.
      cbn [fmap option_fmap option_map].
      apply findVerticalNeighbour_up; [done|].
      split; [lia|]. split; [done|]. split.
      * apply Hleft. rewrite <- (mod_shift c (p - c)) by done. f_equal. lia.
      * intros j Hj Heq. apply Hleft in Heq.
        apply (mod_gap c (p - c) j); [lia|].
        rewrite Heq. rewrite <- (mod_shift c (p - c)) by done. f_equal. lia.
    + destruct (findVerticalNeighbour left l p true) as [[k e]|] eqn:Hf; [|done].
      apply findVerticalNeighbour_up in Hf as (Hk & Hl & Heq & _); [|done].
      apply Hleft in Heq. symmetry in Heq. pose proof (mod_far c k p Hc Heq Hk). lia.
Qed.

Lemma snd_pair_fmap {A B : Type} (b : B) (x : option A) :
  snd <$> ((λ e, (b, e)) <$> x) = x.
Proof. by destruct x. Qed.

(** X22: With the surface in step, the primary on a materialized item at index
    [i] (its id not 0) and the children laid out in rows of [c] columns,
    [ArrowDown] makes the item at index [i + c], by the id read back from
    its element, the one selected item and the primary, and [ArrowUp] the
    item at index [i - c], as long as that item is in the window; when it is
    past the end of the window or of the collection, or before the start of
    the window, the key does nothing. *)
Theorem vertical_arrows_move_one_row {Px : Type} `{EqDecision Px} (left : nat → Px)
    (c : nat) (g : ImageGrid) (i : nat) (cur : MediaInfo.t) :
  NoDup (MediaInfo.id <$> items g) → in_step g →
  items g !! i = Some cur →
  Selected.primary (selected g) = Some (MediaInfo.id cur) →
  MediaInfo.id cur ≠ 0 →
  start (range g) ≤ Z.of_nat i → Z.of_nat i ≤ end_ (range g) →
  (0 < c)%nat → (∀ a b, left a = left b ↔ (a `mod` c = b `mod` c)%nat) →
  (∀ nxt, items g !! (i + c)%nat = Some nxt → Z.of_nat (i + c) ≤ end_ (range g) →
     Selected.selected (selected (keydownGrid left ArrowDown g)) = {[parseInt_id (MediaInfo.id nxt)]}
     ∧ Selected.primary (selected (keydownGrid left ArrowDown g))
       = Some (parseInt_id (MediaInfo.id nxt))
     ∧ selectedText (keydownGrid left ArrowDown g) = "1 item selected")
  ∧ (end_ (range g) < Z.of_nat (i + c) ∨ (length (items g) ≤ i + c)%nat →
     keydownGrid left ArrowDown g = g)
  ∧ (∀ prv, (c ≤ i)%nat → items g !! (i - c)%nat = Some prv →
       start (range g) ≤ Z.of_nat (i - c) →
       Selected.selected (selected (keydownGrid left ArrowUp g)) = {[parseInt_id (MediaInfo.id prv)]}
       ∧ Selected.primary (selected (keydownGrid left ArrowUp g))
         = Some (parseInt_id (MediaInfo.id prv))
       ∧ selectedText (keydownGrid left ArrowUp g) = "1 item selected")
  ∧ (Z.of_nat i < start (range g) + Z.of_nat c → keydownGrid left ArrowUp g = g).
Proof.
  intros Hnd Hin Hi Hprim Hnz Hlo Hhi Hc Hleft.
  pose proof Hin as (_ & H0 & _).
  pose proof (primary_position g i cur Hnd Hin Hi Hlo Hhi) as Hpos.
  pose proof (element_position_lt _ _ _ Hpos) as Hlt.
  destruct (keydownGrid_arrow left g _ _ Hprim Hnz Hpos) as (_ & _ & HD & HU).
  destruct (findVerticalNeighbour_rows left c (itemsNode g) _ Hc Hleft Hlt) as [Hdown Hup].
  rewrite HD, HU, Hdown, Hup, snd_pair_fmap. clear HD HU Hdown Hup Hpos Hlt.
  split; [|split; [|split]].
  - intros nxt Hn He. apply moveTo_item with (j := (i + c)%nat); [done|lia|lia|done].
  - intros Hedge. apply moveTo_none; [done|]. destruct Hedge; [left|right]; lia.
  - intros prv Hci Hp Hs. rewrite decide_True by lia. rewrite snd_pair_fmap.
    apply moveTo_item with (j := (i - c)%nat); [done|lia|lia|done].
  - intros Hs. rewrite decide_False by lia. done.
Qed.

Lemma vertical_arrows_move_one_row_witness :
  (Selected.selected (selected (keydownGrid (λ j : nat, (j `mod` 4)%nat) ArrowUp
                                  anchored_grid))
   = {[parseInt_id (MediaInfo.id (sample_file 3))]}
   ∧ Selected.primary (selected (keydownGrid (λ j : nat, (j `mod` 4)%nat) ArrowUp
                                   anchored_grid))
     = Some (parseInt_id (MediaInfo.id (sample_file 3)))
   ∧ selectedText (keydownGrid (λ j : nat, (j `mod` 4)%nat) ArrowUp anchored_grid)
     = "1 item selected")
  ∧ keydownGrid (λ j : nat, (j `mod` 4)%nat) ArrowDown anchored_grid = anchored_grid.
Proof.
  assert (Hnd : NoDup (MediaInfo.id <$> items anchored_grid))
    by (apply (bool_decide_unpack _); vm_compute; exact I).
  assert (Hi : items anchored_grid !! 7%nat = Some (sample_file 7)) by reflexivity.
  assert (Hp : Selected.primary (selected anchored_grid) = Some (MediaInfo.id (sample_file 7)))
    by (rewrite anchored_grid_selected; reflexivity).
  assert (Hnz : MediaInfo.id (sample_file 7) ≠ 0) by discriminate.
  assert (Hlo : start (range anchored_grid) ≤ Z.of_nat 7) by (vm_compute; discriminate).
  assert (Hhi : Z.of_nat 7 ≤ end_ (range anchored_grid)) by (vm_compute; discriminate).
  assert (Hc : (0 < 4)%nat) by lia.
  assert (Hleft : ∀ a b : nat, (a `mod` 4)%nat = (b `mod` 4)%nat
                               ↔ (a `mod` 4 = b `mod` 4)%nat) by (intros; reflexivity).
  destruct (vertical_arrows_move_one_row (λ j : nat, (j `mod` 4)%nat) 4 anchored_grid 7
              (sample_file 7) Hnd anchored_grid_in_step Hi Hp Hnz Hlo Hhi Hc Hleft)
    as (_ & Hdown & Hup & _).
  assert (Hprv : items anchored_grid !! (7 - 4)%nat = Some (sample_file 3)) by reflexivity.
  assert (Hs : start (range anchored_grid) ≤ Z.of_nat (7 - 4)) by (vm_compute; discriminate).
  assert (Hout : end_ (range anchored_grid) < Z.of_nat (7 + 4)
                 ∨ (length (items anchored_grid) ≤ 7 + 4)%nat)
    by (right; vm_compute; lia).
  assert (Hci : (4 ≤ 7)%nat) by lia.
  exact (conj (Hup (sample_file 3) Hci Hprv Hs) (Hdown Hout)).
Defined.

(** ** Keyboard and dialog *)

Lemma findIndex_from_bounds (k : Z) (id : Z) (l : list MediaInfo.t) :
  findIndex_from k id l = -1
  ∨ k ≤ findIndex_from k id l < k + Z.of_nat (length l).
Proof.
  revert k. induction l as [|x l IH]; intros k; cbn [findIndex_from length]; [by left|].
  destruct (decide (MediaInfo.id x = id)); [right; lia|].
  destruct (IH (k + 1)) as [->|Hb]; [by left | right; lia].
Qed.

Lemma findIndex_bounds (id : Z) (l : list MediaInfo.t) :
  -1 ≤ findIndex id l < Z.of_nat (length l) ∨ (findIndex id l = -1 ∧ l = []).
Proof.
  unfold findIndex. destruct (findIndex_from_bounds 0 id l) as [Hm|Hb]; [|left; lia].
  destruct l as [|x l]; [by right|]. left. rewrite Hm. cbn [length]. lia.
Qed.

Lemma item_at_in (l : list MediaInfo.t) (i : Z) (f : MediaInfo.t) :
  item_at l i = Some f → f ∈ l.
Proof.
  unfold item_at. destruct (decide (0 ≤ i)); [|done].
  apply list_elem_of_lookup_2.
Qed.

(** X23: While the dialog shows a file the keyboard belongs to the dialog: no key
    makes the handler throw (the index it computes is always that of an
    item), the dialog goes on showing a file, either the same one or an item
    of the collection, and the selection, the summary, the elements and the
    window are left as they are. *)
Theorem dialog_keys_never_throw {Px : Type} `{EqDecision Px} (left : nat → Px)
    (key : Key) (g : ImageGrid) (cur : MediaInfo.t) :
  dialogFile g = Some cur →
  ∃ g' f, keydownListener left key g = Some g'
    ∧ dialogFile g' = Some f ∧ (f = cur ∨ f ∈ items g)
    ∧ selected g' = selected g ∧ selectedText g' = selectedText g
    ∧ itemsNode g' = itemsNode g ∧ range g' = range g ∧ items g' = items g.
Proof.
  intros Hd. unfold keydownListener, keydownDialog. rewrite Hd.
  assert (Hsame : ∃ g' f, Some g = Some g'
            ∧ dialogFile g' = Some f ∧ (f = cur ∨ f ∈ items g)
            ∧ selected g' = selected g ∧ selectedText g' = selectedText g
            ∧ itemsNode g' = itemsNode g ∧ range g' = range g ∧ items g' = items g).
  { exists g, cur. split; [done|]. split; [done|]. split; [by left|]. done. }
  assert (Hmove : ∀ i, 0 ≤ i < Z.of_nat (length (items g)) →
            ∃ g' f, (file ← item_at (items g) i; Some (changeFileDialog file g)) = Some g'
              ∧ dialogFile g' = Some f ∧ (f = cur ∨ f ∈ items g)
              ∧ selected g' = selected g ∧ selectedText g' = selectedText g
              ∧ itemsNode g' = itemsNode g ∧ range g' = range g ∧ items g' = items g).
  { intros i Hi. destruct (item_at_is_Some (items g) i Hi) as [file Hf].
    rewrite Hf. cbn [mbind option_bind].
    exists (changeFileDialog file g), file. split; [done|].
    destruct (changeFileDialog_fields file g) as (H1 & _ & H3 & H4 & H5 & H6 & H7 & _).
    split; [done|]. split; [right; by apply item_at_in with i|]. done. }
  pose proof (findIndex_bounds (MediaInfo.id cur) (items g)) as Hb.
  unfold length_items.
  destruct key; try exact Hsame.
  - destruct (decide (findIndex (MediaInfo.id cur) (items g) > 0)); [|exact Hsame].
    apply Hmove. lia.
  - destruct (decide (findIndex (MediaInfo.id cur) (items g)
                      < Z.of_nat (length (items g)) - 1)); [|exact Hsame].
    apply Hmove. lia.
Qed.

Lemma dialog_keys_never_throw_witness :
  ∃ g' f, keydownListener (λ j : nat, j) ArrowRight dialog_grid = Some g'
    ∧ dialogFile g' = Some f ∧ (f = sample_file 3 ∨ f ∈ items dialog_grid)
    ∧ selected g' = selected dialog_grid ∧ selectedText g' = selectedText dialog_grid
    ∧ itemsNode g' = itemsNode dialog_grid ∧ range g' = range dialog_grid
    ∧ items g' = items dialog_grid.
Proof.
  assert (Hd : dialogFile dialog_grid = Some (sample_file 3)) by reflexivity.
  exact (dialog_keys_never_throw (λ j : nat, j) ArrowRight dialog_grid (sample_file 3) Hd).
Defined.

Lemma find_item_NoDup (l : list MediaInfo.t) (i : nat) (x : MediaInfo.t) :
  NoDup (MediaInfo.id <$> l) → l !! i = Some x → find_item (MediaInfo.id x) l = Some x.
Proof.
  unfold find_item. revert i. induction l as [|y l IH]; intros i Hnd Hi; [done|].
  rewrite fmap_cons in Hnd. apply NoDup_cons in Hnd as [Hy Hnd].
  cbn [List.find]. destruct i as [|i]; cbn in Hi.
  - injection Hi as ->. by rewrite bool_decide_eq_true_2.
  - rewrite bool_decide_eq_false_2; [by apply (IH i)|].
    intros Heq. apply Hy. rewrite Heq.
    apply list_elem_of_fmap. exists x. split; [done|].
    by apply list_elem_of_lookup_2 with i.
Qed.

(** X24: With the dialog closed and the primary on the item at index [i] (distinct
    ids, the primary's not 0), [Enter] opens the dialog on that item and
    leaves the selection as it is; from then on [ArrowRight] no longer moves
    the selection but makes the dialog show the item at index [i + 1]. *)
Theorem enter_opens_primary_item {Px : Type} `{EqDecision Px} (left : nat → Px)
    (g : ImageGrid) (i : nat) (cur : MediaInfo.t) :
  NoDup (MediaInfo.id <$> items g) → items g !! i = Some cur →
  dialogFile g = None →
  Selected.primary (selected g) = Some (MediaInfo.id cur) → MediaInfo.id cur ≠ 0 →
  keydownListener left Enter g = Some (showFileDialog cur g)
  ∧ dialogFile (showFileDialog cur g) = Some cur
  ∧ dialogOpen (showFileDialog cur g) = true
  ∧ fileView (showFileDialog cur g) = Some (MediaInfo.file_type cur, MediaInfo.id cur)
  ∧ selected (showFileDialog cur g) = selected g
  ∧ (∀ nxt, items g !! S i = Some nxt →
       ∃ g', keydownListener left ArrowRight (showFileDialog cur g) = Some g'
         ∧ dialogFile g' = Some nxt ∧ dialogOpen g' = true
         ∧ selected g' = selected g).
Proof.
  intros Hnd Hi Hd Hprim Hnz.
  split.
  { unfold keydownListener. rewrite Hd. cbn [keydownGrid]. rewrite Hprim.
    rewrite decide_False by done. by rewrite (find_item_NoDup _ i). }
  split; [done|]. split; [done|]. split; [done|]. split; [done|].
  intros nxt Hn.
  assert (Hlen : (S i < length (items g))%nat) by (apply lookup_lt_is_Some; eauto).
  exists (changeFileDialog nxt (showFileDialog cur g)).
  split; [|done].
  unfold keydownListener, keydownDialog.
  change (dialogFile (showFileDialog cur g)) with (Some cur).
  change (items (showFileDialog cur g)) with (items g).
  change (length_items (showFileDialog cur g)) with (Z.of_nat (length (items g))).
  cbv beta iota. rewrite (findIndex_NoDup _ i) by done.
  rewrite decide_True by lia.
  replace (Z.of_nat i + 1) with (Z.of_nat (S i)) by lia.
  by rewrite item_at_of_nat, Hn.
Qed.

Lemma enter_opens_primary_item_witness :
  keydownListener (λ j : nat, j) Enter anchored_grid
  = Some (showFileDialog (sample_file 7) anchored_grid)
  ∧ dialogFile (showFileDialog (sample_file 7) anchored_grid) = Some (sample_file 7)
  ∧ dialogOpen (showFileDialog (sample_file 7) anchored_grid) = true
  ∧ fileView (showFileDialog (sample_file 7) anchored_grid)
    = Some (MediaInfo.file_type (sample_file 7), MediaInfo.id (sample_file 7))
  ∧ selected (showFileDialog (sample_file 7) anchored_grid) = selected anchored_grid
  ∧ (∀ nxt, items anchored_grid !! 8%nat = Some nxt →
       ∃ g', keydownListener (λ j : nat, j) ArrowRight
               (showFileDialog (sample_file 7) anchored_grid) = Some g'
         ∧ dialogFile g' = Some nxt ∧ dialogOpen g' = true
         ∧ selected g' = selected anchored_grid).
Proof.
  assert (Hnd : NoDup (MediaInfo.id <$> items anchored_grid))
    by (apply (bool_decide_unpack _); vm_compute; exact I).
  assert (Hi : items anchored_grid !! 7%nat = Some (sample_file 7)) by reflexivity.
  assert (Hd : dialogFile anchored_grid = None) by reflexivity.
  assert (Hp : Selected.primary (selected anchored_grid) = Some (MediaInfo.id (sample_file 7)))
    by (rewrite anchored_grid_selected; reflexivity).
  assert (Hnz : MediaInfo.id (sample_file 7) ≠ 0) by discriminate.
  exact (enter_opens_primary_item (λ j : nat, j) anchored_grid 7 (sample_file 7)
           Hnd Hi Hd Hp Hnz).
Defined.
